(** * remotefilelog/remotefilectx.py: linknode resolution over a remote-backed file store

    A shallow embedding of [remotefilectx] and [remoteworkingfilectx]:
    Python values become Rocq data, attribute mutation becomes explicit
    state passing through a state-and-exception monad, and every call
    into an external collaborator (commit graph, file store, fastlog
    service, ui) is recorded in a trace. *)

From stdpp Require Import base option list gmap strings.
From Stdlib Require Import ZArith Ascii String Lia.
From Stdlib Require Import Sorted.

Open Scope string_scope.
Open Scope Z_scope.
Open Scope list_scope.

(** ** Python values used by the module *)

(** Exceptions the module raises, catches or lets through. *)
Inductive exn :=
| LookupError
| KeyError
| TypeError
| IndexError
| StoreError (msg : string).

Inductive result (A : Type) :=
| Ok (a : A)
| Raise (e : exn).
Arguments Ok {A} a.
Arguments Raise {A} e.

(** Revision numbers are Python ints; [nullrev] is -1. *)
Definition nullrev : Z := -1.

(** Node ids are Python 2 byte strings of 20 bytes; [nullid] is twenty
    NUL bytes. *)
Definition NUL : ascii := Ascii.zero.

Fixpoint replicate_ascii (n : nat) (c : ascii) : string :=
  match n with
  | O => EmptyString
  | S k => String c (replicate_ascii k c)
  end.

Definition nullid : string := replicate_ascii 20 NUL.

(** *** [mercurial.node.hex] and [mercurial.node.bin]
    ([binascii.hexlify] and [binascii.unhexlify]). *)

Definition hexdigit (n : N) : ascii :=
  match n with
  | 0 => "0" | 1 => "1" | 2 => "2" | 3 => "3" | 4 => "4" | 5 => "5"
  | 6 => "6" | 7 => "7" | 8 => "8" | 9 => "9" | 10 => "a" | 11 => "b"
  | 12 => "c" | 13 => "d" | 14 => "e" | _ => "f"
  end%N%char.

Definition unhexdigit (c : ascii) : option N :=
  let n := N_of_ascii c in
  if ((48 <=? n) && (n <=? 57))%N then Some (n - 48)%N
  else if ((97 <=? n) && (n <=? 102))%N then Some (n - 87)%N
  else if ((65 <=? n) && (n <=? 70))%N then Some (n - 55)%N
  else None.

Fixpoint hex (s : string) : string :=
  match s with
  | EmptyString => EmptyString
  | String c r =>
      String (hexdigit (N_of_ascii c / 16))
        (String (hexdigit (N_of_ascii c mod 16)) (hex r))
  end.

Fixpoint bin (s : string) : result string :=
  match s with
  | EmptyString => Ok EmptyString
  | String _ EmptyString => Raise TypeError
  | String a (String b r) =>
      match unhexdigit a, unhexdigit b with
      | Some h, Some l =>
          match bin r with
          | Ok t => Ok (String (ascii_of_N (16 * h + l)) t)
          | Raise e => Raise e
          end
      | _, _ => Raise TypeError
      end
  end.

(** *** The [fileid] argument of the constructors

    Callers pass [None], an int (a revision number such as [nullrev]) or
    a byte string (binary or hex node). *)
Inductive pyfileid :=
| FidNone
| FidInt (z : Z)
| FidStr (s : string).

(** Python truthiness of such a value. *)
Definition fileid_truthy (f : pyfileid) : bool :=
  match f with
  | FidNone => false
  | FidInt z => negb (z =? 0)
  | FidStr s => negb (String.eqb s "")
  end.

(** [remotefilectx.__init__], lines 40-43: the value handed on to
    [context.filectx.__init__], which stores it as [_fileid]. [len] of an
    int raises [TypeError]. *)
Definition normalize_fileid (fileid : pyfileid) : result pyfileid :=
  let fileid :=
    match fileid with
    | FidInt z => if z =? nullrev then FidStr nullid else fileid
    | _ => fileid
    end in
  if fileid_truthy fileid then
    match fileid with
    | FidStr s =>
        if (String.length s =? 40)%nat then
          match bin s with
          | Ok b => Ok (FidStr b)
          | Raise e => Raise e
          end
        else Ok fileid
    | FidInt _ => Raise TypeError
    | FidNone => Ok fileid
    end
  else Ok fileid.

(** ** The state-and-exception monad

    A computation runs on a state [S] and ends with a value or an
    exception; in both cases the state reached is kept, as attribute
    writes and calls made before a [raise] are not undone. *)

Definition M (S A : Type) : Type := S -> result A * S.

Definition ret {S A} (a : A) : M S A := fun s => (Ok a, s).

Definition bind {S A B} (m : M S A) (k : A -> M S B) : M S B :=
  fun s =>
    match m s with
    | (Ok a, s') => k a s'
    | (Raise e, s') => (Raise e, s')
    end.

Definition raise {S A} (e : exn) : M S A := fun s => (Raise e, s).

Definition gets {S A} (f : S -> A) : M S A := fun s => (Ok (f s), s).

Definition modify {S} (f : S -> S) : M S unit := fun s => (Ok tt, f s).

(** [try: m except Exception as e: h e]. *)
Definition try_except {S A} (m : M S A) (h : exn -> M S A) : M S A :=
  fun s =>
    match m s with
    | (Ok a, s') => (Ok a, s')
    | (Raise e, s') => h e s'
    end.

Declare Scope py_scope.
Delimit Scope py_scope with py.
Notation "x <- m ;; k" := (bind m (fun x => k))
  (at level 100, m at next level, right associativity) : py_scope.
Notation "m ;;; k" := (bind m (fun _ => k))
  (at level 100, right associativity) : py_scope.
Open Scope py_scope.

(** ** Ancestor maps *)

(** One entry, the Python tuple [(p1, p2, linknode, copyfrom)]. *)
Definition ancentry : Type := string * string * string * string.

Definition linknode_of (e : ancentry) : string := e.1.2.

#[global] Instance pyfileid_eq_dec : EqDecision pyfileid.
Proof. solve_decision. Defined.

#[global] Instance pyfileid_countable : Countable pyfileid.
Proof.
  refine (inj_countable'
    (fun f => match f with
              | FidNone => inl tt
              | FidInt z => inr (inl z)
              | FidStr s => inr (inr s)
              end)
    (fun x => match x with
              | inl _ => FidNone
              | inr (inl z) => FidInt z
              | inr (inr s) => FidStr s
              end) _).
  intros []; reflexivity.
Defined.

(** A dict from file node to entry. Keys are whatever Python value a
    context carries as its file node: a binary node, or [None] for the
    working copy. *)
Abbreviation ancmap := (gmap pyfileid ancentry).

(** Truthiness of the cached [_ancestormap] attribute: [None] and the
    empty dict are both false. *)
Definition ancestormap_truthy (c : option ancmap) : bool :=
  match c with
  | None => false
  | Some m => negb (bool_decide (m = ∅))
  end.

(** [d[k]], raising [KeyError]. *)
Definition getitem {S} (m : ancmap) (k : pyfileid) : M S ancentry :=
  match m !! k with
  | Some e => ret e
  | None => raise KeyError
  end.

(** The value of [manifest.get(path)] as a Python value. *)
Definition of_option (o : option string) : pyfileid :=
  match o with
  | Some s => FidStr s
  | None => FidNone
  end.

(** [hex(fnode)]: a [TypeError] unless [fnode] is a string. *)
Definition hex_py {S} (f : pyfileid) : M S string :=
  match f with
  | FidStr s => ret (hex s)
  | _ => raise TypeError
  end.

(** ** External collaborators *)

Inductive phase := public | draft | secret.

#[global] Instance phase_eq_dec : EqDecision phase.
Proof. solve_decision. Defined.

(** The commit graph as the module consumes it. [cl_rev] is the node
    map ([nodemap.get], and [rev()] which raises [LookupError] where the
    map has no entry); [cl_read r] gives the manifest node and the list
    of touched files of revision [r] (fields 0 and 3 of the changeset
    data); [cl_ancestors] lists what the lazy ancestor iterator
    yields. *)
Record changelog_t := {
  cl_len : Z;
  cl_node : Z -> string;
  cl_rev : string -> option Z;
  cl_isancestorrev : Z -> Z -> bool;
  cl_ancestors : list Z -> bool -> list Z;
  cl_read : Z -> string * list string
}.

(** [cl.isancestor(a, b)]: both nodes are resolved to revisions first. *)
Definition cl_isancestor (cl : changelog_t) (a b : string) : result bool :=
  match cl_rev cl a with
  | None => Raise LookupError
  | Some ra =>
      match cl_rev cl b with
      | None => Raise LookupError
      | Some rb => Ok (cl_isancestorrev cl ra rb)
      end
  end.

Record repo_t := {
  changelog : changelog_t;             (* repo.changelog *)
  unfiltered_changelog : changelog_t;  (* repo.unfiltered().changelog *)
  manifestlog : string -> gmap string string;
  phasecache : Z -> phase;
  fastlog_enabled : bool;              (* ui.configbool('fastlog', 'enabled') *)
  fbconduit_reponame : string;         (* ui.config('fbconduit', 'reponame') *)
  have_conduit : bool;                 (* self._conduit is not None *)
  lookup_hash : string -> option Z;    (* repo[str(h)].rev(), None: lookup error *)
  wdir_parents : list Z                (* [p.rev() for p in repo[None].parents()] *)
}.

(** What the module does to the outside, in order. *)
Inductive event :=
| EvFetchAncestormap (path : string) (node : pyfileid)
| EvIsAncestor (a b : string)
| EvAncestors (revs : list Z) (inclusive : bool)
| EvVisit (ancrev : Z)
| EvFastlog (path : string) (srcrev : Z)
| EvConduit (reponame srchex path : string)
| EvPrefetch (files : list (string * string)) (force : bool)
| EvWarn (path hexlinknode : string) (e : exn)
| EvLog (service msg : string).

(** ** File contexts *)

(** A Python value that is [None] or an int (a revision number). *)
Definition pyrev : Type := option Z.

(** The two classes of the module. A working-copy context knows the
    manifests of the parents of the working directory
    ([self._changectx._parents], one or two) and what
    [workingfilectx.renamed()] answers: [None], or the pair of the copy
    source path and its file node. *)
Inductive ctxkind :=
| Committed
| Working (pcl : list (gmap string string)) (renamed : option (string * string)).

(** The attributes of a context this module reads or writes. For the
    attributes that may be missing from [__dict__] the outer [option]
    says whether the attribute is present. [_fileid] also stands for
    [_filenode], which is [filelog.lookup(_fileid)], the identity on
    binary nodes, and [None] on a working-copy context. *)
Record remotefilectx := {
  _path : string;
  _fileid : pyfileid;
  _changeid : option pyrev;
  _changectx : option pyrev;       (* rev() of the attached changectx *)
  _descendantrev : option pyrev;
  _linkrev_cached : option pyrev;  (* propertycache of _linkrev *)
  _ancestormap : option ancmap;
  kind : ctxkind
}.

Definition set_ancestormap (c : remotefilectx) (m : option ancmap) : remotefilectx :=
  {| _path := _path c; _fileid := _fileid c; _changeid := _changeid c;
     _changectx := _changectx c; _descendantrev := _descendantrev c;
     _linkrev_cached := _linkrev_cached c; _ancestormap := m; kind := kind c |}.

Definition set_changeid (c : remotefilectx) (r : pyrev) : remotefilectx :=
  {| _path := _path c; _fileid := _fileid c; _changeid := Some r;
     _changectx := _changectx c; _descendantrev := _descendantrev c;
     _linkrev_cached := _linkrev_cached c; _ancestormap := _ancestormap c;
     kind := kind c |}.

Definition set_descendantrev (c : remotefilectx) (r : pyrev) : remotefilectx :=
  {| _path := _path c; _fileid := _fileid c; _changeid := _changeid c;
     _changectx := _changectx c; _descendantrev := Some r;
     _linkrev_cached := _linkrev_cached c; _ancestormap := _ancestormap c;
     kind := kind c |}.

Definition set_linkrev_cached (c : remotefilectx) (r : pyrev) : remotefilectx :=
  {| _path := _path c; _fileid := _fileid c; _changeid := _changeid c;
     _changectx := _changectx c; _descendantrev := _descendantrev c;
     _linkrev_cached := Some r; _ancestormap := _ancestormap c;
     kind := kind c |}.

(** [remotefilectx.__init__] followed by [context.filectx.__init__],
    which stores [changeid], [changectx] and [fileid] when they are not
    [None]. *)
Definition new_remotefilectx (path : string) (changeid : pyrev) (fileid : pyfileid)
    (changectx : option pyrev) (ancestormap : option ancmap) : result remotefilectx :=
  match normalize_fileid fileid with
  | Raise e => Raise e
  | Ok fid =>
      Ok {| _path := path; _fileid := fid;
            _changeid := match changeid with Some r => Some (Some r) | None => None end;
            _changectx := changectx; _descendantrev := None;
            _linkrev_cached := None; _ancestormap := ancestormap;
            kind := Committed |}
  end.

(** [remoteworkingfilectx.__init__] followed by
    [context.committablefilectx.__init__]: no file node, [_changeid] is
    [None]. *)
Definition new_remoteworkingfilectx (path : string)
    (pcl : list (gmap string string)) (renamed : option (string * string)) : remotefilectx :=
  {| _path := path; _fileid := FidNone; _changeid := Some None;
     _changectx := Some None; _descendantrev := None;
     _linkrev_cached := None; _ancestormap := None;
     kind := Working pcl renamed |}.

Definition lift {S A} (r : result A) : M S A := fun s => (r, s).

(** [manifest.get(path, nullid)]. *)
Definition manifest_get (m : gmap string string) (path : string) : string :=
  default nullid (m !! path).

(** ** The methods of [remotefilectx] *)

Section Remote.

(** The state of the file store, local caches and remote services; the
    module only reaches it through the three calls below. *)
Context {Store : Type}.

(** [filelog.ancestormap(node)] of the file log of a path. *)
Variable filelog_ancestormap :
  string -> pyfileid -> Store -> result ancmap * Store.
(** [repo.fileservice.prefetch(files, force=...)]. *)
Variable fileservice_prefetch :
  list (string * string) -> bool -> Store -> result unit * Store.
(** [conduit.call_conduit('scmquery.log_v2', repo=, rev=, file_paths=[path])]:
    [None], or the hashes of the commits it lists. *)
Variable call_conduit :
  string -> string -> string -> Store -> result (option (list string)) * Store.

Variable repo : repo_t.

Record world := {
  w_store : Store;
  w_trace : list event
}.

(** The receiver [self] and the world around it. *)
Record state := {
  st_self : remotefilectx;
  st_world : world
}.

Definition emit_w (e : event) : M world unit :=
  modify (fun w => {| w_store := w_store w; w_trace := w_trace w ++ [e] |}).

Definition call_w {A} (f : Store -> result A * Store) : M world A :=
  fun w =>
    let '(r, st) := f (w_store w) in
    (r, {| w_store := st; w_trace := w_trace w |}).

(** A computation on the world, run from inside a method. *)
Definition in_world {A} (m : M world A) : M state A :=
  fun s =>
    let '(r, w) := m (st_world s) in
    (r, {| st_self := st_self s; st_world := w |}).

(** A method run on the object [c]: the value comes with the object as
    the method left it. *)
Definition on {A} (c : remotefilectx) (m : M state A) : M world (A * remotefilectx) :=
  fun w =>
    match m {| st_self := c; st_world := w |} with
    | (Ok a, s) => (Ok (a, st_self s), st_world s)
    | (Raise e, s) => (Raise e, st_world s)
    end.

Definition emit (e : event) : M state unit := in_world (emit_w e).

Definition call {A} (f : Store -> result A * Store) : M state A :=
  in_world (call_w f).

Definition update_self (f : remotefilectx -> remotefilectx) : M state unit :=
  modify (fun s => {| st_self := f (st_self s); st_world := st_world s |}).

Definition fetch_ancestormap (path : string) (node : pyfileid) : M state ancmap :=
  emit (EvFetchAncestormap path node);;;
  call (filelog_ancestormap path node).

(** Lines 512-518: [m.update(...)] with the ancestor map of a parent
    that is not [nullid]; [repo.filectx(p[0], fileid=p[1])] builds a
    [remotefilectx]. *)
Definition update_from_parent (p : string * string) (m : ancmap) : M state ancmap :=
  if bool_decide (p.2 ≠ nullid) then
    _ <- lift (new_remotefilectx p.1 None (FidStr p.2) None None);;
    pm <- fetch_ancestormap p.1 (FidStr p.2);;
    ret (pm ∪ m)
  else ret m.

(** [remoteworkingfilectx.ancestormap], lines 498-523. *)
Definition working_ancestormap (path : string) (pcl : list (gmap string string))
    (renamed : option (string * string)) : M state ancmap :=
  p1 <- match renamed with
        | Some r => ret r
        | None =>
            match pcl with
            | m0 :: _ => ret (path, manifest_get m0 path)
            | [] => raise IndexError
            end
        end;;
  let p2 := match pcl with
            | _ :: m1 :: _ => (path, manifest_get m1 path)
            | _ => (path, nullid)
            end in
  m <- update_from_parent p1 ∅;;
  m <- update_from_parent p2 m;;
  let copyfrom := match renamed with Some r => r.1 | None => "" end in
  ret (<[FidNone := (p1.2, p2.2, nullid, copyfrom)]> m).

(** [remotefilectx.ancestormap] (lines 162-166) and its override
    [remoteworkingfilectx.ancestormap] (lines 496-526), dispatched on
    the class of [self]. *)
Definition ancestormap : M state ancmap :=
  self <- gets st_self;;
  if ancestormap_truthy (_ancestormap self) then
    ret (default ∅ (_ancestormap self))
  else
    m <- match kind self with
         | Committed => fetch_ancestormap (_path self) (_fileid self)
         | Working pcl renamed => working_ancestormap (_path self) pcl renamed
         end;;
    update_self (fun c => set_ancestormap c (Some m));;;
    ret m.

(** [_nodefromancrev], lines 192-200. *)
Definition _nodefromancrev (ancrev : Z) (cl : changelog_t)
    (mfl : string -> gmap string string) (path : string) (fnode : pyfileid)
    : option string :=
  let '(manifestnode, files) := cl_read cl ancrev in
  if bool_decide (path ∈ files)
     && bool_decide (fnode = of_option (mfl manifestnode !! path))
  then Some (cl_node cl ancrev)
  else None.

(** [any(cl.isancestor(linknode, cl.node(r)) for r in revs)]. *)
Fixpoint any_isancestor (cl : changelog_t) (linknode : string) (revs : list Z)
    : M state bool :=
  match revs with
  | [] => ret false
  | r :: rest =>
      emit (EvIsAncestor linknode (cl_node cl r));;;
      b <- lift (cl_isancestor cl linknode (cl_node cl r));;
      if b then ret true else any_isancestor cl linknode rest
  end.

(** [_verifylinknode], lines 354-377. *)
Definition _verifylinknode (revs : list Z) (linknode : string) : M state bool :=
  match revs with
  | [] => ret false
  | _ =>
      try_except (any_isancestor (changelog repo) linknode revs)
        (fun e => match e with
                  | LookupError => ret false
                  | _ => raise e
                  end)
  end.

(** The loop of lines 343-348 over the hashes fastlog returned. *)
Fixpoint fastlog_scan (results : list string) (cl : changelog_t) (path : string)
    (fnode : pyfileid) : M state (option string) :=
  match results with
  | [] => ret None
  | h :: rest =>
      match lookup_hash repo h with
      | None => raise LookupError
      | Some ancrev =>
          match _nodefromancrev ancrev cl (manifestlog repo) path fnode with
          | Some lnode => ret (Some lnode)
          | None => fastlog_scan rest cl path fnode
          end
      end
  end.

(** [_linknodeviafastlog], lines 324-352. [have_conduit repo] is the
    value the property [self._conduit] has once the module global
    [conduit] is set; the first access in a process, which runs
    [createconduit] and may write a line to the log, is [_conduit]
    below. *)
Definition _linknodeviafastlog (path : string) (srcrev : Z) (fnode : pyfileid)
    (cl : changelog_t) : M state (option string) :=
  emit (EvFastlog path srcrev);;;
  if negb (have_conduit repo) then ret None
  else
    try_except
      (let srchex := hex (cl_node (changelog repo) srcrev) in
       emit (EvConduit (fbconduit_reponame repo) srchex path);;;
       results <- call (call_conduit (fbconduit_reponame repo) srchex path);;
       match results with
       | None =>
           emit (EvLog "linkrevfixup" "fastlog returned 0 results");;;
           ret None
       | Some l => fastlog_scan l cl path fnode
       end)
      (fun e =>
         emit (EvLog "linkrevfixup" "call to fastlog failed");;;
         ret None).

(** Lines 304-320: the forced prefetch, the rebuild of the ancestor
    map and the second verification. The value is the variable
    [linknode] after the block and whether the block returned it. An
    exception raised before [linknode] is rebound is reported with the
    old linknode, one raised after it with the new one. *)
Definition refresh_linknode (path : string) (fnode : pyfileid) (revs : list Z)
    (linknode : string) : M state (string * bool) :=
  let warn (ln : string) (e : exn) : M state (string * bool) :=
    emit (EvWarn path (hex ln) e);;;
    ret (ln, false) in
  r <- try_except
         (h <- hex_py fnode;;
          emit (EvPrefetch [(path, h)] true);;;
          call (fileservice_prefetch [(path, h)] true);;;
          update_self (fun c => set_ancestormap c None);;;
          m <- ancestormap;;
          e <- getitem m fnode;;
          ret (inl (linknode_of e)))
         (fun e => ret (inr e));;
  match r with
  | inr e => warn linknode e
  | inl ln =>
      try_except
        (ok <- _verifylinknode revs ln;;
         ret (ln, ok))
        (warn ln)
  end.

(** How the [for ancrev in iteranc] loop ends: with a [return] from
    inside the loop, or exhausted with the variable [linknode] as the
    loop left it. *)
Inductive walk_end :=
| Returned (lnode : string)
| Exhausted (linknode : string).

(** Lines 297-302: fastlog is asked only where it is enabled. *)
Definition fastlog_attempt (path : string) (ancrev : Z) (fnode : pyfileid)
    (cl : changelog_t) : M state (option string) :=
  if fastlog_enabled repo then _linknodeviafastlog path ancrev fnode cl
  else ret None.

(** Python truthiness of the value of [_linknodeviafastlog]. *)
Definition lnode_truthy (hit : option string) : bool :=
  match hit with
  | Some (String _ _) => true
  | _ => false
  end.

(** The [for ancrev in iteranc] loop of lines 246-320, with the local
    variables [seenpublic] and [linknode] as arguments. *)
Fixpoint walk (path : string) (fnode : pyfileid) (revs : list Z)
    (cl : changelog_t) (iteranc : list Z) (seenpublic : bool)
    (linknode : string) : M state walk_end :=
  match iteranc with
  | [] => ret (Exhausted linknode)
  | ancrev :: rest =>
      emit (EvVisit ancrev);;;
      match _nodefromancrev ancrev cl (manifestlog repo) path fnode with
      | Some lnode => ret (Returned lnode)
      | None =>
          if negb seenpublic && bool_decide (phasecache repo ancrev = public) then
            hit <- fastlog_attempt path ancrev fnode cl;;
            if lnode_truthy hit then
              emit (EvLog "linkrevfixup" "success");;;
              ret (Returned (default "" hit))
            else
              r <- refresh_linknode path fnode revs linknode;;
              if r.2 then ret (Returned r.1)
              else walk path fnode revs cl rest true r.1
          else walk path fnode revs cl rest seenpublic linknode
      end
  end.

(** [_adjustlinknode], lines 202-322. [srcrev] is [None] in the
    working-context case. *)
Definition _adjustlinknode (path : string) (fnode : pyfileid) (srcrev : pyrev)
    (inclusive : bool) : M state string :=
  let cl := unfiltered_changelog repo in
  m <- ancestormap;;
  e <- getitem m fnode;;
  let linknode := linknode_of e in
  let '(revs, inclusive) :=
    match srcrev with
    | None => (wdir_parents repo, true)
    | Some r => ([r], inclusive)
    end in
  ok <- _verifylinknode revs linknode;;
  if ok then ret linknode
  else
    emit (EvAncestors revs inclusive);;;
    w <- walk path fnode revs cl (cl_ancestors cl revs inclusive) false linknode;;
    match w with
    | Returned lnode => ret lnode
    | Exhausted linknode => ret linknode
    end.

(** Python's [range(start, stop, -1)]. *)
Definition range_down (start stop : Z) : list Z :=
  map (fun i => start - Z.of_nat i) (seq 0 (Z.to_nat (start - stop))).

(** The [for rev in ...] loop of lines 103-110 over the given
    revisions; [cl.read(cl.node(rev))] reads revision [rev]. *)
Fixpoint linkrev_scan (cl : changelog_t) (mfl : string -> gmap string string)
    (path : string) (fileid : pyfileid) (revs : list Z) : pyrev :=
  match revs with
  | [] => None
  | rev :: rest =>
      let '(manifestnode, files) := cl_read cl rev in
      if bool_decide (path ∈ files)
         && bool_decide (fileid = of_option (mfl manifestnode !! path))
      then Some rev
      else linkrev_scan cl mfl path fileid rest
  end.

(** [_linkrev], lines 86-114. *)
Definition _linkrev : M state pyrev :=
  self <- gets st_self;;
  if bool_decide (_fileid self = FidStr nullid) then ret (Some nullrev)
  else
    m <- ancestormap;;
    e <- getitem m (_fileid self);;
    match cl_rev (changelog repo) (linknode_of e) with
    | Some rev => ret (Some rev)
    | None =>
        let cl := unfiltered_changelog repo in
        ret (linkrev_scan cl (manifestlog repo) (_path self) (_fileid self)
               (range_down (cl_len cl - 1) 0))
    end.

(** [linkrev()]: [_linkrev] is a [propertycache]. *)
Definition linkrev : M state pyrev :=
  self <- gets st_self;;
  match _linkrev_cached self with
  | Some r => ret r
  | None =>
      r <- _linkrev;;
      update_self (fun c => set_linkrev_cached c r);;;
      ret r
  end.

(** [cl.rev(node)]. *)
Definition changelog_rev (node : string) : M state Z :=
  match cl_rev (changelog repo) node with
  | Some r => ret r
  | None => raise LookupError
  end.

(** [rev()], that is the [propertycache] [_changeid] of lines 62-75. *)
Definition rev : M state pyrev :=
  self <- gets st_self;;
  match _changeid self with
  | Some r => ret r
  | None =>
      r <- match _changectx self with
           | Some r => ret r
           | None =>
               match _descendantrev self with
               | Some d =>
                   linknode <- _adjustlinknode (_path self) (_fileid self) d false;;
                   r <- changelog_rev linknode;;
                   ret (Some r)
               | None => linkrev
               end
           end;;
      update_self (fun c => set_changeid c r);;;
      ret r
  end.

(** [introrev], lines 116-133. *)
Definition introrev : M state pyrev :=
  lkr <- linkrev;;
  attrs <- gets st_self;;
  let noctx := negb (bool_decide (is_Some (_changeid attrs))
                     || bool_decide (is_Some (_changectx attrs))) in
  r <- (if noctx then ret lkr else rev);;
  if noctx || bool_decide (r = lkr) then ret lkr
  else
    self <- gets st_self;;
    r <- rev;;
    linknode <- _adjustlinknode (_path self) (_fileid self) r true;;
    r <- changelog_rev linknode;;
    ret (Some r).

(** [parents], lines 168-190. The new contexts share the map this call
    read. *)
Definition parents : M state (list remotefilectx) :=
  m <- ancestormap;;
  self <- gets st_self;;
  e <- getitem m (_fileid self);;
  let '(p1, p2, _, copyfrom) := e in
  r1 <- (if bool_decide (p1 ≠ nullid) then
           let path := if String.eqb copyfrom "" then _path self else copyfrom in
           p1ctx <- lift (new_remotefilectx path None (FidStr p1) None (Some m));;
           r <- rev;;
           ret [set_descendantrev p1ctx r]
         else ret []);;
  r2 <- (if bool_decide (p2 ≠ nullid) then
           self <- gets st_self;;
           p2ctx <- lift (new_remotefilectx (_path self) None (FidStr p2) None (Some m));;
           r <- rev;;
           ret [set_descendantrev p2ctx r]
         else ret []);;
  ret (r1 ++ r2).

Definition set_changectx (c : remotefilectx) (r : pyrev) : remotefilectx :=
  {| _path := _path c; _fileid := _fileid c; _changeid := _changeid c;
     _changectx := Some r; _descendantrev := _descendantrev c;
     _linkrev_cached := _linkrev_cached c; _ancestormap := _ancestormap c;
     kind := kind c |}.

(** [node()] of the base class: the node of [self._changectx], a
    [propertycache] built from [self._changeid]; [None] for the working
    directory. *)
Definition node : M state (option string) :=
  self <- gets st_self;;
  r <- match _changectx self with
       | Some r => ret r
       | None =>
           r <- rev;;
           update_self (fun c => set_changectx c r);;;
           ret r
       end;;
  ret (cl_node (changelog repo) <$> r).

(** [__eq__] of the base class: same class, path and file node. *)
Definition fctx_eqb (c d : remotefilectx) : bool :=
  match kind c, kind d with
  | Committed, Committed => true
  | Working _ _, Working _ _ => true
  | _, _ => false
  end
  && String.eqb (_path c) (_path d)
  && bool_decide (_fileid c = _fileid d).

(** [current in prefetchskip]. *)
Definition in_skip (current : remotefilectx) (prefetchskip : list remotefilectx) : bool :=
  existsb (fctx_eqb current) prefetchskip.

(** The local variables of the loop of [annotate]. The right end of
    the deque [queue] is the head of the list. *)
Record annotate_vars := {
  fetch : list (string * string);
  seen : gset (option string);
  queue : list remotefilectx
}.

(** Lines 470-473: the parents of [current], one after the other. *)
Fixpoint enqueue_parents (ps : list remotefilectx) (v : annotate_vars)
    : M world annotate_vars :=
  match ps with
  | [] => ret v
  | parent :: rest =>
      r <- on parent node;;
      let '(n, parent) := r in
      if bool_decide (n ∈ seen v) then enqueue_parents rest v
      else enqueue_parents rest
             {| fetch := fetch v; seen := {[n]} ∪ seen v;
                queue := parent :: queue v |}
  end.

(** One turn of the [while queue] loop, lines 463-473, on the context
    [current] just popped; [v] holds the variables after the pop. *)
Definition annotate_step (selfnode : pyfileid) (prefetchskip : list remotefilectx)
    (current : remotefilectx) (v : annotate_vars) : M world annotate_vars :=
  v <- (if bool_decide (_fileid current ≠ selfnode) then
          h <- hex_py (_fileid current);;
          ret {| fetch := fetch v ++ [(_path current, h)]; seen := seen v;
                 queue := queue v |}
        else ret v);;
  if negb (bool_decide (prefetchskip = [])) && in_skip current prefetchskip then ret v
  else
    r <- on current parents;;
    enqueue_parents r.1 v.

(** The loop after at most [n] turns. *)
Fixpoint annotate_loop (n : nat) (selfnode : pyfileid) (prefetchskip : list remotefilectx)
    (v : annotate_vars) : M world annotate_vars :=
  match n with
  | O => ret v
  | S k =>
      match queue v with
      | [] => ret v
      | current :: q =>
          v <- annotate_step selfnode prefetchskip current
                 {| fetch := fetch v; seen := seen v; queue := q |};;
          annotate_loop k selfnode prefetchskip v
      end
  end.

(** Lines 445-461 of [annotate]: the context the walk starts from and
    the variables before the loop. *)
Definition annotate_init (self : remotefilectx) (prefetchskip : list remotefilectx)
    : M world (annotate_vars * remotefilectx) :=
  r <- (if negb (bool_decide (prefetchskip = [])) then
          r <- on self (ir <- introrev;; r <- rev;; ret (ir, r));;
          let '((ir, r), self) := r in
          if bool_decide (r ≠ ir) then
            introctx <- lift (new_remotefilectx (_path self) ir (_fileid self) None
                                (_ancestormap self));;
            ret (introctx, self)
          else ret (self, self)
        else ret (self, self));;
  let '(introctx, self) := r in
  r <- on introctx node;;
  let '(n, introctx) := r in
  ret ({| fetch := []; seen := {[n]}; queue := [introctx] |}, self).

(** Lines 445-473 of [annotate]: the variables after at most [n]
    turns of the loop. *)
Definition annotate_walk (n : nat) (self : remotefilectx)
    (prefetchskip : list remotefilectx) : M world annotate_vars :=
  r <- annotate_init self prefetchskip;;
  let '(v, self) := r in
  annotate_loop n (_fileid self) prefetchskip v.

(** Lines 445-478 of [annotate], the prefetch planner, with the loop
    cut after [n] turns: the value is [None] when the queue is not yet
    empty then, and the list handed to [fileservice.prefetch]
    otherwise. *)
Definition annotate_prefetch (n : nat) (self : remotefilectx)
    (prefetchskip : list remotefilectx) : M world (option (list (string * string))) :=
  v <- annotate_walk n self prefetchskip;;
  match queue v with
  | _ :: _ => ret None
  | [] =>
      emit_w (EvLog "debug" "remotefilelog: prefetching files for annotate");;;
      (if bool_decide (fetch v = []) then ret tt
       else
         emit_w (EvPrefetch (fetch v) false);;;
         call_w (fileservice_prefetch (fetch v) false));;;
      ret (Some (fetch v))
  end.

(** [ancestor.genericancestor(a, b, pfunc)] of Mercurial. *)
Variable genericancestor :
  string * pyfileid -> string * pyfileid ->
  (string * pyfileid -> list (string * pyfileid)) -> option (string * pyfileid).

(** The local function [parents] of [ancestor], lines 424-430. *)
Definition ancestor_parents (amap bmap : ancmap) (x : string * pyfileid)
    : list (string * pyfileid) :=
  let '(f, n) := x in
  match (match amap !! n with Some p => Some p | None => bmap !! n end) with
  | None => []
  | Some (p1, p2, _, copyfrom) =>
      [(if String.eqb copyfrom "" then f else copyfrom, FidStr p1); (f, FidStr p2)]
  end.

(** [ancestor], lines 408-441. [actx] maps a path to the file context
    [actx[path]]; [self] and [fc2] are two objects. *)
Definition ancestor (self fc2 : remotefilectx) (actx : gmap string remotefilectx)
    : M world (option remotefilectx) :=
  let getitem_actx (path : string) : M world (option remotefilectx) :=
    match actx !! path with
    | Some c => ret (Some c)
    | None => raise KeyError
    end in
  let self_in := bool_decide (is_Some (actx !! _path self)) in
  let fc2_in := bool_decide (is_Some (actx !! _path fc2)) in
  if String.eqb (_path fc2) (_path self) && self_in then getitem_actx (_path self)
  else if self_in && negb fc2_in then getitem_actx (_path self)
  else if fc2_in && negb self_in then getitem_actx (_path fc2)
  else
    ra <- on self ancestormap;;
    rb <- on fc2 ancestormap;;
    let amap := ra.1 in
    let bmap := rb.1 in
    let a := (_path self, _fileid self) in
    let b := (_path fc2, _fileid fc2) in
    match genericancestor a b (ancestor_parents amap bmap) with
    | Some (f, n) =>
        r <- lift (new_remotefilectx f None n None (Some amap));;
        ret (Some r)
    | None => ret None
    end.

End Remote.

(** ** Vocabulary of the statements *)

Arguments w_store {Store} _.
Arguments w_trace {Store} _.
Arguments st_self {Store} _.
Arguments st_world {Store} _.

(** The state [s] with the events [d] added to its trace. *)
Definition add_trace {Store} (s : @state Store) (d : list event) : @state Store :=
  {| st_self := st_self s;
     st_world := {| w_store := w_store (st_world s);
                    w_trace := w_trace (st_world s) ++ d |} |}.

(** Events that ask the commit graph whether a node is an ancestor. *)
Definition is_isancestor_event (e : event) : Prop :=
  match e with
  | EvIsAncestor _ _ => True
  | _ => False
  end.

(** Events of an ancestor traversal, a fastlog call or a prefetch. *)
Definition is_resolution_event (e : event) : bool :=
  match e with
  | EvAncestors _ _ | EvVisit _ | EvFastlog _ _ | EvConduit _ _ _
  | EvPrefetch _ _ => true
  | _ => false
  end.

Section Vocabulary.

Context {Store : Type}.
Variable filelog_ancestormap :
  string -> pyfileid -> Store -> result ancmap * Store.
Variable repo : repo_t.

(** Every event [m] adds to the trace satisfies [P], however [m] ends. *)
Definition emits_only {A} (P : event -> Prop) (m : M (@state Store) A) : Prop :=
  forall s r s', m s = (r, s') ->
    exists d, w_trace (st_world s') = w_trace (st_world s) ++ d /\ Forall P d.

Definition is_fetch_event (e : event) : Prop :=
  match e with
  | EvFetchAncestormap _ _ => True
  | _ => False
  end.

(** Every revision of the list is a revision of the changelog: its
    node resolves in the node map. *)
Definition known_revs (cl : changelog_t) (revs : list Z) : Prop :=
  Forall (fun r => is_Some (cl_rev cl (cl_node cl r))) revs.

(** The commit graph says [linknode] is an ancestor of, or equal to,
    one of the revisions. *)
Definition ancestor_of_any (cl : changelog_t) (linknode : string) (revs : list Z) : Prop :=
  Exists (fun r => cl_isancestor cl linknode (cl_node cl r) = Ok true) revs.

(** The target revisions of [_adjustlinknode]. *)
Definition target_revs (srcrev : pyrev) : list Z :=
  match srcrev with
  | None => wdir_parents repo
  | Some r => [r]
  end.

Definition is_fastlog (e : event) : bool :=
  match e with EvFastlog _ _ => true | _ => false end.

Definition is_prefetch (e : event) : bool :=
  match e with EvPrefetch _ _ => true | _ => false end.

Definition is_visit (e : event) : bool :=
  match e with EvVisit _ => true | _ => false end.

(** How many events of a trace satisfy [f]. *)
Definition count (f : event -> bool) (d : list event) : nat :=
  List.length (List.filter f d).

(** The revisions a trace visits, in order. *)
Fixpoint visited (d : list event) : list Z :=
  match d with
  | [] => []
  | EvVisit r :: d' => r :: visited d'
  | _ :: d' => visited d'
  end.

(** Events other than those of a fastlog call, a prefetch or a visit. *)
Definition is_quiet (e : event) : Prop :=
  is_fastlog e = false /\ is_prefetch e = false /\ is_visit e = false.

(** A fastlog call or a prefetch. *)
Definition is_lookup (e : event) : bool := is_fastlog e || is_prefetch e.

(** Every fastlog call and every prefetch of the trace [d] happens
    while the traversal is at the first public commit it visits: the
    commits visited before are not public, and the last one is. *)
Definition at_first_public (d : list event) : Prop :=
  forall pre ev post,
    d = pre ++ ev :: post -> is_lookup ev = true ->
    exists qs p,
      visited pre = qs ++ [p] /\
      Forall (fun q => phasecache repo q <> public) qs /\
      phasecache repo p = public.

(** What the file store promises for the map of a file node: the node
    itself has an entry (the map covers the ancestry of the node down
    from the node itself). *)
Definition store_maps_cover_node : Prop :=
  forall path node st m st',
    filelog_ancestormap path node st = (Ok m, st') -> is_Some (m !! node).

(** The file store answers every request for an ancestor map. *)
Definition store_answers : Prop :=
  forall path node st, exists m st', filelog_ancestormap path node st = (Ok m, st').

(** The request for the ancestor map of the parent [p]. *)
Definition is_parent_fetch (p : string * string) (ev : event) : Prop :=
  ev = EvFetchAncestormap p.1 (FidStr p.2) /\ p.2 <> nullid.

(** The methods never change the path or the file node of [self]. *)
Definition same_file (c c' : remotefilectx) : Prop :=
  _path c' = _path c /\ _fileid c' = _fileid c.

Definition keeps_file {A} (m : M (@state Store) A) : Prop :=
  forall s r s', m s = (r, s') -> same_file (st_self s) (st_self s').

(** Every entry of the list is the hex form of a file node other than
    [selfnode]. *)
Definition joint_points (selfnode : pyfileid) (l : list (string * string)) : Prop :=
  forall p h, (p, h) ∈ l -> exists id, h = hex id /\ FidStr id <> selfnode.

(** What one turn on [current] appends to [fetch]. *)
Definition joint_entry (selfnode : pyfileid) (current : remotefilectx)
    : list (string * string) :=
  match _fileid current with
  | FidStr id =>
      if bool_decide (FidStr id <> selfnode) then [(_path current, hex id)] else []
  | _ => []
  end.

End Vocabulary.

(** ** More vocabulary *)

Section MoreVocabulary.

Context {Store : Type}.
Variable repo : repo_t.

(** A commit the repository resolves from a hash fastlog listed. *)
Definition from_fastlog (r : Z) : Prop :=
  exists h, lookup_hash repo h = Some r.

(** What a value returned from inside the loop is. *)
Definition found_by_walk (path : string) (fnode : pyfileid) (revs : list Z)
    (cl : changelog_t) (iteranc : list Z) (n : string) (c : remotefilectx) : Prop :=
  (exists r, r ∈ iteranc /\
             _nodefromancrev r cl (manifestlog repo) path fnode = Some n) \/
  (exists r, from_fastlog r /\
             _nodefromancrev r cl (manifestlog repo) path fnode = Some n) \/
  (ancestor_of_any (changelog repo) n revs /\
   exists m' e', _ancestormap c = Some m' /\ m' !! fnode = Some e' /\
                 n = linknode_of e').

(** The state after a successful forced prefetch of [[(path, h)]]: the
    request is in the trace, the store is [st], and the cached map is
    dropped. *)
Definition after_prefetch (path h : string) (st : Store) (s : @state Store)
    : @state Store :=
  {| st_self := set_ancestormap (st_self s) None;
     st_world := {| w_store := st;
                    w_trace := w_trace (st_world s) ++ [EvPrefetch [(path, h)] true] |} |}.

(** The commit of revision [r] touched [path] with the file node
    [fileid]. *)
Definition introduces (cl : changelog_t) (path : string) (fileid : pyfileid) (r : Z) : Prop :=
  _nodefromancrev r cl (manifestlog repo) path fileid <> None.

(** [c'] differs from [c] at most in the two caches, [_ancestormap] and
    [_linkrev]. *)
Definition same_but_caches (c c' : remotefilectx) : Prop :=
  _path c' = _path c /\ _fileid c' = _fileid c /\ _changeid c' = _changeid c /\
  _changectx c' = _changectx c /\ _descendantrev c' = _descendantrev c /\
  kind c' = kind c.

(** [m] changes of the receiver at most the two caches. *)
Definition keeps_attrs {A} (m : M (@state Store) A) : Prop :=
  forall s r s', m s = (r, s') -> same_but_caches (st_self s) (st_self s').

(** The context [parents()] builds for the parent node [id] at [path]:
    it shares the map [m] and knows the descendant revision [r]. *)
Definition parent_ctx (path id : string) (m : ancmap) (r : pyrev) : remotefilectx :=
  {| _path := path; _fileid := FidStr id; _changeid := None; _changectx := None;
     _descendantrev := Some r; _linkrev_cached := None; _ancestormap := Some m;
     kind := Committed |}.

(** The list [parents()] returns for the entry [(p1, p2, _, copyfrom)]
    of the context at [path]. *)
Definition parent_ctxs (path : string) (e : ancentry) (m : ancmap) (r : pyrev)
    : list remotefilectx :=
  let '(p1, p2, _, copyfrom) := e in
  (if bool_decide (p1 = nullid) then []
   else [parent_ctx (if String.eqb copyfrom "" then path else copyfrom) p1 m r])
  ++ (if bool_decide (p2 = nullid) then [] else [parent_ctx path p2 m r]).

(** The synthetic entry of a working-copy context. *)
Definition working_entry (path : string) (m0 : gmap string string)
    (pcl' : list (gmap string string)) (renamed : option (string * string)) : ancentry :=
  (match renamed with
   | Some r => r.2
   | None => manifest_get m0 path
   end,
   match pcl' with
   | m1 :: _ => manifest_get m1 path
   | [] => nullid
   end,
   nullid,
   match renamed with Some r => r.1 | None => "" end).

(** The state once the conduit has answered: the call is announced, the
    request logged, and the store is [st]. *)
Definition after_conduit (path : string) (srcrev : Z) (st : Store) (s : @state Store)
    : @state Store :=
  {| st_self := st_self s;
     st_world :=
       {| w_store := st;
          w_trace := w_trace (st_world s)
                     ++ [EvFastlog path srcrev;
                         EvConduit (fbconduit_reponame repo)
                           (hex (cl_node (changelog repo) srcrev)) path] |} |}.

(** A hash that resolves to a commit without the file node for the
    path. *)
Definition no_hit (cl : changelog_t) (path : string) (fnode : pyfileid) (h : string) : Prop :=
  exists r, lookup_hash repo h = Some r /\
            _nodefromancrev r cl (manifestlog repo) path fnode = None.

End MoreVocabulary.

(** ** [renamed], [ancestors] and the conduit module *)

Section RemoteMore.

Context {Store : Type}.

Variable filelog_ancestormap :
  string -> pyfileid -> Store -> result ancmap * Store.
Variable fileservice_prefetch :
  list (string * string) -> bool -> Store -> result unit * Store.
Variable call_conduit :
  string -> string -> string -> Store -> result (option (list string)) * Store.

Variable repo : repo_t.

(** The manifests of the parents of the changeset of a revision,
    [[p._manifest for p in repo[r].parents()]], when the repository has
    the revision. *)
Variable changectx_parents : pyrev -> result (list (gmap string string)).

#[local] Abbreviation ancestormap := (ancestormap filelog_ancestormap) (only parsing).
#[local] Abbreviation linkrev := (linkrev filelog_ancestormap repo) (only parsing).
#[local] Abbreviation rev :=
  (rev filelog_ancestormap fileservice_prefetch call_conduit repo) (only parsing).
#[local] Abbreviation parents :=
  (parents filelog_ancestormap fileservice_prefetch call_conduit repo) (only parsing).

(** [self._changectx] of the base class, a [propertycache] built from
    [self._changeid]; the value is the revision of the changeset. *)
Definition changectx : M (@state Store) pyrev :=
  self <- gets st_self;;
  match _changectx self with
  | Some r => ret r
  | None =>
      r <- rev;;
      update_self (fun c => set_changectx c r);;;
      ret r
  end.

(** [fnode == p.filenode(name)] of line 155 for the parent with
    manifest [pm]; [p.filenode] raises [LookupError] when the manifest
    does not list the file, which line 157 takes as no match. *)
Definition parent_has (name : string) (fnode : pyfileid) (pm : gmap string string) : bool :=
  match pm !! name with
  | Some n => bool_decide (fnode = FidStr n)
  | None => false
  end.

(** [renamed()], lines 135-160. On a working-copy context the method
    of [workingfilectx] comes first in the resolution order. *)
Definition renamed : M (@state Store) (option (string * string)) :=
  self <- gets st_self;;
  match kind self with
  | Working _ renamed => ret renamed
  | Committed =>
      m <- ancestormap;;
      self <- gets st_self;;
      e <- getitem m (_fileid self);;
      let '(p1, _, _, copyfrom) := e in
      if String.eqb copyfrom "" then ret None
      else
        r <- rev;;
        l <- linkrev;;
        if bool_decide (r = l) then ret (Some (copyfrom, p1))
        else
          self <- gets st_self;;
          cr <- changectx;;
          pms <- lift (changectx_parents cr);;
          if existsb (parent_has (_path self) (_fileid self)) pms then ret None
          else ret (Some (copyfrom, p1))
  end.

(** The local variables of the loop of [ancestors]. The right end of
    the deque [queue] is the head of the list. *)
Record ancestors_vars := {
  anc_list : list remotefilectx;
  anc_seen : gset pyfileid;
  anc_queue : list remotefilectx
}.

(** One turn of the [while queue] loop, lines 383-397, on the context
    [current] just popped; [v] holds the variables after the pop. The
    list [ancestors] holds the object [current], so the entry is the
    context as [parents()] left it. *)
Definition ancestors_step (followfirst : bool) (current : remotefilectx)
    (v : ancestors_vars) : M (@world Store) ancestors_vars :=
  if bool_decide (_fileid current ∈ anc_seen v) then ret v
  else
    r <- on current parents;;
    let '(ps, current') := r in
    let queued := if followfirst then take 1 ps else ps in
    ret {| anc_list := anc_list v ++ [current'];
           anc_seen := {[_fileid current]} ∪ anc_seen v;
           anc_queue := reverse queued ++ anc_queue v |}.

(** The loop after at most [n] turns. *)
Fixpoint ancestors_loop (n : nat) (followfirst : bool) (v : ancestors_vars)
    : M (@world Store) ancestors_vars :=
  match n with
  | O => ret v
  | S k =>
      match anc_queue v with
      | [] => ret v
      | current :: q =>
          v <- ancestors_step followfirst current
                 {| anc_list := anc_list v; anc_seen := anc_seen v; anc_queue := q |};;
          ancestors_loop k followfirst v
      end
  end.

(** Lines 380-397: the variables after at most [n] turns. *)
Definition ancestors_walk (n : nat) (self : remotefilectx) (followfirst : bool)
    : M (@world Store) ancestors_vars :=
  ancestors_loop n followfirst {| anc_list := []; anc_seen := ∅; anc_queue := [self] |}.

(** [a < b] on the values of [linkrev()], as Python 2 orders them:
    [None] is below every int. *)
Definition pyrev_ltb (a b : pyrev) : bool :=
  match a, b with
  | None, Some _ => true
  | Some x, Some y => x <? y
  | _, None => false
  end.

(** The keys of [sorted], computed once per element, in the order of
    the list; each context comes back as [linkrev()] left it. *)
Fixpoint with_linkrevs (l : list remotefilectx)
    : M (@world Store) (list (pyrev * remotefilectx)) :=
  match l with
  | [] => ret []
  | c :: rest =>
      r <- on c linkrev;;
      keyed <- with_linkrevs rest;;
      ret (r :: keyed)
  end.

(** [sorted(..., reverse=True, key=...)] is the stable sort by
    decreasing key: elements with equal keys keep their order. Here by
    insertion from the right. *)
Fixpoint insert_desc (x : pyrev * remotefilectx) (l : list (pyrev * remotefilectx))
    : list (pyrev * remotefilectx) :=
  match l with
  | [] => [x]
  | y :: l' =>
      if pyrev_ltb x.1 y.1 then y :: insert_desc x l' else x :: y :: l'
  end.

Definition sorted_desc (l : list (pyrev * remotefilectx)) : list (pyrev * remotefilectx) :=
  foldr insert_desc [] l.

(** [ancestors(followfirst)], lines 379-406, with the loop cut after
    [n] turns: the value is [None] when the queue is not yet empty
    then, and otherwise the contexts the generator yields, in order.
    The body of the generator runs up to the first [yield] as a whole,
    on the first [next()]. *)
Definition ancestors (n : nat) (self : remotefilectx) (followfirst : bool)
    : M (@world Store) (option (list remotefilectx)) :=
  v <- ancestors_walk n self followfirst;;
  match anc_queue v with
  | _ :: _ => ret None
  | [] =>
      match anc_list v with
      | [] => raise IndexError
      | _ :: l =>
          keyed <- with_linkrevs l;;
          ret (Some (map snd (sorted_desc keyed)))
      end
  end.

End RemoteMore.

(** The conduit module as [createconduit] probes it: whether it has
    the attribute [conduit_config], and whether [conduit_config(ui)]
    answers a true value. *)
Record conduit_module := {
  has_conduit_config : bool;
  conduit_config_ok : bool
}.

(** What [extensions.find("fbconduit")] and the import of
    [hgext3rd.fbconduit] give; [None] stands for the [KeyError] of the
    first and the [ImportError] of the second. *)
Record conduit_env := {
  ext_find : option conduit_module;
  ext_import : option conduit_module
}.

(** The module global [conduit]: [None], [False] or a module. *)
Inductive conduit_global :=
| ConduitUnset
| ConduitFalse
| ConduitModule (c : conduit_module).

(** The global and what [ui.log] has been given. *)
Record conduit_state := {
  cs_global : conduit_global;
  cs_log : list event
}.

Definition ui_log (service msg : string) : M conduit_state unit :=
  modify (fun s => {| cs_global := cs_global s;
                      cs_log := cs_log s ++ [EvLog service msg] |}).

(** [createconduit(ui)], lines 17-35; the value [None] stands for
    [False]. *)
Definition createconduit (env : conduit_env) : M conduit_state (option conduit_module) :=
  found <- match ext_find env with
           | Some c => ret (Some c)
           | None =>
               match ext_import env with
               | Some c => ret (Some c)
               | None =>
                   ui_log "linkrevfixup" "unable to find fbconduit extension";;;
                   ret None
               end
           end;;
  match found with
  | None => ret None
  | Some c =>
      if negb (has_conduit_config c) then
        ui_log "linkrevfixup" "incompatible conduit module; disabling fastlog";;;
        ret None
      else if negb (conduit_config_ok c) then
        ui_log "linkrevfixup" "no conduit host specified in config; disabling fastlog";;;
        ret None
      else ret (Some c)
  end.

(** The getter of the property [_conduit], lines 51-60. *)
Definition _conduit (env : conduit_env) : M conduit_state (option conduit_module) :=
  g <- gets cs_global;;
  (match g with
   | ConduitUnset =>
       r <- createconduit env;;
       modify (fun s => {| cs_global := match r with
                                         | Some c => ConduitModule c
                                         | None => ConduitFalse
                                         end;
                           cs_log := cs_log s |})
   | _ => ret tt
   end);;;
  g <- gets cs_global;;
  match g with
  | ConduitModule c => ret (Some c)
  | _ => ret None
  end.

(** ** A small repository to run the methods on

    The linear history [A -> B -> C] (revisions 0, 1, 2; [A] and [B]
    public, [C] draft). The file [f] is introduced at [A] with content
    [h1] and touched again at [C] with content [h2]; [B] only touches
    [g]. The nodes [X] and [Y] are commits this repository does not
    have, and [h3] is a content no manifest lists. *)
Module Example.

Definition node_of (c : ascii) : string := replicate_ascii 20 c.

Definition cA : string := node_of "A".
Definition cB : string := node_of "B".
Definition cC : string := node_of "C".
Definition cX : string := node_of "X".
Definition cY : string := node_of "Y".
Definition h1 : string := node_of "1".
Definition h2 : string := node_of "2".
Definition h3 : string := node_of "3".
Definition g1 : string := node_of "7".
Definition mA : string := node_of "a".
Definition mB : string := node_of "b".
Definition mC : string := node_of "c".

Definition ex_changelog : changelog_t :=
  {| cl_len := 3;
     cl_node := fun r =>
       if r =? 0 then cA else if r =? 1 then cB else if r =? 2 then cC else nullid;
     cl_rev := fun n =>
       if String.eqb n cA then Some 0
       else if String.eqb n cB then Some 1
       else if String.eqb n cC then Some 2
       else None;
     cl_isancestorrev := fun a b => a <=? b;
     cl_ancestors := fun revs inclusive =>
       let top := foldr Z.max (-1) revs in
       range_down (if inclusive then top else top - 1) (-1);
     cl_read := fun r =>
       if r =? 0 then (mA, ["f"])
       else if r =? 1 then (mB, ["g"])
       else (mC, ["f"]) |}.

Definition ex_manifestlog (mnode : string) : gmap string string :=
  if String.eqb mnode mA then {[ "f" := h1 ]}
  else if String.eqb mnode mB then {[ "f" := h1; "g" := g1 ]}
  else if String.eqb mnode mC then {[ "f" := h2; "g" := g1 ]}
  else ∅.

Definition ex_repo : repo_t :=
  {| changelog := ex_changelog;
     unfiltered_changelog := ex_changelog;
     manifestlog := ex_manifestlog;
     phasecache := fun r => if r <=? 1 then public else draft;
     fastlog_enabled := false;
     fbconduit_reponame := "repo";
     have_conduit := false;
     lookup_hash := fun _ => None;
     wdir_parents := [2] |}.

(** The same repository with a single commit, [A]. *)
Definition ex_changelog1 : changelog_t :=
  {| cl_len := 1;
     cl_node := fun r => if r =? 0 then cA else nullid;
     cl_rev := fun n => if String.eqb n cA then Some 0 else None;
     cl_isancestorrev := fun a b => a <=? b;
     cl_ancestors := fun revs inclusive =>
       let top := foldr Z.max (-1) revs in
       range_down (if inclusive then top else top - 1) (-1);
     cl_read := fun r => (mA, ["f"]) |}.

Definition ex_repo1 : repo_t :=
  {| changelog := ex_changelog1;
     unfiltered_changelog := ex_changelog1;
     manifestlog := ex_manifestlog;
     phasecache := fun r => public;
     fastlog_enabled := false;
     fbconduit_reponame := "repo";
     have_conduit := false;
     lookup_hash := fun _ => None;
     wdir_parents := [0] |}.

(** The file store: its state counts the forced prefetches done. The
    local blobs of [h1] and [h3] carry the foreign linknode [X]; what
    a forced prefetch downloads carries [link]. *)
Definition ex_map (l : string) : ancmap :=
  {[ FidStr h1 := (nullid, nullid, l, "");
     FidStr h2 := (h1, nullid, cC, "");
     FidStr h3 := (nullid, nullid, l, "") ]}.

Definition ex_ancestormap (link : string) (path : string) (node : pyfileid) (st : nat)
    : result ancmap * nat :=
  (Ok (ex_map (if Nat.eqb st 0 then cX else link)), st).

Definition ex_prefetch (files : list (string * string)) (force : bool) (st : nat)
    : result unit * nat :=
  (Ok tt, if force then S st else st).

(** A file service that cannot reach the server. *)
Definition ex_prefetch_fails (files : list (string * string)) (force : bool) (st : nat)
    : result unit * nat :=
  (Raise (StoreError "connection refused"), st).

Definition ex_conduit (reponame srchex path : string) (st : nat)
    : result (option (list string)) * nat :=
  (Ok None, st).

(** A context of [path] at file node [fnode], built by
    [remotefilectx(repo, path, changeid=changeid, fileid=fnode)]. *)
Definition ex_ctx (path : string) (fnode : string) (changeid : pyrev)
    (amap : option ancmap) : remotefilectx :=
  {| _path := path; _fileid := FidStr fnode;
     _changeid := match changeid with Some r => Some (Some r) | None => None end;
     _changectx := None; _descendantrev := None; _linkrev_cached := None;
     _ancestormap := amap; kind := Committed |}.

Definition ex_world : @world nat := {| w_store := 0%nat; w_trace := [] |}.

Definition ex_state (c : remotefilectx) : @state nat :=
  {| st_self := c; st_world := ex_world |}.

(** A file store that knows, of every file node, only the node itself. *)
Definition ex_ancestormap_root (path : string) (node : pyfileid) (st : nat)
    : result ancmap * nat :=
  (Ok {[ node := (nullid, nullid, cA, "") ]}, st).

(** [f] at [h1], [h2] and [h3], with no map cached. *)
Definition f_h1 : remotefilectx := ex_ctx "f" h1 None None.
Definition f_h2 : remotefilectx := ex_ctx "f" h2 (Some 2) None.
Definition f_h3 : remotefilectx := ex_ctx "f" h3 None None.

(** [f] at [h1] with a map whose linknode is the commit [A]. *)
Definition f_h1_linked : remotefilectx := ex_ctx "f" h1 None (Some (ex_map cA)).

(** [f] and the new file [n] in the working copy on top of [C]. *)
Definition f_wdir : remotefilectx :=
  new_remoteworkingfilectx "f" [ex_manifestlog mC] None.
Definition n_wdir : remotefilectx :=
  new_remoteworkingfilectx "n" [ex_manifestlog mC] None.

End Example.

(** ** More repositories and stores

    Variants of the small repository, a file [f] with a merge in its
    history, a store whose map is a cycle, and a copy. *)
Module Cases.

Import Example.

(** The repository [A -> B -> C] with no public commit. *)
Definition ex_repo_draft : repo_t :=
  {| changelog := ex_changelog;
     unfiltered_changelog := ex_changelog;
     manifestlog := ex_manifestlog;
     phasecache := fun r => draft;
     fastlog_enabled := false;
     fbconduit_reponame := "repo";
     have_conduit := false;
     lookup_hash := fun _ => None;
     wdir_parents := [2] |}.

(** The repository with a working directory that has no parent. *)
Definition ex_repo_bare : repo_t :=
  {| changelog := ex_changelog;
     unfiltered_changelog := ex_changelog;
     manifestlog := ex_manifestlog;
     phasecache := fun r => if r <=? 1 then public else draft;
     fastlog_enabled := false;
     fbconduit_reponame := "repo";
     have_conduit := false;
     lookup_hash := fun _ => None;
     wdir_parents := [] |}.

(** The repository with a conduit: the hash [hashA] names the commit
    [A], [hashB] the commit [B]. *)
Definition ex_repo_conduit : repo_t :=
  {| changelog := ex_changelog;
     unfiltered_changelog := ex_changelog;
     manifestlog := ex_manifestlog;
     phasecache := fun r => if r <=? 1 then public else draft;
     fastlog_enabled := true;
     fbconduit_reponame := "repo";
     have_conduit := true;
     lookup_hash := fun h =>
       if String.eqb h "hashA" then Some 0
       else if String.eqb h "hashB" then Some 1
       else None;
     wdir_parents := [2] |}.

(** A conduit that lists [B], [A] and a hash the repository does not
    have. *)
Definition ex_conduit_lists (reponame srchex path : string) (st : nat)
    : result (option (list string)) * nat :=
  (Ok (Some ["hashB"; "hashA"; "unknown"]), st).

(** A file store that has lost its blobs. *)
Definition ex_store_fails (path : string) (node : pyfileid) (st : nat)
    : result ancmap * nat :=
  (Raise (StoreError "no such blob"), st).

(** A file store that answers until the first forced prefetch. *)
Definition ex_store_once (path : string) (node : pyfileid) (st : nat)
    : result ancmap * nat :=
  if Nat.eqb st 0 then (Ok (ex_map cX), st)
  else (Raise (StoreError "no such blob"), st).

(** [f] as of a merge: [h2] has the parents [h1] and [h3]; [h1] was
    introduced by [B] and [h3] by [A]. *)
Definition merge_map : ancmap :=
  {[ FidStr h2 := (h1, h3, cC, "");
     FidStr h1 := (nullid, nullid, cB, "");
     FidStr h3 := (nullid, nullid, cA, "") ]}.

Definition merge_store (path : string) (node : pyfileid) (st : nat)
    : result ancmap * nat :=
  (Ok merge_map, st).

(** A map with a cycle: [h1] and [h2] are each the first parent of the
    other. *)
Definition cycle_map : ancmap :=
  {[ FidStr h1 := (h2, nullid, cA, "");
     FidStr h2 := (h1, nullid, cC, "") ]}.

Definition cycle_store (path : string) (node : pyfileid) (st : nat)
    : result ancmap * nat :=
  (Ok cycle_map, st).

(** [f] at [h2] recorded as a copy of [g] at [g1], linked to [A]. *)
Definition copy_map : ancmap :=
  {[ FidStr h2 := (g1, nullid, cA, "g") ]}.

Definition copy_store (path : string) (node : pyfileid) (st : nat)
    : result ancmap * nat :=
  (Ok copy_map, st).

(** The manifests of the parents of the three changesets. *)
Definition ex_parents (r : pyrev) : result (list (gmap string string)) :=
  match r with
  | Some 0 => Ok []
  | Some 1 => Ok [ex_manifestlog mA]
  | Some 2 => Ok [ex_manifestlog mB]
  | _ => Raise LookupError
  end.

(** The context [parents()] and [ancestors()] build for [f] at [fnode],
    below revision 2, once its linkrev [lr] is computed. *)
Definition f_below (fnode : string) (m : ancmap) (lr : option pyrev) : remotefilectx :=
  {| _path := "f"; _fileid := FidStr fnode; _changeid := None; _changectx := None;
     _descendantrev := Some (Some 2); _linkrev_cached := lr;
     _ancestormap := Some m; kind := Committed |}.

End Cases.

(** * Facts *)

(** ** Round trip of [hex] and [bin] *)

Lemma unhex_hexdigit (c : ascii) :
  unhexdigit (hexdigit (N_of_ascii c / 16)) = Some (N_of_ascii c / 16)%N /\
  unhexdigit (hexdigit (N_of_ascii c mod 16)) = Some (N_of_ascii c mod 16)%N.
Proof.
  destruct c as [[] [] [] [] [] [] [] []]; split; vm_compute; reflexivity.
Qed.

Lemma bin_hex (s : string) : bin (hex s) = Ok s.
Proof.
  induction s as [|c r IH]; [reflexivity|].
  cbn [hex bin].
  destruct (unhex_hexdigit c) as [-> ->].
  rewrite IH. f_equal.
  rewrite <- (ascii_N_embedding c) at 3. f_equal. f_equal.
  rewrite N.mul_comm. symmetry. rewrite N.add_comm, N.mul_comm.
  rewrite N.add_comm. apply N.div_mod. discriminate.
Qed.

Lemma hex_length (s : string) : String.length (hex s) = (2 * String.length s)%nat.
Proof. induction s as [|c r IH]; simpl; [reflexivity|]. rewrite IH. lia. Qed.

Lemma hex_inj (s t : string) : hex s = hex t -> s = t.
Proof.
  intros H. assert (E : bin (hex s) = bin (hex t)) by (now rewrite H).
  rewrite !bin_hex in E. now inversion E.
Qed.

Lemma nullid_length : String.length nullid = 20%nat.
Proof. reflexivity. Qed.

(** ** Facts about the methods *)

Ltac munfold :=
  unfold bind, ret, raise, gets, modify, try_except, lift, emit, call,
    in_world, emit_w, call_w, update_self in *.

Create HintDb emits.

Section RemoteFacts.

Context {Store : Type}.
Variable filelog_ancestormap :
  string -> pyfileid -> Store -> result ancmap * Store.
Variable fileservice_prefetch :
  list (string * string) -> bool -> Store -> result unit * Store.
Variable call_conduit :
  string -> string -> string -> Store -> result (option (list string)) * Store.
Variable repo : repo_t.

Implicit Types (s : @state Store) (d : list event).

#[local] Abbreviation emits_only := (@emits_only Store) (only parsing).
#[local] Abbreviation keeps_file := (@keeps_file Store) (only parsing).

Lemma add_trace_nil s : add_trace s [] = s.
Proof.
  destruct s as [c [st tr]]. unfold add_trace. simpl. now rewrite app_nil_r.
Qed.

Lemma add_trace_app s d1 d2 :
  add_trace (add_trace s d1) d2 = add_trace s (d1 ++ d2).
Proof. unfold add_trace. simpl. now rewrite app_assoc. Qed.

Lemma emit_eq (e : event) s : emit e s = (Ok tt, add_trace s [e]).
Proof. reflexivity. Qed.

(** The generator expression of [_verifylinknode] only asks the commit
    graph, and ends with a boolean or a [LookupError]. *)
Lemma any_isancestor_frame cl linknode revs s :
  exists r d,
    any_isancestor cl linknode revs s = (r, add_trace s d) /\
    Forall is_isancestor_event d /\
    (revs = [] -> d = []) /\
    ((exists b, r = Ok b) \/ r = Raise LookupError).
Proof.
  revert s. induction revs as [|r0 rest IH]; intros s.
  - exists (Ok false), []. rewrite add_trace_nil. simpl. eauto 6.
  - cbn [any_isancestor]. unfold bind at 1. rewrite emit_eq.
    unfold bind, lift. unfold cl_isancestor.
    destruct (cl_rev cl linknode) as [ra|].
    2:{ exists (Raise LookupError), [EvIsAncestor linknode (cl_node cl r0)].
        repeat split; auto. repeat constructor. discriminate. }
    destruct (cl_rev cl (cl_node cl r0)) as [rb|].
    2:{ exists (Raise LookupError), [EvIsAncestor linknode (cl_node cl r0)].
        repeat split; auto. repeat constructor. discriminate. }
    destruct (cl_isancestorrev cl ra rb).
    + exists (Ok true), [EvIsAncestor linknode (cl_node cl r0)].
      repeat split; eauto. repeat constructor. discriminate.
    + destruct (IH (add_trace s [EvIsAncestor linknode (cl_node cl r0)]))
        as (r & d & E & F & _ & C).
      exists r, (EvIsAncestor linknode (cl_node cl r0) :: d).
      rewrite E, add_trace_app. repeat split; auto.
      * constructor; [exact I|exact F].
      * discriminate.
Qed.

(** [_verifylinknode] always answers with a boolean, and leaves the
    context and the store as they were. *)
Lemma verifylinknode_frame revs linknode s :
  exists b d,
    _verifylinknode repo revs linknode s = (Ok b, add_trace s d) /\
    Forall is_isancestor_event d /\
    (revs = [] -> b = false /\ d = []).
Proof.
  destruct revs as [|r0 rest].
  - exists false, []. rewrite add_trace_nil. repeat split; auto.
  - unfold _verifylinknode, try_except.
    destruct (any_isancestor_frame (changelog repo) linknode (r0 :: rest) s)
      as (r & d & E & F & _ & C).
    rewrite E. destruct C as [[b ->]| ->].
    + exists b, d. repeat split; auto; discriminate.
    + exists false, d. repeat split; auto; discriminate.
Qed.

(** A linknode the commit graph cannot resolve fails verification. *)
Lemma verifylinknode_unresolved revs linknode s :
  cl_rev (changelog repo) linknode = None ->
  exists d, _verifylinknode repo revs linknode s = (Ok false, add_trace s d).
Proof.
  intros Hnone. destruct revs as [|r0 rest].
  - exists []. now rewrite add_trace_nil.
  - unfold _verifylinknode, try_except. cbn [any_isancestor].
    unfold bind at 1. rewrite emit_eq. unfold bind, lift, cl_isancestor.
    rewrite Hnone. eexists. reflexivity.
Qed.

(** C4. If the node map does not resolve the linknode, [_verifylinknode]
    returns [False]; whatever the revisions and the linknode, it ends
    with a boolean and never with an exception; and for an empty list
    of revisions it returns [False] with no call to the commit graph:
    the state, trace included, is unchanged. *)
Theorem verifylinknode_lookup_failure (revs : list Z) (linknode : string) s :
  (cl_rev (changelog repo) linknode = None ->
   exists s', _verifylinknode repo revs linknode s = (Ok false, s')) /\
  (exists b s', _verifylinknode repo revs linknode s = (Ok b, s')) /\
  _verifylinknode repo [] linknode s = (Ok false, s).
Proof.
  split; [|split].
  - intros H. destruct (verifylinknode_unresolved revs linknode s H) as [d E].
    eauto.
  - destruct (verifylinknode_frame revs linknode s) as (b & d & E & _).
    eauto.
  - reflexivity.
Qed.

(** *** Which events a computation may add to the trace *)

Lemma emits_only_ret {A} P (a : A) : emits_only P (ret a).
Proof.
  intros s r s' E. inversion E; subst. exists []. now rewrite app_nil_r.
Qed.

Lemma emits_only_raise {A} P e : emits_only P (@raise _ A e).
Proof.
  intros s r s' E. inversion E; subst. exists []. now rewrite app_nil_r.
Qed.

Lemma emits_only_lift {A} P (x : result A) : emits_only P (lift x).
Proof.
  intros s r s' E. inversion E; subst. exists []. now rewrite app_nil_r.
Qed.

Lemma emits_only_gets {A} P (f : state -> A) : emits_only P (gets f).
Proof.
  intros s r s' E. inversion E; subst. exists []. now rewrite app_nil_r.
Qed.

Lemma emits_only_update_self P f : emits_only P (update_self f).
Proof.
  intros s r s' E. inversion E; subst. exists []. simpl. now rewrite app_nil_r.
Qed.

Lemma emits_only_emit P e : P e -> emits_only P (emit e).
Proof.
  intros H s r s' E. inversion E; subst. exists [e]. simpl. auto.
Qed.

Lemma emits_only_call {A} P (f : Store -> result A * Store) : emits_only P (call f).
Proof.
  intros s r s' E. munfold. destruct (f (w_store (st_world s))) as [x st].
  inversion E; subst. exists []. simpl. now rewrite app_nil_r.
Qed.

Lemma emits_only_bind {A B} P (m : M state A) (k : A -> M state B) :
  emits_only P m -> (forall a, emits_only P (k a)) -> emits_only P (bind m k).
Proof.
  intros Hm Hk s r s' E. unfold bind in E.
  destruct (m s) as [[a|e] s1] eqn:Em.
  - destruct (Hm _ _ _ Em) as (d1 & E1 & F1).
    destruct (Hk a _ _ _ E) as (d2 & E2 & F2).
    exists (d1 ++ d2). rewrite E2, E1, app_assoc. split; [easy|].
    now apply Forall_app.
  - inversion E; subst. eauto.
Qed.

Lemma emits_only_try_except {A} P (m : M state A) (h : exn -> M state A) :
  emits_only P m -> (forall e, emits_only P (h e)) -> emits_only P (try_except m h).
Proof.
  intros Hm Hh s r s' E. unfold try_except in E.
  destruct (m s) as [[a|e] s1] eqn:Em.
  - inversion E; subst. eauto.
  - destruct (Hm _ _ _ Em) as (d1 & E1 & F1).
    destruct (Hh e _ _ _ E) as (d2 & E2 & F2).
    exists (d1 ++ d2). rewrite E2, E1, app_assoc. split; [easy|].
    now apply Forall_app.
Qed.

Lemma emits_only_weaken {A} (P Q : event -> Prop) (m : M state A) :
  (forall e, P e -> Q e) -> emits_only P m -> emits_only Q m.
Proof.
  intros HPQ Hm s r s' E. destruct (Hm _ _ _ E) as (d & E1 & F).
  exists d. split; [easy|]. eapply Forall_impl; eauto.
Qed.

#[local] Hint Resolve emits_only_ret emits_only_raise emits_only_lift emits_only_gets
  emits_only_update_self emits_only_call : emits.

Ltac emits_step :=
  first
    [ apply emits_only_bind; [|intros ?]
    | apply emits_only_try_except; [|intros ?]
    | apply emits_only_emit; simpl; solve [auto | discriminate]
    | solve [auto with emits] ].

Lemma emits_only_fetch_ancestormap P path node :
  (forall p n, P (EvFetchAncestormap p n)) ->
  emits_only P (fetch_ancestormap filelog_ancestormap path node).
Proof.
  intros HP. unfold fetch_ancestormap.
  apply emits_only_bind; [apply emits_only_emit, HP|intros _].
  apply emits_only_call.
Qed.

Lemma emits_only_update_from_parent P p m :
  (forall p n, P (EvFetchAncestormap p n)) ->
  emits_only P (update_from_parent filelog_ancestormap p m).
Proof.
  intros HP. unfold update_from_parent. case_bool_decide; [|auto with emits].
  repeat emits_step.
Qed.

(** [ancestormap()] adds nothing to the trace but requests for
    ancestor maps. *)
Lemma emits_only_ancestormap P :
  (forall p n, P (EvFetchAncestormap p n)) ->
  emits_only P (ancestormap filelog_ancestormap).
Proof.
  intros HP. unfold ancestormap.
  apply emits_only_bind; [auto with emits|intros self].
  destruct (ancestormap_truthy _); [auto with emits|].
  apply emits_only_bind; [|intros m; repeat emits_step].
  destruct (kind self) as [|pcl renamed].
  - now apply emits_only_fetch_ancestormap.
  - unfold working_ancestormap.
    apply emits_only_bind.
    { destruct renamed; [auto with emits|]. destruct pcl; auto with emits. }
    intros p1. apply emits_only_bind; [now apply emits_only_update_from_parent|].
    intros m1. apply emits_only_bind; [now apply emits_only_update_from_parent|].
    intros m2. auto with emits.
Qed.

Lemma emits_only_verifylinknode P revs linknode :
  (forall a b, P (EvIsAncestor a b)) ->
  emits_only P (_verifylinknode repo revs linknode).
Proof.
  intros HP s r s' E.
  destruct (verifylinknode_frame revs linknode s) as (b & d & E' & F & _).
  rewrite E' in E. inversion E; subst. exists d. split; [reflexivity|].
  eapply Forall_impl; [exact F|]. intros [] H; try contradiction. apply HP.
Qed.

(** *** Verification of a linknode that is an ancestor of a target *)

Lemma any_isancestor_true cl linknode revs s :
  known_revs cl revs -> ancestor_of_any cl linknode revs ->
  exists d, any_isancestor cl linknode revs s = (Ok true, add_trace s d) /\
            Forall is_isancestor_event d.
Proof.
  revert s. induction revs as [|r0 rest IH]; intros s Hk Hex.
  - inversion Hex.
  - cbn [any_isancestor]. unfold bind at 1. rewrite emit_eq. unfold bind, lift.
    inversion Hk as [|? ? [rb Hrb] Hk']; subst.
    assert (exists ra, cl_rev cl linknode = Some ra) as [ra Hra].
    { apply Exists_exists in Hex as (r & _ & Hr). unfold cl_isancestor in Hr.
      destruct (cl_rev cl linknode); [eauto|discriminate]. }
    destruct (cl_isancestor cl linknode (cl_node cl r0)) as [[|]|e] eqn:E0.
    + eexists. split; [reflexivity|]. repeat constructor.
    + inversion Hex as [? ? H0|? ? Hrest]; subst; [congruence|].
      destruct (IH (add_trace s [EvIsAncestor linknode (cl_node cl r0)]) Hk' Hrest)
        as (d & E & F).
      rewrite E, add_trace_app. eexists. split; [reflexivity|].
      constructor; [exact I|exact F].
    + unfold cl_isancestor in E0. rewrite Hra, Hrb in E0. discriminate.
Qed.

Lemma verifylinknode_true revs linknode s :
  known_revs (changelog repo) revs ->
  ancestor_of_any (changelog repo) linknode revs ->
  exists d, _verifylinknode repo revs linknode s = (Ok true, add_trace s d) /\
            Forall is_isancestor_event d.
Proof.
  intros Hk Hex. destruct revs as [|r0 rest]; [inversion Hex|].
  destruct (any_isancestor_true (changelog repo) linknode (r0 :: rest) s Hk Hex)
    as (d & E & F).
  unfold _verifylinknode, try_except. rewrite E. eauto.
Qed.

(** C1. Let [e] be the entry of the ancestor map for the file node, as
    [ancestormap()] hands it out at the start of [_adjustlinknode]. If
    its linknode is an ancestor of, or equal to, at least one target
    revision (the targets being revisions of the changelog), then
    [_adjustlinknode] returns exactly that linknode; after reading the
    map it leaves the context and the store untouched and only asks
    the commit graph for ancestry; and over the whole call the trace
    gains no ancestor traversal, no fastlog call and no prefetch. *)
Theorem adjustlinknode_trusted_linknode
    (path : string) (fnode : pyfileid) (srcrev : pyrev) (inclusive : bool)
    s (m : ancmap) s1 (e : ancentry) :
  ancestormap filelog_ancestormap s = (Ok m, s1) ->
  m !! fnode = Some e ->
  known_revs (changelog repo) (target_revs repo srcrev) ->
  ancestor_of_any (changelog repo) (linknode_of e) (target_revs repo srcrev) ->
  exists d1 d2,
    _adjustlinknode filelog_ancestormap fileservice_prefetch call_conduit repo
      path fnode srcrev inclusive s
    = (Ok (linknode_of e), add_trace s1 d2) /\
    Forall is_isancestor_event d2 /\
    w_trace (st_world s1) = w_trace (st_world s) ++ d1 /\
    Forall (fun ev => is_resolution_event ev = false) (d1 ++ d2).
Proof.
  intros Hm He Hk Hanc.
  destruct (emits_only_ancestormap is_fetch_event (fun _ _ => I) _ _ _ Hm)
    as (d1 & Hd1 & F1).
  destruct (verifylinknode_true (target_revs repo srcrev) (linknode_of e) s1 Hk Hanc)
    as (d2 & Hv & F2).
  exists d1, d2. split; [|split; [exact F2|split; [exact Hd1|]]].
  - unfold _adjustlinknode. unfold bind at 1. rewrite Hm.
    unfold bind at 1. unfold getitem. rewrite He. unfold ret at 1.
    unfold target_revs in Hv.
    destruct srcrev as [r|]; unfold bind at 1; rewrite Hv; reflexivity.
  - apply Forall_app. split.
    + eapply Forall_impl; [exact F1|]. now intros [].
    + eapply Forall_impl; [exact F2|]. now intros [].
Qed.

(** *** The traversal *)

Lemma count_app f d1 d2 : count f (d1 ++ d2) = (count f d1 + count f d2)%nat.
Proof. unfold count. now rewrite List.filter_app, List.length_app. Qed.

Lemma count_none f d : Forall (fun e => f e = false) d -> count f d = 0%nat.
Proof.
  unfold count. induction 1 as [|e d He _ IH]; [reflexivity|].
  simpl. now rewrite He.
Qed.

Lemma visited_app d1 d2 : visited (d1 ++ d2) = visited d1 ++ visited d2.
Proof.
  induction d1 as [|e d1 IH]; [reflexivity|].
  destruct e; simpl; rewrite IH; reflexivity.
Qed.

Lemma visited_none d : Forall (fun e => is_visit e = false) d -> visited d = [].
Proof.
  induction 1 as [|e d He _ IH]; [reflexivity|].
  destruct e; simpl in *; try exact IH. discriminate.
Qed.

Lemma fastlog_scan_pure l cl path fnode s :
  exists r, fastlog_scan repo l cl path fnode s = (r, s).
Proof.
  induction l as [|h rest IH]; simpl; [eexists; reflexivity|].
  destruct (lookup_hash repo h); [|eexists; reflexivity].
  destruct (_nodefromancrev _ _ _ _ _); [eexists; reflexivity|exact IH].
Qed.

(** [_linknodeviafastlog] always returns, leaves the context alone, and
    announces itself once. *)
Lemma linknodeviafastlog_spec path srcrev fnode cl s :
  exists hit s' d,
    _linknodeviafastlog call_conduit repo path srcrev fnode cl s = (Ok hit, s') /\
    st_self s' = st_self s /\
    w_trace (st_world s') = w_trace (st_world s) ++ EvFastlog path srcrev :: d /\
    Forall is_quiet d.
Proof.
  unfold _linknodeviafastlog. unfold bind at 1. rewrite emit_eq.
  destruct (have_conduit repo); simpl.
  2:{ exists None, (add_trace s [EvFastlog path srcrev]), [].
      repeat split; auto. }
  unfold try_except. unfold bind at 1. rewrite emit_eq.
  unfold bind at 1. unfold call, in_world, call_w. simpl.
  destruct (call_conduit _ _ _ _) as [[[l|]|e] st].
  - destruct (fastlog_scan_pure l cl path fnode
      {| st_self := st_self s;
         st_world := {| w_store := st;
                        w_trace := (w_trace (st_world s) ++ [EvFastlog path srcrev])
                                   ++ [EvConduit (fbconduit_reponame repo)
                                         (hex (cl_node (changelog repo) srcrev)) path] |} |})
      as [[hit|e] ->].
    + eexists _, _, _. split; [reflexivity|]. simpl.
      rewrite <- app_assoc. simpl. repeat split; eauto.
      repeat constructor.
    + unfold bind, emit, in_world, emit_w, modify, ret. simpl.
      eexists _, _, _. split; [reflexivity|]. simpl.
      rewrite <- !app_assoc. simpl. repeat split; eauto.
      repeat constructor.
  - unfold bind, emit, in_world, emit_w, modify, ret. simpl.
    eexists _, _, _. split; [reflexivity|]. simpl.
    rewrite <- !app_assoc. simpl. repeat split; eauto.
    repeat constructor.
  - unfold bind, emit, in_world, emit_w, modify, ret. simpl.
    eexists _, _, _. split; [reflexivity|]. simpl.
    rewrite <- !app_assoc. simpl. repeat split; eauto.
    repeat constructor.
Qed.

Lemma fastlog_attempt_spec path ancrev fnode cl s :
  exists hit s' d,
    fastlog_attempt call_conduit repo path ancrev fnode cl s = (Ok hit, s') /\
    st_self s' = st_self s /\
    w_trace (st_world s') = w_trace (st_world s) ++ d /\
    (count is_fastlog d <= 1)%nat /\
    Forall (fun e => is_prefetch e = false /\ is_visit e = false) d.
Proof.
  unfold fastlog_attempt. destruct (fastlog_enabled repo).
  - destruct (linknodeviafastlog_spec path ancrev fnode cl s)
      as (hit & s' & d & E & Hs & Ht & F).
    exists hit, s', (EvFastlog path ancrev :: d). repeat split; auto.
    + change (EvFastlog path ancrev :: d) with ([EvFastlog path ancrev] ++ d).
      rewrite count_app, (count_none is_fastlog d).
      * reflexivity.
      * eapply Forall_impl; [exact F|]. now intros e [? _].
    + constructor; [now split|].
      eapply Forall_impl; [exact F|]. now intros e (_ & ? & ?).
  - exists None, s, []. rewrite app_nil_r. repeat split; auto.
Qed.

Lemma bind_ok {A B} (m : M (@state Store) A) (k : A -> M state B) s a s1 :
  m s = (Ok a, s1) -> bind m k s = k a s1.
Proof. intros E. unfold bind. now rewrite E. Qed.

Lemma bind_raise {A B} (m : M (@state Store) A) (k : A -> M state B) s e s1 :
  m s = (Raise e, s1) -> bind m k s = (Raise e, s1).
Proof. intros E. unfold bind. now rewrite E. Qed.

Lemma try_ok {A} (m : M (@state Store) A) h s a s1 :
  m s = (Ok a, s1) -> try_except m h s = (Ok a, s1).
Proof. intros E. unfold try_except. now rewrite E. Qed.

Lemma try_raise {A} (m : M (@state Store) A) h s e s1 :
  m s = (Raise e, s1) -> try_except m h s = h e s1.
Proof. intros E. unfold try_except. now rewrite E. Qed.

Lemma bind_inv {A B} (m : M (@state Store) A) (k : A -> M state B) s b s' :
  bind m k s = (Ok b, s') ->
  exists a s1, m s = (Ok a, s1) /\ k a s1 = (Ok b, s').
Proof.
  unfold bind. destruct (m s) as [[a|e] s1]; [eauto|discriminate].
Qed.

(** After a successful [ancestormap()] the map returned is the one the
    context caches. *)
Lemma ancestormap_cached s m s' :
  ancestormap filelog_ancestormap s = (Ok m, s') ->
  _ancestormap (st_self s') = Some m.
Proof.
  unfold ancestormap. unfold bind at 1. unfold gets at 1.
  destruct (ancestormap_truthy (_ancestormap (st_self s))) eqn:Ht.
  - intros E. inversion E; subst.
    destruct (_ancestormap (st_self s')); [reflexivity|discriminate].
  - unfold bind at 1.
    match goal with
    | |- context [match ?f s with _ => _ end] =>
        destruct (f s) as [[m0|e] s0]; [|discriminate]
    end.
    intros E. inversion E; subst. reflexivity.
Qed.

(** The block of lines 304-320 always ends normally. It asks for at
    most one prefetch; its events are no fastlog call and no visit;
    and the linknode it leaves is the one it was given, or the one
    recorded for the file node in the map the context now caches. *)
Lemma refresh_linknode_spec path fnode revs linknode s :
  exists ln b s' d,
    refresh_linknode filelog_ancestormap fileservice_prefetch repo
      path fnode revs linknode s = (Ok (ln, b), s') /\
    w_trace (st_world s') = w_trace (st_world s) ++ d /\
    (count is_prefetch d <= 1)%nat /\
    Forall (fun e => is_fastlog e = false /\ is_visit e = false) d /\
    ((ln = linknode /\ b = false) \/
     (count is_prefetch d = 1%nat /\
      exists m' e', _ancestormap (st_self s') = Some m' /\
                    m' !! fnode = Some e' /\ ln = linknode_of e')).
Proof.
  unfold refresh_linknode.
  destruct fnode as [|z|n].
  1,2: (eexists _, _, _, [_]; split; [reflexivity|]; simpl;
        repeat split; auto; repeat constructor).
  set (stage1 := try_except _ _).
  assert (H1 : exists r s1 d1,
             stage1 s = (Ok r, s1) /\
             w_trace (st_world s1) = w_trace (st_world s) ++ EvPrefetch [(path, hex n)] true :: d1 /\
             Forall is_fetch_event d1 /\
             match r with
             | inl ln => exists m' e', _ancestormap (st_self s1) = Some m' /\
                           m' !! FidStr n = Some e' /\ ln = linknode_of e'
             | inr _ => True
             end).
  { subst stage1. unfold try_except, hex_py.
    unfold bind at 1. unfold ret at 1.
    unfold bind at 1. rewrite emit_eq.
    unfold bind at 1. unfold call, in_world, call_w. simpl.
    destruct (fileservice_prefetch _ _ _) as [[[]|e] st].
    2:{ eexists _, _, []. split; [reflexivity|]. simpl. auto. }
    unfold bind at 1. unfold update_self, modify. simpl.
    match goal with
    | |- context [bind (ancestormap _) _ ?s0] =>
        destruct (ancestormap filelog_ancestormap s0) as [[m|e] sB] eqn:Em;
        [rewrite (bind_ok _ _ _ _ _ Em)|rewrite (bind_raise _ _ _ _ _ Em)];
        destruct (emits_only_ancestormap is_fetch_event (fun _ _ => I) _ _ _ Em)
          as (dm & Hdm & Fm)
    end.
    2:{ eexists _, _, dm. split; [reflexivity|]. simpl in Hdm.
        rewrite Hdm, <- app_assoc. auto. }
    unfold bind, getitem. destruct (m !! FidStr n) as [e'|] eqn:He'.
    - eexists _, _, dm. split; [reflexivity|]. simpl in Hdm.
      rewrite Hdm, <- app_assoc. repeat split; auto.
      exists m, e'. repeat split; auto. eapply ancestormap_cached; eauto.
    - eexists _, _, dm. split; [reflexivity|]. simpl in Hdm.
      rewrite Hdm, <- app_assoc. auto. }
  destruct H1 as (r & s1 & d1 & E1 & Ht1 & F1 & Hr).
  rewrite (bind_ok _ _ _ _ _ E1).
  assert (Fq : Forall (fun e => is_fastlog e = false /\ is_visit e = false) d1).
  { eapply Forall_impl; [exact F1|]. now intros []. }
  assert (Fp : count is_prefetch d1 = 0%nat).
  { apply count_none. eapply Forall_impl; [exact F1|]. now intros []. }
  destruct r as [ln|e].
  - destruct (verifylinknode_frame revs ln s1) as (b & dv & Ev & Fv & _).
    rewrite (try_ok _ _ _ _ _ (bind_ok _ _ _ _ _ Ev)).
    exists ln, b, (add_trace s1 dv), (EvPrefetch [(path, hex n)] true :: d1 ++ dv).
    split; [reflexivity|]. simpl. rewrite Ht1, <- app_assoc. simpl.
    repeat split.
    + change (EvPrefetch [(path, hex n)] true :: d1 ++ dv)
        with ([EvPrefetch [(path, hex n)] true] ++ d1 ++ dv).
      rewrite !count_app, Fp, (count_none is_prefetch dv); [unfold count; simpl; lia|].
      eapply Forall_impl; [exact Fv|]. now intros [].
    + constructor; [now split|]. apply Forall_app. split; [exact Fq|].
      eapply Forall_impl; [exact Fv|]. now intros [].
    + right. split; [|exact Hr].
      change (EvPrefetch [(path, hex n)] true :: d1 ++ dv)
        with ([EvPrefetch [(path, hex n)] true] ++ d1 ++ dv).
      rewrite !count_app, Fp, (count_none is_prefetch dv); [reflexivity|].
      eapply Forall_impl; [exact Fv|]. now intros [].
  - eexists linknode, false, _, (EvPrefetch [(path, hex n)] true :: d1 ++ [_]).
    split; [reflexivity|]. simpl. rewrite Ht1, <- app_assoc. simpl.
    repeat split; auto.
    + change (EvPrefetch [(path, hex n)] true :: d1 ++ [EvWarn path (hex linknode) e])
        with ([EvPrefetch [(path, hex n)] true] ++ d1 ++ [EvWarn path (hex linknode) e]).
      rewrite !count_app, Fp. unfold count. simpl. lia.
    + constructor; [now split|]. apply Forall_app. split; [exact Fq|].
      repeat constructor.
Qed.

Lemma at_first_public_none d :
  Forall (fun e => is_lookup e = false) d -> at_first_public repo d.
Proof.
  intros F pre ev post -> Hev.
  apply Forall_app in F as [_ F]. inversion F; subst. congruence.
Qed.

Lemma at_first_public_cons q d :
  phasecache repo q <> public -> at_first_public repo d ->
  at_first_public repo (EvVisit q :: d).
Proof.
  intros Hq Hd pre ev post E Hev.
  destruct pre as [|e0 pre']; simpl in E; inversion E; subst.
  - discriminate.
  - destruct (Hd pre' ev post eq_refl Hev) as (qs & p & Hv & Fq & Hp).
    exists (q :: qs), p. simpl. rewrite Hv. repeat split; auto.
Qed.

Lemma at_first_public_here p x t :
  phasecache repo p = public ->
  Forall (fun e => is_visit e = false) x ->
  Forall (fun e => is_lookup e = false) t ->
  at_first_public repo (EvVisit p :: x ++ t).
Proof.
  intros Hp Fx Ft pre ev post E Hev.
  destruct pre as [|e0 pre']; simpl in E; inversion E as [[E0 E1]]; subst.
  - discriminate.
  - apply app_eq_app in E1 as [l [[-> E2]|[-> E2]]].
    + exists [], p. simpl. split; [|auto].
      apply Forall_app in Fx as [Fx _]. now rewrite (visited_none _ Fx).
    + rewrite E2 in Ft. apply Forall_app in Ft as [_ Ft].
      inversion Ft; subst. congruence.
Qed.

(** Once a public commit was seen, the rest of the traversal only
    visits: the context, the store and the variable [linknode] stay as
    they are. *)
Lemma walk_seenpublic path fnode revs cl iteranc linknode s :
  exists w d,
    walk filelog_ancestormap fileservice_prefetch call_conduit repo
      path fnode revs cl iteranc true linknode s = (Ok w, add_trace s d) /\
    Forall (fun e => is_lookup e = false) d /\
    (forall ln, w = Exhausted ln -> ln = linknode).
Proof.
  revert s. induction iteranc as [|ancrev rest IH]; intros s.
  - exists (Exhausted linknode), []. rewrite add_trace_nil.
    repeat split; auto. congruence.
  - cbn [walk]. unfold bind at 1. rewrite emit_eq.
    destruct (_nodefromancrev _ _ _ _ _) as [lnode|].
    + exists (Returned lnode), [EvVisit ancrev]. repeat split; auto.
      discriminate.
    + simpl. destruct (IH (add_trace s [EvVisit ancrev])) as (w & d & E & F & Hw).
      exists w, (EvVisit ancrev :: d). rewrite E, add_trace_app.
      repeat split; auto.
Qed.

(** The traversal as [_adjustlinknode] starts it always ends normally.
    It makes at most one fastlog call and at most one prefetch, both
    at the first public commit it visits. If it is exhausted, the
    variable [linknode] is the one it started with, or the one
    recorded for the file node in the map the context caches at the
    end; it is the one it started with when no commit visited is
    public. *)
Lemma walk_spec path fnode revs cl iteranc linknode s :
  exists w s' d,
    walk filelog_ancestormap fileservice_prefetch call_conduit repo
      path fnode revs cl iteranc false linknode s = (Ok w, s') /\
    w_trace (st_world s') = w_trace (st_world s) ++ d /\
    (count is_fastlog d <= 1)%nat /\
    (count is_prefetch d <= 1)%nat /\
    at_first_public repo d /\
    (forall ln, w = Exhausted ln ->
       ln = linknode \/
       (count is_prefetch d = 1%nat /\
        exists m' e', _ancestormap (st_self s') = Some m' /\
                      m' !! fnode = Some e' /\ ln = linknode_of e')) /\
    (Forall (fun r => phasecache repo r <> public) iteranc ->
     forall ln, w = Exhausted ln -> ln = linknode).
Proof.
  revert s. induction iteranc as [|ancrev rest IH]; intros s.
  - exists (Exhausted linknode), s, []. rewrite app_nil_r.
    repeat split; auto.
    + apply at_first_public_none. constructor.
    + intros ln [= <-]. now left.
    + congruence.
  - cbn [walk]. unfold bind at 1. rewrite emit_eq.
    destruct (_nodefromancrev _ _ _ _ _) as [lnode|].
    { exists (Returned lnode), (add_trace s [EvVisit ancrev]), [EvVisit ancrev].
      repeat split; auto; try discriminate.
      apply at_first_public_none. repeat constructor. }
    cbn [negb andb]. case_bool_decide as Hpub.
    + (* the first public commit *)
      destruct (fastlog_attempt_spec path ancrev fnode cl (add_trace s [EvVisit ancrev]))
        as (hit & sf & dF & EF & HsF & HtF & CF & FF).
      rewrite (bind_ok _ _ _ _ _ EF).
      assert (FFv : Forall (fun e => is_visit e = false) dF).
      { eapply Forall_impl; [exact FF|]. now intros e [_ ?]. }
      assert (CFp : count is_prefetch dF = 0%nat).
      { apply count_none. eapply Forall_impl; [exact FF|]. now intros e [? _]. }
      destruct (lnode_truthy hit).
      { unfold bind at 1. rewrite emit_eq. unfold ret.
        eexists _, _, (EvVisit ancrev :: dF ++ [EvLog "linkrevfixup" "success"]).
        split; [reflexivity|]. simpl. rewrite HtF. simpl.
        rewrite <- !app_assoc. simpl. repeat split.
        - change (EvVisit ancrev :: dF ++ [EvLog "linkrevfixup" "success"])
            with ([EvVisit ancrev] ++ dF ++ [EvLog "linkrevfixup" "success"]).
          rewrite !count_app. unfold count at 1 3. simpl. lia.
        - change (EvVisit ancrev :: dF ++ [EvLog "linkrevfixup" "success"])
            with ([EvVisit ancrev] ++ dF ++ [EvLog "linkrevfixup" "success"]).
          rewrite !count_app, CFp. unfold count. simpl. lia.
        - apply at_first_public_here; auto; repeat constructor.
        - discriminate.
        - discriminate. }
      destruct (refresh_linknode_spec path fnode revs linknode sf)
        as (ln & b & sr & dR & ER & HtR & CR & FR & HR).
      rewrite (bind_ok _ _ _ _ _ ER). cbn [fst snd].
      assert (FRv : Forall (fun e => is_visit e = false) dR).
      { eapply Forall_impl; [exact FR|]. now intros e [_ ?]. }
      assert (CRf : count is_fastlog dR = 0%nat).
      { apply count_none. eapply Forall_impl; [exact FR|]. now intros e [? _]. }
      destruct b.
      { eexists _, _, (EvVisit ancrev :: (dF ++ dR) ++ []).
        split; [reflexivity|]. rewrite HtR, HtF. simpl.
        rewrite app_nil_r, <- !app_assoc. simpl. repeat split.
        - change (EvVisit ancrev :: dF ++ dR) with ([EvVisit ancrev] ++ dF ++ dR).
          rewrite !count_app, CRf. unfold count at 1. simpl. lia.
        - change (EvVisit ancrev :: dF ++ dR) with ([EvVisit ancrev] ++ dF ++ dR).
          rewrite !count_app, CFp. unfold count at 1. simpl. lia.
        - rewrite <- (app_nil_r (dF ++ dR)).
          apply at_first_public_here; auto; now apply Forall_app.
        - discriminate.
        - discriminate. }
      destruct (walk_seenpublic path fnode revs cl rest ln sr) as (w & dT & ET & FT & HT).
      rewrite ET.
      eexists _, _, (EvVisit ancrev :: (dF ++ dR) ++ dT).
      split; [reflexivity|]. simpl. rewrite HtR, HtF. simpl.
      rewrite <- !app_assoc. simpl. repeat split.
      * change (EvVisit ancrev :: dF ++ dR ++ dT)
          with ([EvVisit ancrev] ++ dF ++ dR ++ dT).
        rewrite !count_app, CRf, (count_none is_fastlog dT).
        -- unfold count at 1. simpl. lia.
        -- eapply Forall_impl; [exact FT|]. unfold is_lookup.
           intros e He. now apply orb_false_elim in He.
      * change (EvVisit ancrev :: dF ++ dR ++ dT)
          with ([EvVisit ancrev] ++ dF ++ dR ++ dT).
        rewrite !count_app, CFp, (count_none is_prefetch dT).
        -- unfold count at 1. simpl. lia.
        -- eapply Forall_impl; [exact FT|]. unfold is_lookup.
           intros e He. now apply orb_false_elim in He.
      * rewrite app_assoc. apply at_first_public_here; auto;
        now apply Forall_app.
      * intros ln' Hw. rewrite (HT _ Hw).
        destruct HR as [[-> _]|[CR1 HR]]; [now left|right].
        split; [|exact HR].
        change (EvVisit ancrev :: dF ++ dR ++ dT)
          with ([EvVisit ancrev] ++ dF ++ dR ++ dT).
        rewrite !count_app, CFp, CR1, (count_none is_prefetch dT).
        -- reflexivity.
        -- eapply Forall_impl; [exact FT|]. unfold is_lookup.
           intros e He. now apply orb_false_elim in He.
      * intros Fnp. inversion Fnp; subst. contradiction.
    + (* not public: on to the next ancestor *)
      destruct (IH (add_trace s [EvVisit ancrev]))
        as (w & s' & d & E & Ht & Cf & Cp & Hpos & Hex & Hnp).
      rewrite E. exists w, s', (EvVisit ancrev :: d).
      split; [reflexivity|]. rewrite Ht. simpl. rewrite <- app_assoc. simpl.
      split; [reflexivity|]. split; [exact Cf|]. split; [exact Cp|].
      split; [now apply at_first_public_cons|]. split.
      * intros ln Hw. destruct (Hex ln Hw) as [->|[C1 H1]]; [now left|right].
        split; [|exact H1].
        change (EvVisit ancrev :: d) with ([EvVisit ancrev] ++ d).
        now rewrite count_app, C1.
      * intros Fnp. inversion Fnp; subst. auto.
Qed.

(** Commits that are not public and do not match are only visited. *)
Lemma walk_skip path fnode revs cl qs rest seenpublic linknode s :
  Forall (fun q => phasecache repo q <> public /\
                   _nodefromancrev q cl (manifestlog repo) path fnode = None) qs ->
  walk filelog_ancestormap fileservice_prefetch call_conduit repo
    path fnode revs cl (qs ++ rest) seenpublic linknode s
  = walk filelog_ancestormap fileservice_prefetch call_conduit repo
      path fnode revs cl rest seenpublic linknode (add_trace s (map EvVisit qs)).
Proof.
  revert s. induction qs as [|q qs IH]; intros s F.
  - simpl. now rewrite add_trace_nil.
  - inversion F as [|? ? [Hq Hn] F']; subst.
    cbn [app walk]. unfold bind at 1. rewrite emit_eq, Hn.
    rewrite bool_decide_eq_false_2 by exact Hq. rewrite andb_false_r.
    rewrite (IH _ F'), add_trace_app. reflexivity.
Qed.

(** *** The cached ancestor map *)

Lemma truthy_nonempty (m : ancmap) k :
  is_Some (m !! k) -> ancestormap_truthy (Some m) = true.
Proof.
  intros [e He]. simpl. case_bool_decide as E; [|reflexivity].
  rewrite E, lookup_empty in He. discriminate.
Qed.

Lemma ancestormap_hit s m :
  _ancestormap (st_self s) = Some m -> ancestormap_truthy (Some m) = true ->
  ancestormap filelog_ancestormap s = (Ok m, s).
Proof.
  intros Hc Ht. unfold ancestormap, bind, gets. now rewrite Hc, Ht.
Qed.

(** C8. With a file store whose maps cover the node asked for, a call
    of [ancestormap()] that returns a map leaves a state in which the
    next call returns the same map and changes nothing: no request to
    the store, no event, no write to the context. *)
Theorem ancestormap_idempotent s (m1 : ancmap) s1 :
  store_maps_cover_node filelog_ancestormap ->
  ancestormap filelog_ancestormap s = (Ok m1, s1) ->
  ancestormap filelog_ancestormap s1 = (Ok m1, s1).
Proof.
  intros Hstore E.
  pose proof (ancestormap_cached _ _ _ E) as Hc.
  apply ancestormap_hit; [exact Hc|].
  revert E. unfold ancestormap. unfold bind at 1. unfold gets at 1.
  destruct (ancestormap_truthy (_ancestormap (st_self s))) eqn:Ht.
  - intros E. inversion E; subst. now rewrite Hc in Ht.
  - destruct (kind (st_self s)) as [|pcl renamed].
    + unfold bind at 1. unfold fetch_ancestormap at 1.
      unfold bind at 1. rewrite emit_eq. unfold call, in_world, call_w. simpl.
      destruct (filelog_ancestormap _ _ _) as [[m|e] st] eqn:Ef; [|discriminate].
      intros E. inversion E; subst. eapply truthy_nonempty, Hstore, Ef.
    + intros E. apply bind_inv in E as (m & s2 & Ew & E).
      inversion E; subst.
      unfold working_ancestormap in Ew.
      apply bind_inv in Ew as (p1 & sa & _ & Ew).
      apply bind_inv in Ew as (ma & sb & _ & Ew).
      apply bind_inv in Ew as (mb & sc & _ & Ew).
      inversion Ew; subst.
      apply (truthy_nonempty _ FidNone). rewrite lookup_insert_eq. eauto.
Qed.

(** *** The full scan of [_linkrev] *)

Lemma range_down_spec start stop r :
  r ∈ range_down start stop <-> stop < r <= start.
Proof.
  unfold range_down. rewrite list_elem_of_In, in_map_iff. split.
  - intros (i & <- & Hi). apply in_seq in Hi. lia.
  - intros H. exists (Z.to_nat (start - r)). split; [lia|].
    apply in_seq. lia.
Qed.

(** The scan never reads revision 0. *)
Lemma linkrev_scan_range_skips_0 (cl : changelog_t) :
  0 ∉ range_down (cl_len cl - 1) 0.
Proof. rewrite range_down_spec. lia. Qed.

(** The scan answers with the first revision of its list whose commit
    touched the path with the file node looked for. *)
Lemma linkrev_scan_first cl mfl path fileid revs r :
  linkrev_scan cl mfl path fileid revs = Some r <->
  exists pre post,
    revs = pre ++ r :: post /\
    _nodefromancrev r cl mfl path fileid <> None /\
    Forall (fun q => _nodefromancrev q cl mfl path fileid = None) pre.
Proof.
  unfold _nodefromancrev. induction revs as [|q rest IH]; simpl.
  - split; [discriminate|]. intros (pre & post & E & _). now destruct pre.
  - destruct (cl_read cl q) as [mn files] eqn:Eq.
    destruct (bool_decide (path ∈ files) && bool_decide (fileid = of_option (mfl mn !! path)))
      eqn:Eb.
    + split.
      * intros [= <-]. exists [], rest. rewrite Eq, Eb. repeat split; auto.
      * intros (pre & post & E & Hr & Fpre).
        destruct pre as [|q' pre]; simpl in E; inversion E; subst; [reflexivity|].
        inversion Fpre as [|? ? Hq _]; subst. rewrite Eq, Eb in Hq. discriminate.
    + rewrite IH. split.
      * intros (pre & post & -> & Hr & Fpre). exists (q :: pre), post.
        repeat split; auto. constructor; [now rewrite Eq, Eb|exact Fpre].
      * intros (pre & post & E & Hr & Fpre).
        destruct pre as [|q' pre]; simpl in E; inversion E; subst.
        -- rewrite Eq, Eb in Hr. contradiction.
        -- inversion Fpre; subst. eauto.
Qed.

(** *** The fast paths of [ancestor] *)

Variable genericancestor :
  string * pyfileid -> string * pyfileid ->
  (string * pyfileid -> list (string * pyfileid)) -> option (string * pyfileid).

(** C6. If both contexts have the same path and [actx] has it,
    [ancestor] returns [actx]'s entry for it; if [actx] has exactly one
    of the two paths, [ancestor] returns [actx]'s entry for that one.
    In both cases the world is left as it was: no ancestor map is
    built. *)
Theorem ancestor_fast_paths (self fc2 : remotefilectx)
    (actx : gmap string remotefilectx) (w : @world Store) :
  (forall c, _path fc2 = _path self -> actx !! _path self = Some c ->
     ancestor filelog_ancestormap genericancestor self fc2 actx w = (Ok (Some c), w)) /\
  (forall c, actx !! _path self = Some c -> actx !! _path fc2 = None ->
     ancestor filelog_ancestormap genericancestor self fc2 actx w = (Ok (Some c), w)) /\
  (forall c, actx !! _path fc2 = Some c -> actx !! _path self = None ->
     ancestor filelog_ancestormap genericancestor self fc2 actx w = (Ok (Some c), w)).
Proof.
  unfold ancestor. repeat split.
  - intros c Hp Hc. rewrite Hp, String.eqb_refl, Hc.
    rewrite bool_decide_eq_true_2 by eauto. reflexivity.
  - intros c Hc Hn. rewrite Hc, Hn.
    rewrite (bool_decide_eq_true_2 (is_Some (Some c))) by eauto.
    rewrite (bool_decide_eq_false_2 (is_Some None)) by (intros [? ?]; discriminate).
    destruct (String.eqb _ _); reflexivity.
  - intros c Hc Hn. rewrite Hc, Hn.
    rewrite (bool_decide_eq_true_2 (is_Some (Some c))) by eauto.
    rewrite (bool_decide_eq_false_2 (is_Some None)) by (intros [? ?]; discriminate).
    rewrite andb_false_r. reflexivity.
Qed.

(** *** The map of a working-copy context *)

Lemma update_from_parent_spec (p : string * string) (m : ancmap) s r s' :
  update_from_parent filelog_ancestormap p m s = (r, s') ->
  st_self s' = st_self s /\
  exists d, w_trace (st_world s') = w_trace (st_world s) ++ d /\
            Forall (is_parent_fetch p) d.
Proof.
  unfold update_from_parent. case_bool_decide as Hn.
  2:{ intros [= <- <-]. split; [reflexivity|]. exists []. now rewrite app_nil_r. }
  unfold bind at 1, lift.
  destruct (new_remotefilectx _ _ _ _ _) as [c|e].
  2:{ intros [= <- <-]. split; [reflexivity|]. exists []. now rewrite app_nil_r. }
  unfold fetch_ancestormap. unfold bind at 1. unfold bind at 1.
  rewrite emit_eq. unfold call, in_world, call_w. simpl.
  destruct (filelog_ancestormap _ _ _) as [[pm|e] st];
    intros [= <- <-]; (split; [reflexivity|]); eexists [_]; simpl;
    (split; [reflexivity|]); repeat constructor; auto.
Qed.

Lemma update_from_parent_null (p : string * string) (m : ancmap) s :
  p.2 = nullid -> update_from_parent filelog_ancestormap p m s = (Ok m, s).
Proof.
  intros H. unfold update_from_parent.
  now rewrite bool_decide_eq_false_2 by (intros Hn; now apply Hn).
Qed.

Lemma new_remotefilectx_ok path (id : string) amap :
  String.length id <> 40%nat ->
  exists c, new_remotefilectx path None (FidStr id) None amap = Ok c.
Proof.
  intros H. unfold new_remotefilectx, normalize_fileid.
  apply Nat.eqb_neq in H.
  destruct (fileid_truthy (FidStr id)); [rewrite H|]; eauto.
Qed.

Lemma update_from_parent_total (p : string * string) (m : ancmap) s :
  store_answers filelog_ancestormap -> String.length p.2 <> 40%nat ->
  exists m' s', update_from_parent filelog_ancestormap p m s = (Ok m', s').
Proof.
  intros Hst Hlen. unfold update_from_parent. case_bool_decide; [|eauto].
  destruct (new_remotefilectx_ok p.1 p.2 None Hlen) as [c Hc].
  unfold bind at 1, lift. rewrite Hc.
  unfold fetch_ancestormap. unfold bind at 1. unfold bind at 1.
  rewrite emit_eq. unfold call, in_world, call_w. simpl.
  destruct (Hst p.1 (FidStr p.2) (w_store (st_world s))) as (pm & st & ->).
  eauto.
Qed.

(** C9. Take a working-copy context of [path] with the parent
    manifests [m0 :: pcl'] and no map cached yet. Let the first parent
    be the copy source when [renamed()] names one and otherwise
    [path] with the file node the first manifest has for it ([nullid]
    when it has none); let the second parent node be what the second
    manifest has for [path] when there is a second parent, and
    [nullid] otherwise. Then whatever [ancestormap()] asks of the file
    store is the map of one of these parents, when not [nullid]: the
    map of the working-copy revision is never asked for. If it
    returns a map [m], then [m[None]] is the synthetic entry (first
    parent node, second parent node, [nullid], copy source path or the
    empty string) and [m] is now cached. When both parent nodes are
    [nullid] the map is that single entry and nothing is asked. And
    when the store answers and the parent nodes are not 40 characters
    long, [ancestormap()] does return a map. *)
Theorem working_ancestormap_synthesized
    (path : string) (m0 : gmap string string) (pcl' : list (gmap string string))
    (renamed : option (string * string)) s :
  let p1 := match renamed with
            | Some r => r
            | None => (path, manifest_get m0 path)
            end in
  let p2 := (path, match pcl' with
                   | m1 :: _ => manifest_get m1 path
                   | [] => nullid
                   end) in
  let copyfrom := match renamed with Some r => r.1 | None => "" end in
  let entry : ancentry := (p1.2, p2.2, nullid, copyfrom) in
  kind (st_self s) = Working (m0 :: pcl') renamed ->
  _path (st_self s) = path ->
  ancestormap_truthy (_ancestormap (st_self s)) = false ->
  (forall r s', ancestormap filelog_ancestormap s = (r, s') ->
     (exists d, w_trace (st_world s') = w_trace (st_world s) ++ d /\
                Forall (fun ev => is_parent_fetch p1 ev \/ is_parent_fetch p2 ev) d) /\
     (forall m, r = Ok m ->
        m !! FidNone = Some entry /\ _ancestormap (st_self s') = Some m)) /\
  (p1.2 = nullid -> p2.2 = nullid ->
   ancestormap filelog_ancestormap s
   = (Ok {[ FidNone := entry ]},
      {| st_self := set_ancestormap (st_self s) (Some {[ FidNone := entry ]});
         st_world := st_world s |})) /\
  (store_answers filelog_ancestormap -> String.length p1.2 <> 40%nat -> String.length p2.2 <> 40%nat ->
   exists m s', ancestormap filelog_ancestormap s = (Ok m, s')).
Proof.
  intros p1 p2 copyfrom entry Hk Hp Ht.
  assert (Hunf : ancestormap filelog_ancestormap s
                 = bind (bind (update_from_parent filelog_ancestormap p1 ∅)
                           (fun m => bind (update_from_parent filelog_ancestormap p2 m)
                                       (fun m => ret (<[FidNone := entry]> m))))
                     (fun m => bind (update_self (fun c => set_ancestormap c (Some m)))
                                 (fun _ => ret m)) s).
  { unfold ancestormap. unfold bind at 1. unfold gets at 1. rewrite Ht, Hk, Hp.
    unfold working_ancestormap. subst p1 p2 copyfrom entry.
    destruct renamed as [r|]; destruct pcl' as [|m1 pcl'']; reflexivity. }
  rewrite Hunf. clear Hunf. split; [|split].
  - intros r s'. unfold bind at 1. unfold bind at 1.
    destruct (update_from_parent filelog_ancestormap p1 ∅ s) as [[ma|e] sa] eqn:Ea.
    2:{ intros [= <- <-]. destruct (update_from_parent_spec _ _ _ _ _ Ea) as (_ & d & Hd & F).
        split; [|discriminate]. exists d. split; [exact Hd|].
        eapply Forall_impl; [exact F|]. auto. }
    unfold bind at 1.
    destruct (update_from_parent filelog_ancestormap p2 ma sa) as [[mb|e] sb] eqn:Eb.
    2:{ intros [= <- <-].
        destruct (update_from_parent_spec _ _ _ _ _ Ea) as (_ & d1 & Hd1 & F1).
        destruct (update_from_parent_spec _ _ _ _ _ Eb) as (_ & d2 & Hd2 & F2).
        split; [|discriminate]. exists (d1 ++ d2). rewrite Hd2, Hd1, app_assoc.
        split; [reflexivity|]. apply Forall_app. split.
        - eapply Forall_impl; [exact F1|]. auto.
        - eapply Forall_impl; [exact F2|]. auto. }
    intros [= <- <-].
    destruct (update_from_parent_spec _ _ _ _ _ Ea) as (_ & d1 & Hd1 & F1).
    destruct (update_from_parent_spec _ _ _ _ _ Eb) as (_ & d2 & Hd2 & F2).
    split.
    + exists (d1 ++ d2). simpl. rewrite Hd2, Hd1, app_assoc.
      split; [reflexivity|]. apply Forall_app. split.
      * eapply Forall_impl; [exact F1|]. auto.
      * eapply Forall_impl; [exact F2|]. auto.
    + intros m [= <-]. split; [apply lookup_insert_eq|reflexivity].
  - intros H1 H2. unfold bind at 1. unfold bind at 1.
    rewrite (update_from_parent_null p1 ∅ s H1). unfold bind at 1.
    rewrite (update_from_parent_null p2 ∅ s H2). reflexivity.
  - intros Hst H1 H2. unfold bind at 1. unfold bind at 1.
    destruct (update_from_parent_total p1 ∅ s Hst H1) as (ma & sa & ->).
    unfold bind at 1.
    destruct (update_from_parent_total p2 ma sa Hst H2) as (mb & sb & ->).
    eexists _, _. reflexivity.
Qed.

(** *** What the methods leave of the receiver *)

Lemma same_file_refl c : same_file c c.
Proof. now split. Qed.

Lemma same_file_trans c1 c2 c3 :
  same_file c1 c2 -> same_file c2 c3 -> same_file c1 c3.
Proof. intros [? ?] [? ?]. split; congruence. Qed.

Lemma keeps_file_ret {A} (a : A) : keeps_file (ret a).
Proof. intros s r s' [= <- <-]. apply same_file_refl. Qed.

Lemma keeps_file_raise {A} e : keeps_file (@raise _ A e).
Proof. intros s r s' [= <- <-]. apply same_file_refl. Qed.

Lemma keeps_file_lift {A} (x : result A) : keeps_file (lift x).
Proof. intros s r s' [= <- <-]. apply same_file_refl. Qed.

Lemma keeps_file_gets {A} (f : state -> A) : keeps_file (gets f).
Proof. intros s r s' [= <- <-]. apply same_file_refl. Qed.

Lemma keeps_file_emit e : keeps_file (emit e).
Proof. intros s r s' [= <- <-]. apply same_file_refl. Qed.

Lemma keeps_file_call {A} (f : Store -> result A * Store) : keeps_file (call f).
Proof.
  intros s r s'. munfold. destruct (f _). intros [= <- <-]. apply same_file_refl.
Qed.

Lemma keeps_file_update_self f :
  (forall c, same_file c (f c)) -> keeps_file (update_self f).
Proof. intros H s r s' [= <- <-]. apply H. Qed.

Lemma keeps_file_bind {A B} (m : M state A) (k : A -> M state B) :
  keeps_file m -> (forall a, keeps_file (k a)) -> keeps_file (bind m k).
Proof.
  intros Hm Hk s r s' E. unfold bind in E.
  destruct (m s) as [[a|e] s1] eqn:Em.
  - eapply same_file_trans; [eapply Hm, Em|eapply Hk, E].
  - inversion E; subst. eapply Hm, Em.
Qed.

Lemma keeps_file_try {A} (m : M state A) (h : exn -> M state A) :
  keeps_file m -> (forall e, keeps_file (h e)) -> keeps_file (try_except m h).
Proof.
  intros Hm Hh s r s' E. unfold try_except in E.
  destruct (m s) as [[a|e] s1] eqn:Em.
  - inversion E; subst. eapply Hm, Em.
  - eapply same_file_trans; [eapply Hm, Em|eapply Hh, E].
Qed.

#[local] Hint Resolve keeps_file_ret keeps_file_raise keeps_file_lift
  keeps_file_gets keeps_file_emit keeps_file_call same_file_refl : emits.

Ltac keeps_step :=
  first
    [ solve [auto with emits]
    | apply keeps_file_update_self; intros ?; now split
    | apply keeps_file_bind; [|intros ?]
    | apply keeps_file_try; [|intros ?]
    | match goal with
      | |- keeps_file (if ?b then _ else _) => destruct b
      | |- keeps_file (match ?x with _ => _ end) => destruct x
      | |- keeps_file (let '(_, _) := ?x in _) => destruct x
      end ].

Lemma keeps_file_ancestormap : keeps_file (ancestormap filelog_ancestormap).
Proof.
  unfold ancestormap, working_ancestormap, update_from_parent, fetch_ancestormap.
  repeat keeps_step.
Qed.

Lemma keeps_file_verifylinknode revs linknode :
  keeps_file (_verifylinknode repo revs linknode).
Proof.
  intros s r s' E.
  destruct (verifylinknode_frame revs linknode s) as (b & d & E' & _).
  rewrite E' in E. inversion E; subst. apply same_file_refl.
Qed.

#[local] Hint Resolve keeps_file_ancestormap keeps_file_verifylinknode : emits.

Lemma keeps_file_getitem (m : ancmap) k : keeps_file (getitem m k).
Proof. unfold getitem. destruct (m !! k); auto with emits. Qed.

Lemma keeps_file_hex_py f : keeps_file (hex_py f).
Proof. destruct f; simpl; auto with emits. Qed.

#[local] Hint Resolve keeps_file_getitem keeps_file_hex_py : emits.

Lemma keeps_file_refresh path fnode revs linknode :
  keeps_file (refresh_linknode filelog_ancestormap fileservice_prefetch repo
                path fnode revs linknode).
Proof. unfold refresh_linknode. repeat keeps_step. Qed.

Lemma keeps_file_fastlog_attempt path ancrev fnode cl :
  keeps_file (fastlog_attempt call_conduit repo path ancrev fnode cl).
Proof.
  intros s r s' E.
  destruct (fastlog_attempt_spec path ancrev fnode cl s) as (h & sf & d & E' & Hs & _).
  rewrite E' in E. inversion E; subst. rewrite Hs. apply same_file_refl.
Qed.

#[local] Hint Resolve keeps_file_refresh keeps_file_fastlog_attempt : emits.

Lemma keeps_file_walk path fnode revs cl iteranc seenpublic linknode :
  keeps_file (walk filelog_ancestormap fileservice_prefetch call_conduit repo
                path fnode revs cl iteranc seenpublic linknode).
Proof.
  revert seenpublic linknode.
  induction iteranc as [|ancrev rest IH]; intros seenpublic linknode; cbn [walk].
  - auto with emits.
  - apply keeps_file_bind; [auto with emits|intros _].
    destruct (_nodefromancrev _ _ _ _ _); [auto with emits|].
    destruct (negb seenpublic && _); [|apply IH].
    apply keeps_file_bind; [auto with emits|intros hit].
    destruct (lnode_truthy hit); [repeat keeps_step|].
    apply keeps_file_bind; [auto with emits|].
    intros [ln []]; cbn [fst snd]; [auto with emits|apply IH].
Qed.

Lemma keeps_file_adjustlinknode path fnode srcrev inclusive :
  keeps_file (_adjustlinknode filelog_ancestormap fileservice_prefetch call_conduit
                repo path fnode srcrev inclusive).
Proof.
  unfold _adjustlinknode.
  apply keeps_file_bind; [apply keeps_file_ancestormap|intros m].
  apply keeps_file_bind; [unfold getitem; destruct (_ !! _); auto with emits|intros e].
  destruct srcrev as [r|].
  all: apply keeps_file_bind; [apply keeps_file_verifylinknode|intros []];
    [auto with emits|].
  all: apply keeps_file_bind; [auto with emits|intros _].
  all: apply keeps_file_bind; [apply keeps_file_walk|intros []; auto with emits].
Qed.

Lemma keeps_file_linkrev : keeps_file (linkrev filelog_ancestormap repo).
Proof.
  unfold linkrev, _linkrev, getitem.
  apply keeps_file_bind; [auto with emits|intros self].
  destruct (_linkrev_cached self); [auto with emits|].
  apply keeps_file_bind; [|intros ?; repeat keeps_step].
  apply keeps_file_bind; [auto with emits|intros self'].
  case_bool_decide; [auto with emits|].
  apply keeps_file_bind; [apply keeps_file_ancestormap|intros m].
  destruct (m !! _); [|repeat keeps_step].
  apply keeps_file_bind; [auto with emits|intros e].
  destruct (cl_rev _ _); auto with emits.
Qed.

Lemma keeps_file_rev :
  keeps_file (rev filelog_ancestormap fileservice_prefetch call_conduit repo).
Proof.
  unfold rev, changelog_rev.
  apply keeps_file_bind; [auto with emits|intros self].
  destruct (_changeid self); [auto with emits|].
  apply keeps_file_bind; [|intros ?; repeat keeps_step].
  destruct (_changectx self); [auto with emits|].
  destruct (_descendantrev self); [|apply keeps_file_linkrev].
  apply keeps_file_bind; [apply keeps_file_adjustlinknode|intros ln].
  destruct (cl_rev _ _); repeat keeps_step.
Qed.

Lemma keeps_file_introrev :
  keeps_file (introrev filelog_ancestormap fileservice_prefetch call_conduit repo).
Proof.
  unfold introrev, changelog_rev.
  apply keeps_file_bind; [apply keeps_file_linkrev|intros lkr].
  apply keeps_file_bind; [auto with emits|intros attrs].
  apply keeps_file_bind.
  { destruct (negb _); [auto with emits|apply keeps_file_rev]. }
  intros r. destruct (_ || _); [auto with emits|].
  apply keeps_file_bind; [auto with emits|intros self].
  apply keeps_file_bind; [apply keeps_file_rev|intros r'].
  apply keeps_file_bind; [apply keeps_file_adjustlinknode|intros ln].
  destruct (cl_rev _ _); repeat keeps_step.
Qed.

(** *** The prefetch planner of [annotate] *)

Lemma bind_inv_w {A B} (m : M (@world Store) A) (k : A -> M world B) w b w' :
  bind m k w = (Ok b, w') ->
  exists a w1, m w = (Ok a, w1) /\ k a w1 = (Ok b, w').
Proof.
  unfold bind. destruct (m w) as [[a|e] w1]; [eauto|discriminate].
Qed.

Lemma on_keeps_file {A} (c : remotefilectx) (m : M state A) w a c' w' :
  keeps_file m -> on c m w = (Ok (a, c'), w') -> same_file c c'.
Proof.
  intros Hm. unfold on.
  destruct (m {| st_self := c; st_world := w |}) as [[x|e] s] eqn:E; [|discriminate].
  intros [= <- <- <-]. exact (Hm _ _ _ E).
Qed.

Lemma enqueue_parents_fetch ps v w v' w' :
  enqueue_parents filelog_ancestormap fileservice_prefetch call_conduit repo ps v w
  = (Ok v', w') ->
  fetch v' = fetch v.
Proof.
  revert v w. induction ps as [|parent rest IH]; intros v w; cbn [enqueue_parents].
  - now intros [= <- <-].
  - intros E. apply bind_inv_w in E as ([n parent'] & w1 & _ & E).
    case_bool_decide; apply IH in E; exact E.
Qed.

Lemma annotate_step_fetch selfnode prefetchskip current v w v' w' :
  annotate_step filelog_ancestormap fileservice_prefetch call_conduit repo
    selfnode prefetchskip current v w = (Ok v', w') ->
  fetch v' = fetch v ++ joint_entry selfnode current /\
  (_fileid current <> selfnode -> exists id, _fileid current = FidStr id).
Proof.
  unfold annotate_step. intros E.
  apply bind_inv_w in E as (v1 & w1 & E1 & E).
  assert (H1 : fetch v1 = fetch v ++ joint_entry selfnode current /\
               (_fileid current <> selfnode -> exists id, _fileid current = FidStr id)).
  { unfold joint_entry. revert E1. unfold hex_py, bind, raise, ret.
    destruct (_fileid current) as [| |id];
      match goal with
      | |- context [bool_decide ?P] =>
          destruct (decide P) as [Hd|Hd];
          [rewrite !(bool_decide_eq_true_2 P Hd)
          |rewrite !(bool_decide_eq_false_2 P Hd)]
      end; cbv beta;
      try discriminate; intros [= <- <-]; simpl;
      rewrite ?app_nil_r; split; eauto; contradiction. }
  destruct (negb _ && _).
  - inversion E; subst. exact H1.
  - apply bind_inv_w in E as (r & w2 & _ & E).
    apply enqueue_parents_fetch in E. rewrite E. exact H1.
Qed.

Lemma joint_points_app selfnode l current :
  joint_points selfnode l -> joint_points selfnode (l ++ joint_entry selfnode current).
Proof.
  intros Hl p h Hin. apply elem_of_app in Hin as [Hin|Hin]; [exact (Hl p h Hin)|].
  unfold joint_entry in Hin. destruct (_fileid current) as [| |id].
  1,2: now apply elem_of_nil in Hin.
  case_bool_decide as Hd; [|now apply elem_of_nil in Hin].
  apply list_elem_of_singleton in Hin. inversion Hin; subst. eauto.
Qed.

Lemma annotate_loop_joint_points n selfnode prefetchskip v w v' w' :
  annotate_loop filelog_ancestormap fileservice_prefetch call_conduit repo
    n selfnode prefetchskip v w = (Ok v', w') ->
  joint_points selfnode (fetch v) -> joint_points selfnode (fetch v').
Proof.
  revert v w. induction n as [|k IH]; intros v w; cbn [annotate_loop].
  - now intros [= <- <-].
  - destruct (queue v) as [|current q]; [now intros [= <- <-]|].
    intros E Hv. apply bind_inv_w in E as (v1 & w1 & E1 & E).
    apply (IH _ _ E). apply annotate_step_fetch in E1 as [-> _].
    now apply joint_points_app.
Qed.

Lemma annotate_init_spec self prefetchskip w v self' w' :
  annotate_init filelog_ancestormap fileservice_prefetch call_conduit repo
    self prefetchskip w = (Ok (v, self'), w') ->
  fetch v = [] /\ _fileid self' = _fileid self.
Proof.
  unfold annotate_init. intros E.
  apply bind_inv_w in E as ([introctx self1] & w1 & E1 & E).
  apply bind_inv_w in E as ([n introctx'] & w2 & _ & E).
  inversion E; subst. split; [reflexivity|].
  revert E1. destruct (negb _); [|now intros [= <- <- <-]].
  intros E1. apply bind_inv_w in E1 as ([[ir r] self2] & w3 & Eon & E1).
  assert (Hs : same_file self self2).
  { eapply on_keeps_file; [|exact Eon].
    apply keeps_file_bind; [apply keeps_file_introrev|intros ?].
    apply keeps_file_bind; [apply keeps_file_rev|intros ?]. auto with emits. }
  destruct Hs as [_ Hs]. revert E1. case_bool_decide.
  - intros E1. apply bind_inv_w in E1 as (ictx & w4 & _ & E1).
    inversion E1; subst. exact Hs.
  - intros [= <- <- <-]. exact Hs.
Qed.

(** C7. At every point of the walk of [annotate] (after any number
    [n] of turns of its loop), each entry of [fetch] is the hex form
    of a file node other than the file node of the starting context,
    so the starting revision is never in it. A turn on a context
    whose file node differs from it records that context (its path
    and the hex form of its file node). And a turn on a member of a
    non-empty [prefetchskip] records it on the same condition and
    does nothing else: the queue, the set [seen] and the world stay as
    they were, so no parent of it is enqueued. *)
Theorem annotate_joint_points (n : nat) (self : remotefilectx)
    (prefetchskip : list remotefilectx) (w : @world Store) :
  (forall v w',
     annotate_walk filelog_ancestormap fileservice_prefetch call_conduit repo
       n self prefetchskip w = (Ok v, w') ->
     joint_points (_fileid self) (fetch v)) /\
  (forall current v w0 v' w',
     annotate_step filelog_ancestormap fileservice_prefetch call_conduit repo
       (_fileid self) prefetchskip current v w0 = (Ok v', w') ->
     _fileid current <> _fileid self ->
     exists id, _fileid current = FidStr id /\ (_path current, hex id) ∈ fetch v') /\
  (forall current v w0 v' w',
     prefetchskip <> [] -> in_skip current prefetchskip = true ->
     annotate_step filelog_ancestormap fileservice_prefetch call_conduit repo
       (_fileid self) prefetchskip current v w0 = (Ok v', w') ->
     fetch v' = fetch v ++ joint_entry (_fileid self) current /\
     queue v' = queue v /\ seen v' = seen v /\ w' = w0).
Proof.
  split; [|split].
  - intros v w' E. unfold annotate_walk in E.
    apply bind_inv_w in E as ([v0 self'] & w1 & Ei & E).
    apply annotate_init_spec in Ei as [Hf Hid]. rewrite <- Hid.
    apply (annotate_loop_joint_points _ _ _ _ _ _ _ E).
    rewrite Hf. intros p h Hin. now apply elem_of_nil in Hin.
  - intros current v w0 v' w' E Hd.
    apply annotate_step_fetch in E as [Hf Hid].
    destruct (Hid Hd) as [id Hc]. exists id. split; [exact Hc|].
    rewrite Hf. apply elem_of_app. right. unfold joint_entry. rewrite Hc.
    rewrite bool_decide_eq_true_2 by (rewrite <- Hc; exact Hd).
    apply list_elem_of_singleton. reflexivity.
  - intros current v w0 v' w' Hne Hin E.
    pose proof (annotate_step_fetch _ _ _ _ _ _ _ E) as [Hf _].
    split; [exact Hf|].
    unfold annotate_step in E. apply bind_inv_w in E as (v1 & w1 & E1 & E).
    rewrite Hin, bool_decide_eq_false_2 in E by exact Hne.
    simpl in E. inversion E; subst.
    revert E1. case_bool_decide.
    + intros E1. apply bind_inv_w in E1 as (h & w2 & Eh & E1).
      inversion E1; subst. simpl.
      unfold hex_py, raise, ret in Eh.
      destruct (_fileid current); inversion Eh; subst; auto.
    + intros [= <- <-]. auto.
Qed.

(** *** The step at the first public commit *)

(** A call of [ancestormap()] that raises leaves the context as it
    was. *)
Lemma ancestormap_raise_self s e s' :
  ancestormap filelog_ancestormap s = (Raise e, s') -> st_self s' = st_self s.
Proof.
  unfold ancestormap. unfold bind at 1. unfold gets at 1.
  destruct (ancestormap_truthy (_ancestormap (st_self s))); [discriminate|].
  unfold bind at 1.
  match goal with
  | |- context [match ?f s with _ => _ end] => destruct (f s) as [[m0|x] s0] eqn:Ef
  end; [discriminate|].
  intros [= <- <-].
  destruct (kind (st_self s)) as [|pcl renamed].
  - unfold fetch_ancestormap, bind in Ef. rewrite emit_eq in Ef.
    unfold call, in_world, call_w in Ef. simpl in Ef.
    destruct (filelog_ancestormap _ _ _) as [[?|?] ?]; inversion Ef; reflexivity.
  - unfold working_ancestormap in Ef.
    unfold bind at 1 in Ef.
    match type of Ef with
    | context [match ?f s with _ => _ end] => destruct (f s) as [[p1|x1] sa] eqn:Ea
    end.
    2:{ inversion Ef; subst. destruct renamed; [discriminate|].
        destruct pcl; inversion Ea; reflexivity. }
    assert (Hsa : sa = s).
    { destruct renamed; [now inversion Ea|]. destruct pcl; now inversion Ea. }
    subst sa. unfold bind at 1 in Ef.
    destruct (update_from_parent filelog_ancestormap p1 ∅ s) as [[ma|xa] sb] eqn:Eb.
    2:{ inversion Ef; subst.
        exact (proj1 (update_from_parent_spec _ _ _ _ _ Eb)). }
    unfold bind at 1 in Ef.
    match type of Ef with
    | context [update_from_parent _ ?p2 ma sb] =>
        destruct (update_from_parent filelog_ancestormap p2 ma sb) as [[mb|xb] sc] eqn:Ec
    end; [discriminate|].
    inversion Ef; subst.
    rewrite (proj1 (update_from_parent_spec _ _ _ _ _ Ec)).
    exact (proj1 (update_from_parent_spec _ _ _ _ _ Eb)).
Qed.

(** The block of lines 304-320 when the forced prefetch raises: the
    warning, and nothing else is touched. *)
Lemma refresh_linknode_prefetch_raises path id revs linknode s x st :
  fileservice_prefetch [(path, hex id)] true (w_store (st_world s)) = (Raise x, st) ->
  refresh_linknode filelog_ancestormap fileservice_prefetch repo
    path (FidStr id) revs linknode s
  = (Ok (linknode, false),
     {| st_self := st_self s;
        st_world :=
          {| w_store := st;
             w_trace := w_trace (st_world s)
                        ++ [EvPrefetch [(path, hex id)] true;
                            EvWarn path (hex linknode) x] |} |}).
Proof.
  intros Epf. unfold refresh_linknode, try_except, hex_py.
  unfold bind at 1. unfold bind at 1. unfold ret at 1.
  unfold bind at 1. rewrite emit_eq.
  unfold bind at 1. unfold call, in_world, call_w. simpl.
  rewrite Epf. unfold ret at 1. unfold bind at 1. rewrite emit_eq.
  unfold ret, add_trace. simpl. rewrite <- app_assoc. reflexivity.
Qed.

(** The same block when the forced prefetch succeeds: the cached map
    is dropped, the map is rebuilt and the linknode read from it is
    verified. *)
Lemma refresh_linknode_prefetched path id revs linknode s st :
  fileservice_prefetch [(path, hex id)] true (w_store (st_world s)) = (Ok tt, st) ->
  refresh_linknode filelog_ancestormap fileservice_prefetch repo
    path (FidStr id) revs linknode s
  = match ancestormap filelog_ancestormap (after_prefetch path (hex id) st s) with
    | (Ok m, s1) =>
        match m !! FidStr id with
        | Some e =>
            match _verifylinknode repo revs (linknode_of e) s1 with
            | (Ok ok, s2) => (Ok (linknode_of e, ok), s2)
            | (Raise x, s2) =>
                (Ok (linknode_of e, false),
                 add_trace s2 [EvWarn path (hex (linknode_of e)) x])
            end
        | None => (Ok (linknode, false), add_trace s1 [EvWarn path (hex linknode) KeyError])
        end
    | (Raise x, s1) => (Ok (linknode, false), add_trace s1 [EvWarn path (hex linknode) x])
    end.
Proof.
  intros Epf. unfold refresh_linknode, try_except, hex_py.
  unfold bind at 1. unfold bind at 1. unfold ret at 1.
  unfold bind at 1. rewrite emit_eq.
  unfold bind at 1. unfold call, in_world, call_w. simpl. rewrite Epf.
  unfold bind at 1. unfold update_self, modify. simpl.
  change {| st_self := set_ancestormap (st_self s) None;
            st_world := {| w_store := st;
                           w_trace := w_trace (st_world s)
                                      ++ [EvPrefetch [(path, hex id)] true] |} |}
    with (after_prefetch path (hex id) st s).
  destruct (ancestormap filelog_ancestormap (after_prefetch path (hex id) st s))
    as [[m|x] s1] eqn:Em.
  - rewrite (bind_ok _ _ _ _ _ Em). unfold bind at 1, getitem.
    destruct (m !! FidStr id) as [e|]; [|reflexivity].
    unfold ret at 1. unfold bind at 1. unfold ret at 1. unfold bind at 1.
    destruct (_verifylinknode repo revs (linknode_of e) s1) as [[ok|x] s2]; reflexivity.
  - rewrite (bind_raise _ _ _ _ _ Em). reflexivity.
Qed.

(** The traversal up to its first public commit [p], when [p] has no
    match and fastlog gives no hit: what is left is the block of lines
    304-320 and, unless it returns, the rest of the ancestors. *)
Lemma walk_at_first_public path fnode revs cl qs p rest linknode s hit sf :
  Forall (fun q => phasecache repo q <> public /\
                   _nodefromancrev q cl (manifestlog repo) path fnode = None) qs ->
  phasecache repo p = public ->
  _nodefromancrev p cl (manifestlog repo) path fnode = None ->
  fastlog_attempt call_conduit repo path p fnode cl
    (add_trace s (map EvVisit (qs ++ [p]))) = (Ok hit, sf) ->
  lnode_truthy hit = false ->
  walk filelog_ancestormap fileservice_prefetch call_conduit repo
    path fnode revs cl (qs ++ p :: rest) false linknode s
  = match refresh_linknode filelog_ancestormap fileservice_prefetch repo
            path fnode revs linknode sf with
    | (Ok r, sr) =>
        if r.2 then (Ok (Returned r.1), sr)
        else walk filelog_ancestormap fileservice_prefetch call_conduit repo
               path fnode revs cl rest true r.1 sr
    | (Raise x, sr) => (Raise x, sr)
    end.
Proof.
  intros Fqs Hp Hn EF Hhit.
  rewrite (walk_skip _ _ _ _ _ _ _ _ _ Fqs).
  cbn [walk]. unfold bind at 1. rewrite emit_eq, Hn, add_trace_app.
  rewrite bool_decide_eq_true_2 by exact Hp. cbn [negb andb].
  rewrite map_app in EF. simpl in EF.
  rewrite (bind_ok _ _ _ _ _ EF), Hhit. unfold bind at 1.
  destruct (refresh_linknode _ _ _ _ _ _ _ sf) as [[[ln b]|x] sr];
    [|reflexivity].
  cbn [fst snd]. destruct b; reflexivity.
Qed.

(** After its first public commit the traversal only visits; with no
    match left it is exhausted, with the [linknode] it had. *)
Lemma walk_seenpublic_exhausted path fnode revs cl rest linknode s :
  Forall (fun r => _nodefromancrev r cl (manifestlog repo) path fnode = None) rest ->
  walk filelog_ancestormap fileservice_prefetch call_conduit repo
    path fnode revs cl rest true linknode s
  = (Ok (Exhausted linknode), add_trace s (map EvVisit rest)).
Proof.
  revert s. induction rest as [|r rest IH]; intros s F.
  - cbn. now rewrite add_trace_nil.
  - inversion F as [|? ? Hn F']; subst. cbn [walk map]. unfold bind at 1.
    rewrite emit_eq, Hn. cbn [negb andb]. rewrite (IH _ F'), add_trace_app.
    reflexivity.
Qed.

(** C3, amended. A traversal started by [_adjustlinknode] (no public
    commit seen yet) always ends normally. Its trace holds at most one
    fastlog call and at most one prefetch, and each of them happens
    while the traversal is at the first public commit it visits. At
    that commit [p], when [p] has no match and fastlog gives no hit, the
    block of lines 304-320 runs, and what it does decides how the
    traversal goes on:
    - the forced prefetch raises [e]: the request and a warning naming
      the path, the linknode and [e] are added to the trace, and the
      traversal goes on over the remaining ancestors with the same
      [linknode] and the context as it was, its cached map included;
    - the prefetch succeeds and the rebuild raises [x]: the warning is
      logged and the traversal goes on with the same [linknode], but the
      context now caches no map, line 310 having dropped it;
    - the prefetch succeeds and the rebuilt map has no entry for the
      file node: the same with [KeyError], the context caching the
      rebuilt map;
    - the prefetch succeeds and the rebuilt map records [e']: its
      linknode is verified in the state the rebuild left; if it
      verifies it is returned, and otherwise the traversal goes on with
      it as [linknode]. *)
Theorem walk_lookups_at_first_public
    (path : string) (fnode : pyfileid) (revs : list Z) (cl : changelog_t)
    (iteranc : list Z) (linknode : string) s :
  (exists w s' d,
     walk filelog_ancestormap fileservice_prefetch call_conduit repo
       path fnode revs cl iteranc false linknode s = (Ok w, s') /\
     w_trace (st_world s') = w_trace (st_world s) ++ d /\
     (count is_fastlog d <= 1)%nat /\
     (count is_prefetch d <= 1)%nat /\
     at_first_public repo d) /\
  (forall qs p rest n hit sf,
     iteranc = qs ++ p :: rest ->
     Forall (fun q => phasecache repo q <> public /\
                      _nodefromancrev q cl (manifestlog repo) path fnode = None) qs ->
     phasecache repo p = public ->
     _nodefromancrev p cl (manifestlog repo) path fnode = None ->
     fnode = FidStr n ->
     fastlog_attempt call_conduit repo path p fnode cl
       (add_trace s (map EvVisit (qs ++ [p]))) = (Ok hit, sf) ->
     lnode_truthy hit = false ->
     (forall e st',
        fileservice_prefetch [(path, hex n)] true (w_store (st_world sf))
        = (Raise e, st') ->
        walk filelog_ancestormap fileservice_prefetch call_conduit repo
          path fnode revs cl iteranc false linknode s
        = walk filelog_ancestormap fileservice_prefetch call_conduit repo
            path fnode revs cl rest true linknode
            {| st_self := st_self s;
               st_world :=
                 {| w_store := st';
                    w_trace := w_trace (st_world sf)
                               ++ [EvPrefetch [(path, hex n)] true;
                                   EvWarn path (hex linknode) e] |} |}) /\
     (forall st,
        fileservice_prefetch [(path, hex n)] true (w_store (st_world sf))
        = (Ok tt, st) ->
        (forall x sm,
           ancestormap filelog_ancestormap (after_prefetch path (hex n) st sf)
           = (Raise x, sm) ->
           st_self sm = set_ancestormap (st_self s) None /\
           walk filelog_ancestormap fileservice_prefetch call_conduit repo
             path fnode revs cl iteranc false linknode s
           = walk filelog_ancestormap fileservice_prefetch call_conduit repo
               path fnode revs cl rest true linknode
               (add_trace sm [EvWarn path (hex linknode) x])) /\
        (forall (m' : ancmap) sm,
           ancestormap filelog_ancestormap (after_prefetch path (hex n) st sf)
           = (Ok m', sm) ->
           m' !! fnode = None ->
           _ancestormap (st_self sm) = Some m' /\
           walk filelog_ancestormap fileservice_prefetch call_conduit repo
             path fnode revs cl iteranc false linknode s
           = walk filelog_ancestormap fileservice_prefetch call_conduit repo
               path fnode revs cl rest true linknode
               (add_trace sm [EvWarn path (hex linknode) KeyError])) /\
        (forall (m' : ancmap) sm (e' : ancentry) ok sv,
           ancestormap filelog_ancestormap (after_prefetch path (hex n) st sf)
           = (Ok m', sm) ->
           m' !! fnode = Some e' ->
           _verifylinknode repo revs (linknode_of e') sm = (Ok ok, sv) ->
           walk filelog_ancestormap fileservice_prefetch call_conduit repo
             path fnode revs cl iteranc false linknode s
           = if ok then (Ok (Returned (linknode_of e')), sv)
             else walk filelog_ancestormap fileservice_prefetch call_conduit repo
                    path fnode revs cl rest true (linknode_of e') sv))).
Proof.
  split.
  - destruct (walk_spec path fnode revs cl iteranc linknode s)
      as (w & s' & d & E & Ht & Cf & Cp & Hpos & _).
    exists w, s', d. auto.
  - intros qs p rest n hit sf -> Fqs Hp Hn -> EF Hhit.
    pose proof (walk_at_first_public _ _ revs _ _ _ rest linknode _ _ _
                  Fqs Hp Hn EF Hhit) as HW.
    assert (Hself : st_self sf = st_self s).
    { destruct (fastlog_attempt_spec path p (FidStr n) cl
                  (add_trace s (map EvVisit (qs ++ [p]))))
        as (hit' & sf' & dF & EF' & Hself & _).
      rewrite EF in EF'. inversion EF'; subst hit' sf'. exact Hself. }
    split.
    + intros e st' Epf. rewrite HW.
      rewrite (refresh_linknode_prefetch_raises _ _ _ _ _ _ _ Epf), Hself.
      reflexivity.
    + intros st Epf.
      rewrite (refresh_linknode_prefetched _ _ _ _ _ _ Epf) in HW.
      split; [|split].
      * intros x sm Em. rewrite Em in HW. split; [|exact HW].
        rewrite (ancestormap_raise_self _ _ _ Em). cbn [after_prefetch st_self].
        now rewrite Hself.
      * intros m' sm Em He. rewrite Em, He in HW. split; [|exact HW].
        eapply ancestormap_cached, Em.
      * intros m' sm e' ok sv Em He Ev. rewrite Em, He, Ev in HW.
        rewrite HW. cbn [fst snd]. destruct ok; reflexivity.
Qed.

(** C2, amended. Once the ancestor map is read and has an entry for
    the file node, [_adjustlinknode] ends normally. If the entry's
    linknode fails verification and the traversal is exhausted (every
    ancestor the iterator yields is visited and none returns), the
    result is the variable [linknode] as the traversal left it: the
    linknode read before the traversal, or else, after the one forced
    prefetch, the linknode recorded for the file node in the map that
    was rebuilt and is now cached. It is the one read before the
    traversal whenever no visited commit is public.

    Which of the two it is, is decided at the first public commit [p]
    the traversal visits. When no ancestor has a match and fastlog
    gives no hit at [p]: if the forced prefetch raises, or the rebuild
    raises, or the rebuilt map has no entry for the file node, the
    result is the linknode read before the traversal; if the prefetch
    succeeds and the rebuilt map records an entry [e'] whose linknode
    does not verify either, the result is the linknode of [e'], the one
    re-read at line 311. The end state is given in each case. *)
Theorem adjustlinknode_exhausted
    (path : string) (fnode : pyfileid) (srcrev : pyrev) (inclusive : bool)
    s (m : ancmap) s1 (e : ancentry) :
  let revs := target_revs repo srcrev in
  let incl := match srcrev with None => true | Some _ => inclusive end in
  let cl := unfiltered_changelog repo in
  ancestormap filelog_ancestormap s = (Ok m, s1) ->
  m !! fnode = Some e ->
  (exists ln s',
     _adjustlinknode filelog_ancestormap fileservice_prefetch call_conduit repo
       path fnode srcrev inclusive s = (Ok ln, s')) /\
  (forall s2 ln s3,
     _verifylinknode repo revs (linknode_of e) s1 = (Ok false, s2) ->
     walk filelog_ancestormap fileservice_prefetch call_conduit repo
       path fnode revs cl (cl_ancestors cl revs incl) false (linknode_of e)
       (add_trace s2 [EvAncestors revs incl]) = (Ok (Exhausted ln), s3) ->
     _adjustlinknode filelog_ancestormap fileservice_prefetch call_conduit repo
       path fnode srcrev inclusive s = (Ok ln, s3) /\
     (ln = linknode_of e \/
      exists d m' e',
        w_trace (st_world s3)
        = w_trace (st_world s2) ++ EvAncestors revs incl :: d /\
        count is_prefetch d = 1%nat /\
        _ancestormap (st_self s3) = Some m' /\
        m' !! fnode = Some e' /\ ln = linknode_of e') /\
     (Forall (fun r => phasecache repo r <> public) (cl_ancestors cl revs incl) ->
      ln = linknode_of e)) /\
  (forall s2 qs p rest n hit sf,
     _verifylinknode repo revs (linknode_of e) s1 = (Ok false, s2) ->
     cl_ancestors cl revs incl = qs ++ p :: rest ->
     Forall (fun q => phasecache repo q <> public /\
                      _nodefromancrev q cl (manifestlog repo) path fnode = None) qs ->
     phasecache repo p = public ->
     _nodefromancrev p cl (manifestlog repo) path fnode = None ->
     Forall (fun r => _nodefromancrev r cl (manifestlog repo) path fnode = None) rest ->
     fnode = FidStr n ->
     fastlog_attempt call_conduit repo path p fnode cl
       (add_trace s2 (EvAncestors revs incl :: map EvVisit (qs ++ [p])))
     = (Ok hit, sf) ->
     lnode_truthy hit = false ->
     (forall x st',
        fileservice_prefetch [(path, hex n)] true (w_store (st_world sf))
        = (Raise x, st') ->
        _adjustlinknode filelog_ancestormap fileservice_prefetch call_conduit repo
          path fnode srcrev inclusive s
        = (Ok (linknode_of e),
           add_trace
             {| st_self := st_self sf;
                st_world :=
                  {| w_store := st';
                     w_trace := w_trace (st_world sf)
                                ++ [EvPrefetch [(path, hex n)] true;
                                    EvWarn path (hex (linknode_of e)) x] |} |}
             (map EvVisit rest))) /\
     (forall st,
        fileservice_prefetch [(path, hex n)] true (w_store (st_world sf))
        = (Ok tt, st) ->
        (forall x sm,
           ancestormap filelog_ancestormap (after_prefetch path (hex n) st sf)
           = (Raise x, sm) ->
           _adjustlinknode filelog_ancestormap fileservice_prefetch call_conduit repo
             path fnode srcrev inclusive s
           = (Ok (linknode_of e),
              add_trace sm (EvWarn path (hex (linknode_of e)) x :: map EvVisit rest))) /\
        (forall (m' : ancmap) sm,
           ancestormap filelog_ancestormap (after_prefetch path (hex n) st sf)
           = (Ok m', sm) ->
           m' !! fnode = None ->
           _adjustlinknode filelog_ancestormap fileservice_prefetch call_conduit repo
             path fnode srcrev inclusive s
           = (Ok (linknode_of e),
              add_trace sm
                (EvWarn path (hex (linknode_of e)) KeyError :: map EvVisit rest))) /\
        (forall (m' : ancmap) sm (e' : ancentry) sv,
           ancestormap filelog_ancestormap (after_prefetch path (hex n) st sf)
           = (Ok m', sm) ->
           m' !! fnode = Some e' ->
           _verifylinknode repo revs (linknode_of e') sm = (Ok false, sv) ->
           _adjustlinknode filelog_ancestormap fileservice_prefetch call_conduit repo
             path fnode srcrev inclusive s
           = (Ok (linknode_of e'), add_trace sv (map EvVisit rest))))).
Proof.
  intros revs incl cl Hm He.
  assert (Hunf : forall s2 b,
            _verifylinknode repo revs (linknode_of e) s1 = (Ok b, s2) ->
            _adjustlinknode filelog_ancestormap fileservice_prefetch call_conduit repo
              path fnode srcrev inclusive s
            = if b then (Ok (linknode_of e), s2)
              else bind (walk filelog_ancestormap fileservice_prefetch call_conduit repo
                           path fnode revs cl (cl_ancestors cl revs incl) false
                           (linknode_of e))
                     (fun w => match w with
                               | Returned lnode => ret lnode
                               | Exhausted linknode => ret linknode
                               end)
                     (add_trace s2 [EvAncestors revs incl])).
  { intros s2 b Ev. unfold _adjustlinknode.
    rewrite (bind_ok _ _ _ _ _ Hm). unfold bind at 1, getitem. rewrite He.
    unfold ret at 1. subst revs incl cl. unfold target_revs in Ev.
    destruct srcrev as [r|]; rewrite (bind_ok _ _ _ _ _ Ev);
      destruct b; reflexivity. }
  split; [|split].
  - destruct (verifylinknode_frame revs (linknode_of e) s1) as (b & dv & Ev & _).
    rewrite (Hunf _ _ Ev). destruct b; [eauto|].
    destruct (walk_spec path fnode revs cl (cl_ancestors cl revs incl) (linknode_of e)
                (add_trace (add_trace s1 dv) [EvAncestors revs incl]))
      as (w & s' & d & E & _).
    rewrite (bind_ok _ _ _ _ _ E). destruct w; eauto.
  - intros s2 ln s3 Ev Ew.
    rewrite (Hunf _ _ Ev), (bind_ok _ _ _ _ _ Ew).
    split; [reflexivity|].
    destruct (walk_spec path fnode revs cl (cl_ancestors cl revs incl) (linknode_of e)
                (add_trace s2 [EvAncestors revs incl]))
      as (w & s' & d & E & Ht & _ & _ & _ & Hex & Hnp).
    rewrite Ew in E. inversion E; subst w s'. split.
    + destruct (Hex ln eq_refl) as [->|[C1 (m' & e' & H1 & H2 & H3)]];
        [now left|right].
      exists d, m', e'. simpl in Ht. rewrite Ht, <- app_assoc. auto.
    + intros Fnp. exact (Hnp Fnp ln eq_refl).
  - intros s2 qs p rest n hit sf Ev Hanc Fqs Hp Hn Frest -> EF Hhit.
    assert (EF' : fastlog_attempt call_conduit repo path p (FidStr n) cl
                    (add_trace (add_trace s2 [EvAncestors revs incl])
                       (map EvVisit (qs ++ [p]))) = (Ok hit, sf)).
    { rewrite add_trace_app. exact EF. }
    pose proof (walk_at_first_public _ _ revs _ _ _ rest (linknode_of e) _ _ _
                  Fqs Hp Hn EF' Hhit) as HW.
    rewrite <- Hanc in HW. split.
    + intros x st' Epf. rewrite (Hunf _ _ Ev). unfold bind. rewrite HW.
      rewrite (refresh_linknode_prefetch_raises _ _ _ _ _ _ _ Epf). cbn [fst snd].
      rewrite (walk_seenpublic_exhausted _ _ _ _ _ _ _ Frest). reflexivity.
    + intros st Epf.
      rewrite (refresh_linknode_prefetched _ _ _ _ _ _ Epf) in HW.
      split; [|split].
      * intros x sm Em. rewrite Em in HW.
        rewrite (Hunf _ _ Ev). unfold bind. rewrite HW. cbn [fst snd].
        rewrite (walk_seenpublic_exhausted _ _ _ _ _ _ _ Frest), add_trace_app.
        reflexivity.
      * intros m' sm Em He'. rewrite Em, He' in HW.
        rewrite (Hunf _ _ Ev). unfold bind. rewrite HW. cbn [fst snd].
        rewrite (walk_seenpublic_exhausted _ _ _ _ _ _ _ Frest), add_trace_app.
        reflexivity.
      * intros m' sm e' sv Em He' Ev'. rewrite Em, He', Ev' in HW.
        rewrite (Hunf _ _ Ev). unfold bind. rewrite HW. cbn [fst snd].
        rewrite (walk_seenpublic_exhausted _ _ _ _ _ _ _ Frest). reflexivity.
Qed.

End RemoteFacts.

(** ** The constructor *)

(** C10. The context the constructor builds holds the normalized
    file id. Whatever file id it is given, if it builds a context the
    context holds [normalize_fileid] of it, and the path, the changeset
    and the map as given. For [nullrev] it builds a context that holds
    [nullid]. For a string of 40 characters it builds a context that
    holds what [bin] makes of the string, and builds none when [bin]
    refuses it. For a binary node of 20 bytes, the hex spelling and the
    node itself give the same context, which holds the binary node. *)
Theorem init_fileid_normalized :
  (forall path changeid fileid changectx amap c,
     new_remotefilectx path changeid fileid changectx amap = Ok c ->
     normalize_fileid fileid = Ok (_fileid c) /\
     _path c = path /\ _changectx c = changectx /\ _ancestormap c = amap) /\
  (forall path changeid changectx amap,
     exists c,
       new_remotefilectx path changeid (FidInt nullrev) changectx amap = Ok c /\
       _fileid c = FidStr nullid) /\
  (forall s path changeid changectx amap,
     String.length s = 40%nat ->
     match bin s with
     | Ok b =>
         exists c,
           new_remotefilectx path changeid (FidStr s) changectx amap = Ok c /\
           _fileid c = FidStr b
     | Raise e => new_remotefilectx path changeid (FidStr s) changectx amap = Raise e
     end) /\
  (forall b path changeid changectx amap,
     String.length b = 20%nat ->
     exists c,
       new_remotefilectx path changeid (FidStr (hex b)) changectx amap = Ok c /\
       new_remotefilectx path changeid (FidStr b) changectx amap = Ok c /\
       _fileid c = FidStr b) /\
  normalize_fileid (FidInt nullrev) = Ok (FidStr nullid) /\
  (forall s, String.length s = 40%nat ->
     normalize_fileid (FidStr s)
     = match bin s with
       | Ok b => Ok (FidStr b)
       | Raise e => Raise e
       end) /\
  (forall b, String.length b = 20%nat ->
     normalize_fileid (FidStr (hex b)) = Ok (FidStr b) /\
     normalize_fileid (FidStr b) = Ok (FidStr b) /\
     forall path changeid changectx amap,
       new_remotefilectx path changeid (FidStr (hex b)) changectx amap
       = new_remotefilectx path changeid (FidStr b) changectx amap).
Proof.
  assert (H40 : forall s, String.length s = 40%nat ->
            normalize_fileid (FidStr s)
            = match bin s with
              | Ok b => Ok (FidStr b)
              | Raise e => Raise e
              end).
  { intros s Hs. unfold normalize_fileid.
    destruct s as [|c r]; [discriminate|].
    cbn [fileid_truthy String.eqb negb]. now rewrite Hs. }
  assert (H20 : forall b, String.length b = 20%nat ->
            normalize_fileid (FidStr b) = Ok (FidStr b)).
  { intros b Hb. unfold normalize_fileid.
    destruct (fileid_truthy (FidStr b)); [|reflexivity]. now rewrite Hb. }
  assert (Hh : forall b, String.length b = 20%nat ->
            normalize_fileid (FidStr (hex b)) = Ok (FidStr b)).
  { intros b Hb. rewrite H40, bin_hex; [reflexivity|].
    rewrite hex_length, Hb. reflexivity. }
  assert (Hnull : normalize_fileid (FidInt nullrev) = Ok (FidStr nullid))
    by reflexivity.
  split; [|split; [|split; [|split; [|split; [exact Hnull|split; [exact H40|]]]]]].
  - intros path changeid fileid changectx amap c. unfold new_remotefilectx.
    destruct (normalize_fileid fileid) as [fid|e]; [|discriminate].
    intros [= <-]. auto.
  - intros path changeid changectx amap. unfold new_remotefilectx.
    rewrite Hnull. eexists. split; reflexivity.
  - intros s path changeid changectx amap Hs. unfold new_remotefilectx.
    rewrite (H40 s Hs). destruct (bin s) as [b|e]; [|reflexivity].
    eexists. split; reflexivity.
  - intros b path changeid changectx amap Hb. unfold new_remotefilectx.
    rewrite (Hh b Hb), (H20 b Hb). eexists. repeat split.
  - intros b Hb. split; [exact (Hh b Hb)|]. split; [exact (H20 b Hb)|].
    intros path changeid changectx amap. unfold new_remotefilectx.
    now rewrite (Hh b Hb), (H20 b Hb).
Qed.

Lemma init_fileid_normalized_witness :
  exists c,
    new_remotefilectx "f" None (FidStr (hex Example.h1)) None None = Ok c /\
    new_remotefilectx "f" None (FidStr Example.h1) None None = Ok c /\
    _fileid c = FidStr Example.h1.
Proof.
  exact (proj1 (proj2 (proj2 (proj2 init_fileid_normalized)))
           Example.h1 "f" None None None eq_refl).
Defined.

(** ** The methods on the small repository *)

Import Example.

(** C5. In the repository [A -> B -> C] the file node [h1] of [f] was
    introduced by revision 0, and its recorded linknode [X] is not in
    the node map. The scan of [_linkrev] reads revisions 2 and 1 only
    and gives [None]: revision 0, the oldest, is never examined. *)
Theorem linkrev_scan_misses_revision_0 :
  cl_rev (changelog ex_repo) cX = None /\
  _nodefromancrev 0 ex_changelog ex_manifestlog "f" (FidStr h1) = Some cA /\
  range_down (cl_len ex_changelog - 1) 0 = [2; 1] /\
  (_linkrev (ex_ancestormap cY) ex_repo (ex_state f_h1)).1 = Ok None.
Proof. repeat split; vm_compute; reflexivity. Qed.

(** C2, as stated, fails here. The map of [f] at [h3] records the
    linknode [X]; verification against revision 2 fails; the traversal
    visits both ancestors, 1 and 0, and neither has [h3] for [f]. At
    revision 1, the first public one, the forced prefetch succeeds and
    the rebuilt map records [Y], which does not verify either. The
    result is [Y], not the linknode [X] read before the walk. *)
Lemma adjustlinknode_exhausted_returns_refreshed_linknode :
  let r := _adjustlinknode (ex_ancestormap cY) ex_prefetch ex_conduit ex_repo
             "f" (FidStr h3) (Some 2) false (ex_state f_h3) in
  (ancestormap (ex_ancestormap cY) (ex_state f_h3)).1 = Ok (ex_map cX) /\
  ex_map cX !! FidStr h3 = Some (nullid, nullid, cX, "") /\
  cl_ancestors ex_changelog [2] false = [1; 0] /\
  Forall (fun a => _nodefromancrev a ex_changelog ex_manifestlog "f" (FidStr h3) = None)
    [1; 0] /\
  visited (w_trace (st_world r.2)) = [1; 0] /\
  r.1 = Ok cY /\
  r.1 <> Ok cX.
Proof.
  cbv zeta. split; [reflexivity|]. split; [reflexivity|].
  split; [reflexivity|].
  split; [repeat constructor|].
  split; [vm_compute; reflexivity|].
  assert (E : (_adjustlinknode (ex_ancestormap cY) ex_prefetch ex_conduit ex_repo
                 "f" (FidStr h3) (Some 2) false (ex_state f_h3)).1 = Ok cY)
    by (vm_compute; reflexivity).
  split; [exact E|]. rewrite E. discriminate.
Qed.

Lemma adjustlinknode_trusted_linknode_witness :
  exists d1 d2,
    _adjustlinknode (ex_ancestormap cA) ex_prefetch ex_conduit ex_repo
      "f" (FidStr h1) (Some 2) false (ex_state f_h1_linked)
    = (Ok cA, add_trace (ex_state f_h1_linked) d2) /\
    Forall is_isancestor_event d2 /\
    w_trace (st_world (ex_state f_h1_linked))
    = w_trace (st_world (ex_state f_h1_linked)) ++ d1 /\
    Forall (fun ev => is_resolution_event ev = false) (d1 ++ d2).
Proof.
  apply (adjustlinknode_trusted_linknode (ex_ancestormap cA) ex_prefetch ex_conduit
           ex_repo "f" (FidStr h1) (Some 2) false (ex_state f_h1_linked)
           (ex_map cA) (ex_state f_h1_linked) (nullid, nullid, cA, "")).
  - reflexivity.
  - reflexivity.
  - constructor; [|constructor]. vm_compute; eauto.
  - constructor. reflexivity.
Defined.

Lemma adjustlinknode_exhausted_witness :
  let s := ex_state f_h3 in
  let s1 := (ancestormap (ex_ancestormap cY) s).2 in
  let s2 := (_verifylinknode ex_repo [2] cX s1).2 in
  let sf := add_trace s2 [EvAncestors [2] false; EvVisit 1] in
  let sm := (ancestormap (ex_ancestormap cY)
               (after_prefetch "f" (hex h3) 1%nat sf)).2 in
  let sv := (_verifylinknode ex_repo [2] cY sm).2 in
  _adjustlinknode (ex_ancestormap cY) ex_prefetch ex_conduit ex_repo
    "f" (FidStr h3) (Some 2) false s
  = (Ok cY, add_trace sv [EvVisit 0]).
Proof.
  intros s s1 s2 sf sm sv.
  assert (Hm : ancestormap (ex_ancestormap cY) s = (Ok (ex_map cX), s1))
    by reflexivity.
  assert (He : ex_map cX !! FidStr h3 = Some (nullid, nullid, cX, ""))
    by reflexivity.
  assert (Hrest : Forall (fun r => _nodefromancrev r ex_changelog ex_manifestlog
                                     "f" (FidStr h3) = None) [0])
    by (repeat constructor).
  pose proof (proj2 (proj2 (adjustlinknode_exhausted (ex_ancestormap cY) ex_prefetch
                              ex_conduit ex_repo "f" (FidStr h3) (Some 2) false s
                              (ex_map cX) s1 (nullid, nullid, cX, "") Hm He))
                s2 [] 1 [0] h3 None sf
                eq_refl eq_refl (List.Forall_nil _) eq_refl eq_refl Hrest
                eq_refl eq_refl eq_refl) as [_ Hok].
  apply (proj2 (proj2 (Hok 1%nat eq_refl)) (ex_map cY) sm (nullid, nullid, cY, "") sv);
    reflexivity.
Defined.

(** C3, as stated, fails here. The context of [f] at [h3] caches a
    map, and the store answers until the first forced prefetch. At
    revision 1, the first public one, the forced prefetch succeeds and
    the rebuild raises: the forced refresh has raised. The warning is
    logged and the traversal goes on to revision 0, but not with the
    stale map: the context caches no map any more. *)
Lemma walk_rebuild_failure_drops_stale_map :
  let stale := ex_ctx "f" h3 None (Some (ex_map cX)) in
  let lost := StoreError "no such blob" in
  let r := walk Cases.ex_store_once ex_prefetch ex_conduit ex_repo
             "f" (FidStr h3) [2] ex_changelog [1; 0] false cX (ex_state stale) in
  _ancestormap stale = Some (ex_map cX) /\
  ex_prefetch [("f", hex h3)] true 0%nat = (Ok tt, 1%nat) /\
  (ancestormap Cases.ex_store_once
     (after_prefetch "f" (hex h3) 1%nat (add_trace (ex_state stale) [EvVisit 1]))).1
  = Raise lost /\
  r.1 = Ok (Exhausted cX) /\
  w_trace (st_world r.2)
  = [EvVisit 1; EvPrefetch [("f", hex h3)] true; EvFetchAncestormap "f" (FidStr h3);
     EvWarn "f" (hex cX) lost; EvVisit 0] /\
  _ancestormap (st_self r.2) = None /\
  _ancestormap (st_self r.2) <> _ancestormap stale.
Proof.
  cbv zeta. split; [reflexivity|]. split; [reflexivity|]. split; [reflexivity|].
  split; [reflexivity|]. split; [vm_compute; reflexivity|].
  assert (E : _ancestormap
                (st_self
                   (walk Cases.ex_store_once ex_prefetch ex_conduit ex_repo
                      "f" (FidStr h3) [2] ex_changelog [1; 0] false cX
                      (ex_state (ex_ctx "f" h3 None (Some (ex_map cX))))).2)
              = None) by reflexivity.
  split; [exact E|]. rewrite E. discriminate.
Qed.

Lemma walk_lookups_at_first_public_witness :
  let stale := ex_ctx "f" h3 None (Some (ex_map cX)) in
  let lost := StoreError "no such blob" in
  let sm := add_trace
              (after_prefetch "f" (hex h3) 1%nat (add_trace (ex_state stale) [EvVisit 1]))
              [EvFetchAncestormap "f" (FidStr h3)] in
  st_self sm = set_ancestormap stale None /\
  walk Cases.ex_store_once ex_prefetch ex_conduit ex_repo "f" (FidStr h3)
    [2] ex_changelog [1; 0] false cX (ex_state stale)
  = walk Cases.ex_store_once ex_prefetch ex_conduit ex_repo "f" (FidStr h3)
      [2] ex_changelog [0] true cX (add_trace sm [EvWarn "f" (hex cX) lost]).
Proof.
  intros stale lost sm.
  apply (proj1 (proj2 (proj2 (walk_lookups_at_first_public Cases.ex_store_once
                                ex_prefetch ex_conduit ex_repo "f" (FidStr h3) [2]
                                ex_changelog [1; 0] cX (ex_state stale))
                         [] 1 [0] h3 None (add_trace (ex_state stale) [EvVisit 1])
                         eq_refl ltac:(constructor) eq_refl eq_refl eq_refl eq_refl
                         eq_refl)
                  1%nat eq_refl)
          lost sm).
  reflexivity.
Defined.

Lemma verifylinknode_lookup_failure_witness :
  exists s', _verifylinknode ex_repo [2] cX (ex_state f_h1) = (Ok false, s').
Proof.
  apply (proj1 (verifylinknode_lookup_failure ex_repo [2] cX (ex_state f_h1))).
  reflexivity.
Defined.

Lemma ancestor_fast_paths_witness :
  let no_ancestor := fun _ _ _ => None in
  let g_h1 := ex_ctx "g" g1 None None in
  ancestor (ex_ancestormap cA) no_ancestor f_h2 f_h1 {[ "f" := f_h1 ]} ex_world
  = (Ok (Some f_h1), ex_world) /\
  ancestor (ex_ancestormap cA) no_ancestor f_h2 g_h1 {[ "f" := f_h1 ]} ex_world
  = (Ok (Some f_h1), ex_world) /\
  ancestor (ex_ancestormap cA) no_ancestor g_h1 f_h2 {[ "f" := f_h1 ]} ex_world
  = (Ok (Some f_h1), ex_world).
Proof.
  intros no_ancestor g_h1. split; [|split].
  - apply (proj1 (ancestor_fast_paths (ex_ancestormap cA) no_ancestor
                    f_h2 f_h1 {[ "f" := f_h1 ]} ex_world) f_h1);
      reflexivity.
  - apply (proj1 (proj2 (ancestor_fast_paths (ex_ancestormap cA) no_ancestor
                           f_h2 g_h1 {[ "f" := f_h1 ]} ex_world)) f_h1);
      reflexivity.
  - apply (proj2 (proj2 (ancestor_fast_paths (ex_ancestormap cA) no_ancestor
                           g_h1 f_h2 {[ "f" := f_h1 ]} ex_world)) f_h1);
      reflexivity.
Defined.

Lemma ancestormap_idempotent_witness :
  let s1 := (ancestormap ex_ancestormap_root (ex_state f_h1)).2 in
  ancestormap ex_ancestormap_root s1
  = (Ok {[ FidStr h1 := (nullid, nullid, cA, "") ]}, s1).
Proof.
  intros s1.
  apply (ancestormap_idempotent ex_ancestormap_root (ex_state f_h1)).
  - intros path node st m st' E. inversion E. rewrite lookup_singleton_eq. eauto.
  - reflexivity.
Defined.

Lemma working_ancestormap_synthesized_witness :
  (exists m, (ancestormap (ex_ancestormap cA) (ex_state f_wdir)).1 = Ok m /\
             m !! FidNone = Some (h2, nullid, nullid, "")) /\
  (ancestormap (ex_ancestormap cA) (ex_state n_wdir)).1
  = Ok {[ FidNone := (nullid, nullid, nullid, "") ]} /\
  (exists m s', ancestormap (ex_ancestormap cA) (ex_state f_wdir) = (Ok m, s')).
Proof.
  pose proof (working_ancestormap_synthesized (ex_ancestormap cA) "f"
                (ex_manifestlog mC) [] None (ex_state f_wdir)
                eq_refl eq_refl eq_refl) as (Hf & _ & Htotal).
  pose proof (working_ancestormap_synthesized (ex_ancestormap cA) "n"
                (ex_manifestlog mC) [] None (ex_state n_wdir)
                eq_refl eq_refl eq_refl) as (_ & Hn & _).
  assert (Hex : exists m s', ancestormap (ex_ancestormap cA) (ex_state f_wdir) = (Ok m, s')).
  { apply Htotal.
    + intros path node st. eexists _, _. reflexivity.
    + vm_compute; discriminate.
    + vm_compute; discriminate. }
  split; [|split; [|exact Hex]].
  - destruct Hex as (m & s' & E). exists m. rewrite E. split; [reflexivity|].
    exact (proj1 (proj2 (Hf _ _ E) m eq_refl)).
  - rewrite Hn; reflexivity.
Defined.

Lemma annotate_joint_points_witness :
  let run := annotate_walk (ex_ancestormap cA) ex_prefetch ex_conduit ex_repo
               5 f_h2 [] ex_world in
  let v0 := {| fetch := []; seen := ∅; queue := [] |} in
  let v1 := {| fetch := [("f", hex h1)]; seen := ∅; queue := [] |} in
  let vend := {| fetch := [("f", hex h1)]; seen := {[Some cA]} ∪ {[Some cC]};
                 queue := [] |} in
  (run.1 = Ok vend /\ joint_points (FidStr h2) (fetch vend)) /\
  (exists id, FidStr h1 = FidStr id /\ ("f", hex id) ∈ fetch v1) /\
  (fetch v1 = fetch v0 ++ joint_entry (FidStr h2) f_h1 /\
   queue v1 = queue v0 /\ seen v1 = seen v0 /\ ex_world = ex_world).
Proof.
  intros run v0 v1 vend.
  pose proof (annotate_joint_points (ex_ancestormap cA) ex_prefetch ex_conduit ex_repo
                5 f_h2 [] ex_world) as (Hwalk & _).
  pose proof (annotate_joint_points (ex_ancestormap cA) ex_prefetch ex_conduit ex_repo
                5 f_h2 [f_h1] ex_world) as (_ & Hrec & Hskip).
  assert (Hstep : annotate_step (ex_ancestormap cA) ex_prefetch ex_conduit ex_repo
                    (FidStr h2) [f_h1] f_h1 v0 ex_world = (Ok v1, ex_world))
    by reflexivity.
  assert (Hrun : run = (Ok vend, run.2)) by reflexivity.
  split; [|split].
  - split; [now rewrite Hrun|]. exact (Hwalk vend run.2 Hrun).
  - apply (Hrec f_h1 v0 ex_world v1 ex_world Hstep). vm_compute; discriminate.
  - apply (Hskip f_h1 v0 ex_world v1 ex_world); [discriminate|reflexivity|exact Hstep].
Defined.

(** ** More about the methods *)

Section MoreFacts.

Context {Store : Type}.
Variable filelog_ancestormap :
  string -> pyfileid -> Store -> result ancmap * Store.
Variable fileservice_prefetch :
  list (string * string) -> bool -> Store -> result unit * Store.
Variable call_conduit :
  string -> string -> string -> Store -> result (option (list string)) * Store.
Variable repo : repo_t.

Implicit Types (s : @state Store) (d : list event).

#[local] Abbreviation from_fastlog := (from_fastlog repo) (only parsing).
#[local] Abbreviation found_by_walk := (found_by_walk repo) (only parsing).
#[local] Abbreviation after_prefetch := (@after_prefetch Store) (only parsing).
#[local] Abbreviation introduces := (introduces repo) (only parsing).
#[local] Abbreviation keeps_attrs := (@keeps_attrs Store) (only parsing).
#[local] Abbreviation after_conduit := (@after_conduit Store repo) (only parsing).
#[local] Abbreviation no_hit := (no_hit repo) (only parsing).

(** *** Verification accepts ancestors only *)

Lemma any_isancestor_sound cl linknode revs s s' :
  any_isancestor cl linknode revs s = (Ok true, s') ->
  ancestor_of_any cl linknode revs.
Proof.
  revert s. induction revs as [|r0 rest IH]; intros s; cbn [any_isancestor].
  - discriminate.
  - unfold bind at 1. rewrite emit_eq. unfold bind, lift.
    destruct (cl_isancestor cl linknode (cl_node cl r0)) as [[|]|e] eqn:E0.
    + intros _. now constructor.
    + intros E. apply Exists_cons_tl. eapply IH, E.
    + discriminate.
Qed.

Lemma verifylinknode_sound revs linknode s s' :
  _verifylinknode repo revs linknode s = (Ok true, s') ->
  ancestor_of_any (changelog repo) linknode revs.
Proof.
  destruct revs as [|r0 rest]; [discriminate|].
  unfold _verifylinknode, try_except.
  destruct (any_isancestor (changelog repo) linknode (r0 :: rest) s)
    as [[[|]|e] s1] eqn:E.
  - intros _. eapply any_isancestor_sound, E.
  - discriminate.
  - destruct e; discriminate.
Qed.

(** X1. [_verifylinknode] returns [True] only for a linknode that the
    commit graph calls an ancestor of one of the revisions; and it does
    return [True] for such a linknode when the revisions are revisions
    of the changelog. *)
Theorem verifylinknode_accepts_ancestors_only (revs : list Z) (linknode : string) s :
  (forall s', _verifylinknode repo revs linknode s = (Ok true, s') ->
     ancestor_of_any (changelog repo) linknode revs) /\
  (known_revs (changelog repo) revs ->
   ancestor_of_any (changelog repo) linknode revs ->
   exists s', _verifylinknode repo revs linknode s = (Ok true, s')).
Proof.
  split.
  - intros s' E. eapply verifylinknode_sound, E.
  - intros Hk Hex.
    destruct (verifylinknode_true repo revs linknode s Hk Hex) as (d & E & _).
    eauto.
Qed.

(** *** What [_adjustlinknode] can return *)

Lemma try_inv {A} (m : M (@state Store) A) h s a s' :
  try_except m h s = (Ok a, s') ->
  m s = (Ok a, s') \/ exists e s1, m s = (Raise e, s1) /\ h e s1 = (Ok a, s').
Proof.
  unfold try_except. destruct (m s) as [[x|e] s1]; [left|right; eauto].
  exact H.
Qed.

Lemma fastlog_scan_sound l cl path fnode s n s' :
  fastlog_scan repo l cl path fnode s = (Ok (Some n), s') ->
  exists h r, h ∈ l /\ lookup_hash repo h = Some r /\
              _nodefromancrev r cl (manifestlog repo) path fnode = Some n.
Proof.
  induction l as [|h rest IH]; cbn [fastlog_scan]; [discriminate|].
  destruct (lookup_hash repo h) as [r|] eqn:Eh; [|discriminate].
  destruct (_nodefromancrev r cl (manifestlog repo) path fnode) as [lnode|] eqn:En.
  - intros [= <- <-]. exists h, r. repeat split; auto. apply list_elem_of_here.
  - intros E. destruct (IH E) as (h' & r' & Hin & H1 & H2).
    exists h', r'. repeat split; auto. now apply list_elem_of_further.
Qed.

Lemma linknodeviafastlog_sound path srcrev fnode cl s n s' :
  _linknodeviafastlog call_conduit repo path srcrev fnode cl s = (Ok (Some n), s') ->
  exists r, from_fastlog r /\
            _nodefromancrev r cl (manifestlog repo) path fnode = Some n.
Proof.
  unfold _linknodeviafastlog. intros E.
  apply bind_inv in E as ([] & s1 & _ & E).
  destruct (have_conduit repo); [|discriminate]. cbn [negb] in E.
  apply try_inv in E as [E|(e & s2 & _ & E)].
  - apply bind_inv in E as ([] & s2 & _ & E).
    apply bind_inv in E as (results & s3 & _ & E).
    destruct results as [l|].
    + apply fastlog_scan_sound in E as (h & r & _ & H1 & H2).
      exists r. split; [now exists h|exact H2].
    + apply bind_inv in E as ([] & s4 & _ & E). discriminate.
  - apply bind_inv in E as ([] & s3 & _ & E). discriminate.
Qed.

Lemma fastlog_attempt_sound path ancrev fnode cl s hit s' :
  fastlog_attempt call_conduit repo path ancrev fnode cl s = (Ok hit, s') ->
  lnode_truthy hit = true ->
  exists r, from_fastlog r /\
            _nodefromancrev r cl (manifestlog repo) path fnode = Some (default "" hit).
Proof.
  unfold fastlog_attempt. destruct hit as [n|]; [|discriminate].
  destruct (fastlog_enabled repo); [|discriminate].
  intros E _. eapply linknodeviafastlog_sound, E.
Qed.

(** When the block of lines 304-320 returns, the linknode it returns is
    recorded for the file node in the map the context now caches, and
    the commit graph calls it an ancestor of a target. *)
Lemma refresh_linknode_returned path fnode revs linknode s ln s' :
  refresh_linknode filelog_ancestormap fileservice_prefetch repo
    path fnode revs linknode s = (Ok (ln, true), s') ->
  ancestor_of_any (changelog repo) ln revs /\
  exists m' e', _ancestormap (st_self s') = Some m' /\
                m' !! fnode = Some e' /\ ln = linknode_of e'.
Proof.
  unfold refresh_linknode. intros E.
  apply bind_inv in E as (r & s1 & E1 & E).
  destruct r as [ln0|e].
  2:{ apply bind_inv in E as ([] & s2 & _ & E). discriminate. }
  destruct (verifylinknode_frame repo revs ln0 s1) as (b & dv & Ev & _).
  unfold try_except, bind in E. rewrite Ev in E. unfold ret in E.
  inversion E; subst ln0 b s'. clear E. split.
  - eapply verifylinknode_sound, Ev.
  - apply try_inv in E1 as [E1|(e & s2 & _ & E1)]; [|discriminate].
    apply bind_inv in E1 as (h & s2 & _ & E1).
    apply bind_inv in E1 as ([] & s3 & _ & E1).
    apply bind_inv in E1 as ([] & s4 & _ & E1).
    apply bind_inv in E1 as ([] & s5 & _ & E1).
    apply bind_inv in E1 as (m & s6 & Em & E1).
    apply bind_inv in E1 as (e & s7 & Eg & E1).
    unfold getitem in Eg. destruct (m !! fnode) as [e0|] eqn:He0; [|discriminate].
    inversion Eg; subst e0 s7. inversion E1; subst ln s1.
    exists m, e. simpl. repeat split; auto.
    eapply ancestormap_cached, Em.
Qed.

Lemma found_by_walk_cons path fnode revs cl a iteranc n c :
  found_by_walk path fnode revs cl iteranc n c ->
  found_by_walk path fnode revs cl (a :: iteranc) n c.
Proof.
  intros [(r & Hin & H)|[H|H]]; [left|right; now left|right; now right].
  exists r. split; [now apply list_elem_of_further|exact H].
Qed.

Lemma walk_returned path fnode revs cl iteranc seenpublic linknode s n s' :
  walk filelog_ancestormap fileservice_prefetch call_conduit repo
    path fnode revs cl iteranc seenpublic linknode s = (Ok (Returned n), s') ->
  found_by_walk path fnode revs cl iteranc n (st_self s').
Proof.
  revert seenpublic linknode s.
  induction iteranc as [|ancrev rest IH]; intros seenpublic linknode s; cbn [walk].
  - discriminate.
  - intros E. apply bind_inv in E as ([] & s1 & _ & E).
    destruct (_nodefromancrev ancrev cl (manifestlog repo) path fnode) as [lnode|] eqn:En.
    { inversion E; subst. left. exists ancrev. split; [apply list_elem_of_here|exact En]. }
    destruct (negb seenpublic && bool_decide (phasecache repo ancrev = public)).
    2:{ apply found_by_walk_cons. eapply IH, E. }
    apply bind_inv in E as (hit & s2 & Ehit & E).
    destruct (lnode_truthy hit) eqn:Ht.
    { apply bind_inv in E as ([] & s3 & _ & E). inversion E; subst.
      right. left. eapply fastlog_attempt_sound; eauto. }
    apply bind_inv in E as ([ln b] & s3 & Er & E). cbn [fst snd] in E.
    destruct b.
    + inversion E; subst. right. right.
      eapply refresh_linknode_returned, Er.
    + apply found_by_walk_cons. eapply IH, E.
Qed.

(** The start of [_adjustlinknode], up to the first verification. *)
Lemma adjustlinknode_unfold path fnode srcrev inclusive s m s1 e b s2 :
  let revs := target_revs repo srcrev in
  let incl := match srcrev with None => true | Some _ => inclusive end in
  let cl := unfiltered_changelog repo in
  ancestormap filelog_ancestormap s = (Ok m, s1) ->
  m !! fnode = Some e ->
  _verifylinknode repo revs (linknode_of e) s1 = (Ok b, s2) ->
  _adjustlinknode filelog_ancestormap fileservice_prefetch call_conduit repo
    path fnode srcrev inclusive s
  = if b then (Ok (linknode_of e), s2)
    else bind (walk filelog_ancestormap fileservice_prefetch call_conduit repo
                 path fnode revs cl (cl_ancestors cl revs incl) false (linknode_of e))
           (fun w => match w with
                     | Returned lnode => ret lnode
                     | Exhausted linknode => ret linknode
                     end)
           (add_trace s2 [EvAncestors revs incl]).
Proof.
  intros revs incl cl Hm He Ev. unfold _adjustlinknode.
  rewrite (bind_ok _ _ _ _ _ Hm). unfold bind at 1, getitem. rewrite He.
  unfold ret at 1. subst revs incl cl. unfold target_revs in Ev.
  destruct srcrev as [r|]; rewrite (bind_ok _ _ _ _ _ Ev); destruct b; reflexivity.
Qed.

(** X2. Whatever node [_adjustlinknode] returns is a linknode recorded
    for the file node (in the map read at the start, or in the map the
    context caches at the end), or the node of a commit that touched the
    path with exactly this file node, this commit being one of the
    ancestors the iterator yields or one resolved from a hash fastlog
    listed. *)
Theorem adjustlinknode_result
    (path : string) (fnode : pyfileid) (srcrev : pyrev) (inclusive : bool)
    s (m : ancmap) s1 (e : ancentry) (n : string) s' :
  let revs := target_revs repo srcrev in
  let incl := match srcrev with None => true | Some _ => inclusive end in
  let cl := unfiltered_changelog repo in
  ancestormap filelog_ancestormap s = (Ok m, s1) ->
  m !! fnode = Some e ->
  _adjustlinknode filelog_ancestormap fileservice_prefetch call_conduit repo
    path fnode srcrev inclusive s = (Ok n, s') ->
  n = linknode_of e \/
  (exists m' e', _ancestormap (st_self s') = Some m' /\
                 m' !! fnode = Some e' /\ n = linknode_of e') \/
  (exists r, (r ∈ cl_ancestors cl revs incl \/ from_fastlog r) /\
             _nodefromancrev r cl (manifestlog repo) path fnode = Some n).
Proof.
  intros revs incl cl Hm He E.
  destruct (verifylinknode_frame repo revs (linknode_of e) s1) as (b & dv & Ev & _).
  rewrite (adjustlinknode_unfold path fnode srcrev inclusive _ _ _ _ _ _ Hm He Ev) in E.
  destruct b; [inversion E; now left|].
  apply bind_inv in E as (w & s3 & Ew & E).
  destruct w as [lnode|ln]; inversion E; subst.
  - apply walk_returned in Ew as [(r & Hin & H)|[(r & Hf & H)|(_ & H)]].
    + right. right. exists r. auto.
    + right. right. exists r. auto.
    + right. left. exact H.
  - destruct (walk_spec filelog_ancestormap fileservice_prefetch call_conduit repo
                path fnode revs cl (cl_ancestors cl revs incl) (linknode_of e)
                (add_trace (add_trace s1 dv) [EvAncestors revs incl]))
      as (w & s4 & d & E' & _ & _ & _ & _ & Hex & _).
    fold revs incl cl in Ew. rewrite Ew in E'. inversion E'; subst w s4.
    destruct (Hex n eq_refl) as [->|[_ H]]; [now left|right; now left].
Qed.

(** X3. When the recorded linknode fails verification and the first
    ancestor that has the file node for the path comes after ancestors
    that are not public, [_adjustlinknode] returns the node of that
    ancestor, having only visited the ancestors up to it: no fastlog
    call, no prefetch, no later ancestor. *)
Theorem adjustlinknode_first_match
    (path : string) (fnode : pyfileid) (srcrev : pyrev) (inclusive : bool)
    s (m : ancmap) s1 (e : ancentry) s2 (qs : list Z) (p : Z) (rest : list Z)
    (n : string) :
  let revs := target_revs repo srcrev in
  let incl := match srcrev with None => true | Some _ => inclusive end in
  let cl := unfiltered_changelog repo in
  ancestormap filelog_ancestormap s = (Ok m, s1) ->
  m !! fnode = Some e ->
  _verifylinknode repo revs (linknode_of e) s1 = (Ok false, s2) ->
  cl_ancestors cl revs incl = qs ++ p :: rest ->
  Forall (fun q => phasecache repo q <> public /\
                   _nodefromancrev q cl (manifestlog repo) path fnode = None) qs ->
  _nodefromancrev p cl (manifestlog repo) path fnode = Some n ->
  _adjustlinknode filelog_ancestormap fileservice_prefetch call_conduit repo
    path fnode srcrev inclusive s
  = (Ok n, add_trace s2 (EvAncestors revs incl :: map EvVisit (qs ++ [p]))).
Proof.
  intros revs incl cl Hm He Ev Hanc Fqs Hp.
  rewrite (adjustlinknode_unfold path fnode srcrev inclusive _ _ _ _ _ _ Hm He Ev).
  fold revs incl cl. rewrite Hanc. unfold bind.
  rewrite (walk_skip _ _ _ _ _ _ _ _ _ _ _ _ _ Fqs).
  cbn [walk]. unfold bind at 1. rewrite emit_eq, Hp. unfold ret.
  rewrite !add_trace_app, map_app. reflexivity.
Qed.

(** *** The forced refresh *)

(** X4. The traversal reaches its first public commit [p] without a
    match, fastlog gives no hit, the forced prefetch succeeds, and the
    map rebuilt from scratch records for the file node a linknode that
    verifies: the traversal returns that linknode there, and the
    remaining ancestors are not visited. *)
Theorem walk_refresh_resolves
    (path : string) (id : string) (revs : list Z) (cl : changelog_t)
    (qs : list Z) (p : Z) (rest : list Z) (linknode : string) s
    (hit : option string) sf (st : Store) (m' : ancmap) sm (e' : ancentry) sv :
  Forall (fun q => phasecache repo q <> public /\
                   _nodefromancrev q cl (manifestlog repo) path (FidStr id) = None) qs ->
  phasecache repo p = public ->
  _nodefromancrev p cl (manifestlog repo) path (FidStr id) = None ->
  fastlog_attempt call_conduit repo path p (FidStr id) cl
    (add_trace s (map EvVisit (qs ++ [p]))) = (Ok hit, sf) ->
  lnode_truthy hit = false ->
  fileservice_prefetch [(path, hex id)] true (w_store (st_world sf)) = (Ok tt, st) ->
  ancestormap filelog_ancestormap (after_prefetch path (hex id) st sf) = (Ok m', sm) ->
  m' !! FidStr id = Some e' ->
  _verifylinknode repo revs (linknode_of e') sm = (Ok true, sv) ->
  walk filelog_ancestormap fileservice_prefetch call_conduit repo
    path (FidStr id) revs cl (qs ++ p :: rest) false linknode s
  = (Ok (Returned (linknode_of e')), sv).
Proof.
  intros Fqs Hp Hn EF Hhit Epf Em He Ev.
  rewrite (walk_skip _ _ _ _ _ _ _ _ _ _ _ _ _ Fqs).
  cbn [walk]. unfold bind at 1. rewrite emit_eq, Hn, add_trace_app.
  rewrite bool_decide_eq_true_2 by exact Hp. cbn [negb andb].
  rewrite map_app in EF. simpl in EF.
  rewrite (bind_ok _ _ _ _ _ EF), Hhit.
  unfold bind at 1.
  rewrite (refresh_linknode_prefetched _ _ _ _ _ _ _ _ _ Epf), Em, He, Ev.
  reflexivity.
Qed.

(** X5. A call of [ancestormap()] that raises sets nothing on the
    context: in particular no map is cached, so the next call asks the
    store again. *)
Theorem ancestormap_failure_not_cached s (e : exn) s' :
  ancestormap filelog_ancestormap s = (Raise e, s') ->
  st_self s' = st_self s /\
  ancestormap_truthy (_ancestormap (st_self s')) = false.
Proof.
  intros E. pose proof (ancestormap_raise_self _ _ _ _ E) as Hs.
  split; [exact Hs|]. rewrite Hs.
  revert E. unfold ancestormap. unfold bind at 1. unfold gets at 1.
  destruct (ancestormap_truthy (_ancestormap (st_self s))); [discriminate|reflexivity].
Qed.

(** X6. When the forced prefetch succeeds but the map cannot be rebuilt
    (the store raises [x]), the block of lines 304-320 logs the warning
    and keeps the variable [linknode]; the context is left with no
    cached map at all, the stale one having been dropped at line 310. *)
Theorem refresh_rebuild_failure
    (path id : string) (revs : list Z) (linknode : string) s (st : Store)
    (x : exn) sm :
  fileservice_prefetch [(path, hex id)] true (w_store (st_world s)) = (Ok tt, st) ->
  ancestormap filelog_ancestormap (after_prefetch path (hex id) st s) = (Raise x, sm) ->
  refresh_linknode filelog_ancestormap fileservice_prefetch repo
    path (FidStr id) revs linknode s
  = (Ok (linknode, false), add_trace sm [EvWarn path (hex linknode) x]) /\
  _ancestormap (st_self sm) = None.
Proof.
  intros Epf Em. rewrite (refresh_linknode_prefetched _ _ _ _ _ _ _ _ _ Epf), Em.
  split; [reflexivity|]. now rewrite (ancestormap_raise_self _ _ _ _ Em).
Qed.

(** *** Errors of [_adjustlinknode] *)

(** X7. [_adjustlinknode] raises only before it consults the commit
    graph: when [ancestormap()] raises, with that exception, or with
    [KeyError] when the map has no entry for the file node. In both
    cases the state is the one [ancestormap()] left. *)
Theorem adjustlinknode_raises_only_at_start
    (path : string) (fnode : pyfileid) (srcrev : pyrev) (inclusive : bool)
    s (x : exn) s' :
  _adjustlinknode filelog_ancestormap fileservice_prefetch call_conduit repo
    path fnode srcrev inclusive s = (Raise x, s') <->
  ancestormap filelog_ancestormap s = (Raise x, s') \/
  (exists m, ancestormap filelog_ancestormap s = (Ok m, s') /\
             m !! fnode = None /\ x = KeyError).
Proof.
  destruct (ancestormap filelog_ancestormap s) as [[m|x0] s1] eqn:Em.
  2:{ unfold _adjustlinknode. rewrite (bind_raise _ _ _ _ _ Em). split.
      - intros [= <- <-]. now left.
      - intros [[= -> ->]|(m & [=] & _)]. reflexivity. }
  destruct (m !! fnode) as [e|] eqn:He.
  - split.
    + intros E. exfalso.
      destruct (verifylinknode_frame repo (target_revs repo srcrev) (linknode_of e) s1)
        as (b & dv & Ev & _).
      rewrite (adjustlinknode_unfold path fnode srcrev inclusive _ _ _ _ _ _ Em He Ev) in E.
      destruct b; [discriminate|].
      match type of E with
      | bind (walk _ _ _ _ _ _ ?revs ?cl ?anc false ?ln) _ ?s0 = _ =>
          destruct (walk_spec filelog_ancestormap fileservice_prefetch call_conduit repo
                      path fnode revs cl anc ln s0) as (w & s4 & d & E' & _)
      end.
      rewrite (bind_ok _ _ _ _ _ E') in E. destruct w; discriminate.
    + intros [[=]|(m0 & [= <- <-] & Hn & _)]. congruence.
  - unfold _adjustlinknode. rewrite (bind_ok _ _ _ _ _ Em).
    unfold bind at 1, getitem. rewrite He. unfold raise. split.
    + intros [= <- <-]. right. eauto.
    + intros [[=]|(m0 & [= <- <-] & _ & ->)]. reflexivity.
Qed.

(** X8. In the working-context case ([srcrev] is [None]) with a working
    directory that has no parent, verification is skipped as failed
    without any query, and if the ancestor iterator of no revision
    yields nothing, the recorded linknode is returned unverified. *)
Theorem adjustlinknode_no_target
    (path : string) (fnode : pyfileid) (inclusive : bool)
    s (m : ancmap) s1 (e : ancentry) :
  wdir_parents repo = [] ->
  cl_ancestors (unfiltered_changelog repo) [] true = [] ->
  ancestormap filelog_ancestormap s = (Ok m, s1) ->
  m !! fnode = Some e ->
  _adjustlinknode filelog_ancestormap fileservice_prefetch call_conduit repo
    path fnode None inclusive s
  = (Ok (linknode_of e), add_trace s1 [EvAncestors [] true]).
Proof.
  intros Hw Hanc Hm He.
  assert (Ev : _verifylinknode repo (target_revs repo None) (linknode_of e) s1
               = (Ok false, s1)) by (simpl; now rewrite Hw).
  rewrite (adjustlinknode_unfold path fnode None inclusive _ _ _ _ _ _ Hm He Ev).
  simpl. rewrite Hw, Hanc. reflexivity.
Qed.

(** *** [_linkrev] and [linkrev] *)

Lemma range_down_step (a b : Z) :
  range_down a b = if b <? a then a :: range_down (a - 1) b else [].
Proof.
  unfold range_down. destruct (Z.ltb_spec b a) as [H|H].
  - replace (Z.to_nat (a - b)) with (S (Z.to_nat (a - 1 - b))) by lia.
    cbn [seq map]. f_equal; [lia|].
    rewrite <- seq_shift, map_map. apply map_ext. intros i. lia.
  - replace (Z.to_nat (a - b)) with O by lia. reflexivity.
Qed.

(** In [range(start, stop, -1)] what comes before [r] is exactly what is
    above [r]. *)
Lemma range_down_split (a b : Z) (pre : list Z) (r : Z) (post : list Z) :
  range_down a b = pre ++ r :: post ->
  forall q, q ∈ pre <-> r < q <= a.
Proof.
  revert a. induction pre as [|x pre IH]; intros a E q.
  - rewrite range_down_step in E. destruct (b <? a); inversion E; subst.
    split; [intros H; now apply elem_of_nil in H|lia].
  - rewrite range_down_step in E. destruct (b <? a); inversion E as [[Ex E']]; subst x.
    assert (Hr : b < r <= a - 1).
    { apply (range_down_spec (a - 1) b r). rewrite E'.
      apply elem_of_app. right. apply list_elem_of_here. }
    rewrite elem_of_cons, (IH _ E' q). lia.
Qed.

(** X9. For a file node that is not [nullid], with a map that has an
    entry whose linknode the node map does not resolve, [_linkrev]
    answers [r] exactly when [r] is the newest revision among
    [1 .. len(cl) - 1] whose commit touched the path with this file
    node; it reads nothing but the map. *)
Theorem linkrev_scan_newest_match s (m : ancmap) s1 (e : ancentry) :
  let cl := unfiltered_changelog repo in
  let self := st_self s in
  _fileid self <> FidStr nullid ->
  ancestormap filelog_ancestormap s = (Ok m, s1) ->
  m !! _fileid self = Some e ->
  cl_rev (changelog repo) (linknode_of e) = None ->
  exists res,
    _linkrev filelog_ancestormap repo s = (Ok res, s1) /\
    forall r, res = Some r <->
      0 < r < cl_len cl /\ introduces cl (_path self) (_fileid self) r /\
      forall q, r < q < cl_len cl -> ~ introduces cl (_path self) (_fileid self) q.
Proof.
  intros cl self Hnn Hm He Hrev. eexists. split.
  - unfold _linkrev. unfold bind at 1. unfold gets at 1.
    rewrite bool_decide_eq_false_2 by exact Hnn.
    rewrite (bind_ok _ _ _ _ _ Hm). unfold bind, getitem. fold self.
    rewrite He. unfold ret at 1. rewrite Hrev. reflexivity.
  - intros r. fold cl self. rewrite linkrev_scan_first. unfold introduces. split.
    + intros (pre & post & E & Hr & Fpre).
      assert (Hin : r ∈ range_down (cl_len cl - 1) 0).
      { rewrite E. apply elem_of_app. right. apply list_elem_of_here. }
      apply range_down_spec in Hin. split; [lia|]. split; [exact Hr|].
      intros q Hq Hi. apply Hi.
      rewrite Forall_forall in Fpre. apply Fpre.
      apply (range_down_split _ _ _ _ _ E). lia.
    + intros (Hr & Hi & Habove).
      assert (Hin : r ∈ range_down (cl_len cl - 1) 0) by (apply range_down_spec; lia).
      apply list_elem_of_split in Hin as (pre & post & E).
      exists pre, post. split; [exact E|]. split; [exact Hi|].
      apply Forall_forall. intros q Hq.
      apply (range_down_split _ _ _ _ _ E) in Hq.
      destruct (_nodefromancrev q cl (manifestlog repo) (_path self) (_fileid self))
        eqn:Eq; [|reflexivity].
      exfalso. apply (Habove q); [lia|]. unfold introduces. now rewrite Eq.
Qed.

(** X10. [_linkrev] of the null file node is [nullrev], with no call at
    all; and when the node map resolves the recorded linknode, [_linkrev]
    is its revision, with nothing read but the map. *)
Theorem linkrev_without_scan s :
  (_fileid (st_self s) = FidStr nullid ->
   _linkrev filelog_ancestormap repo s = (Ok (Some nullrev), s)) /\
  (forall (m : ancmap) s1 (e : ancentry) (r : Z),
     _fileid (st_self s) <> FidStr nullid ->
     ancestormap filelog_ancestormap s = (Ok m, s1) ->
     m !! _fileid (st_self s) = Some e ->
     cl_rev (changelog repo) (linknode_of e) = Some r ->
     _linkrev filelog_ancestormap repo s = (Ok (Some r), s1)).
Proof.
  split.
  - intros H. unfold _linkrev, bind, gets.
    now rewrite bool_decide_eq_true_2 by exact H.
  - intros m s1 e r Hnn Hm He Hrev.
    unfold _linkrev. unfold bind at 1. unfold gets at 1.
    rewrite bool_decide_eq_false_2 by exact Hnn.
    rewrite (bind_ok _ _ _ _ _ Hm). unfold bind, getitem.
    rewrite He. unfold ret at 1. now rewrite Hrev.
Qed.

(** After [linkrev()] returned, the value is kept on the context. *)
Lemma linkrev_cached s r s1 :
  linkrev filelog_ancestormap repo s = (Ok r, s1) ->
  _linkrev_cached (st_self s1) = Some r.
Proof.
  unfold linkrev. unfold bind at 1. unfold gets at 1.
  destruct (_linkrev_cached (st_self s)) as [r0|] eqn:Hc.
  - intros [= <- <-]. exact Hc.
  - intros E. apply bind_inv in E as (r1 & s2 & _ & E). inversion E; subst.
    reflexivity.
Qed.

(** X11. [linkrev()] is computed once: after a call that returned,
    whatever it returned ([None] of a scan that found nothing as well),
    the next call returns the same value and changes nothing. *)
Theorem linkrev_memoized s (r : pyrev) s1 :
  linkrev filelog_ancestormap repo s = (Ok r, s1) ->
  linkrev filelog_ancestormap repo s1 = (Ok r, s1).
Proof.
  intros E. apply linkrev_cached in E.
  unfold linkrev, bind, gets. now rewrite E.
Qed.

Lemma rev_hit s r :
  _changeid (st_self s) = Some r ->
  rev filelog_ancestormap fileservice_prefetch call_conduit repo s = (Ok r, s).
Proof. intros Hc. unfold rev, bind, gets. now rewrite Hc. Qed.

Lemma rev_cached s r s1 :
  rev filelog_ancestormap fileservice_prefetch call_conduit repo s = (Ok r, s1) ->
  _changeid (st_self s1) = Some r.
Proof.
  unfold rev. unfold bind at 1. unfold gets at 1.
  destruct (_changeid (st_self s)) as [r0|] eqn:Hc.
  - intros [= <- <-]. exact Hc.
  - intros E. apply bind_inv in E as (r1 & s2 & _ & E). inversion E; subst.
    reflexivity.
Qed.

(** X12. [rev()] is computed once as well: a context built with a
    changeset revision answers it with no call, and after any call that
    returned the next call returns the same value and changes nothing. *)
Theorem rev_memoized s :
  (forall r, _changeid (st_self s) = Some r ->
     rev filelog_ancestormap fileservice_prefetch call_conduit repo s = (Ok r, s)) /\
  (forall r s1,
     rev filelog_ancestormap fileservice_prefetch call_conduit repo s = (Ok r, s1) ->
     rev filelog_ancestormap fileservice_prefetch call_conduit repo s1 = (Ok r, s1)).
Proof.
  split; [intros r; apply rev_hit|].
  intros r s1 E. apply rev_hit. eapply rev_cached, E.
Qed.

(** *** Attributes the methods leave alone *)

Lemma same_but_caches_refl c : same_but_caches c c.
Proof. repeat split. Qed.

Lemma same_but_caches_trans c1 c2 c3 :
  same_but_caches c1 c2 -> same_but_caches c2 c3 -> same_but_caches c1 c3.
Proof.
  intros (?&?&?&?&?&?) (?&?&?&?&?&?). repeat split; congruence.
Qed.

Lemma keeps_attrs_pure {A} (m : M (@state Store) A) :
  (forall s r s', m s = (r, s') -> st_self s' = st_self s) -> keeps_attrs m.
Proof. intros H s r s' E. rewrite (H _ _ _ E). apply same_but_caches_refl. Qed.

Lemma keeps_attrs_bind {A B} (m : M (@state Store) A) (k : A -> M state B) :
  keeps_attrs m -> (forall a, keeps_attrs (k a)) -> keeps_attrs (bind m k).
Proof.
  intros Hm Hk s r s' E. unfold bind in E.
  destruct (m s) as [[a|e] s1] eqn:Em.
  - eapply same_but_caches_trans; [eapply Hm, Em|eapply Hk, E].
  - inversion E; subst. eapply Hm, Em.
Qed.

Lemma keeps_attrs_ancestormap : keeps_attrs (ancestormap filelog_ancestormap).
Proof.
  intros s r s' E. destruct r as [m|e].
  - revert E. unfold ancestormap. unfold bind at 1. unfold gets at 1.
    destruct (ancestormap_truthy (_ancestormap (st_self s))).
    + intros [= <- <-]. apply same_but_caches_refl.
    + intros E. apply bind_inv in E as (m0 & s1 & Ef & E). inversion E; subst.
      assert (Hs : st_self s1 = st_self s).
      { destruct (kind (st_self s)) as [|pcl renamed].
        - unfold fetch_ancestormap, bind in Ef. rewrite emit_eq in Ef.
          unfold call, in_world, call_w in Ef. simpl in Ef.
          destruct (filelog_ancestormap _ _ _) as [[?|?] ?]; inversion Ef; reflexivity.
        - unfold working_ancestormap in Ef.
          apply bind_inv in Ef as (p1 & sa & Ea & Ef).
          apply bind_inv in Ef as (ma & sb & Eb & Ef).
          apply bind_inv in Ef as (mb & sc & Ec & Ef). inversion Ef; subst.
          rewrite (proj1 (update_from_parent_spec _ _ _ _ _ _ Ec)).
          rewrite (proj1 (update_from_parent_spec _ _ _ _ _ _ Eb)).
          destruct renamed; [now inversion Ea|]. destruct pcl; now inversion Ea. }
      simpl. rewrite Hs. repeat split.
  - rewrite (ancestormap_raise_self _ _ _ _ E). apply same_but_caches_refl.
Qed.

Lemma keeps_attrs_linkrev : keeps_attrs (linkrev filelog_ancestormap repo).
Proof.
  unfold linkrev. apply keeps_attrs_bind.
  { apply keeps_attrs_pure. now intros s r s' [= <- <-]. }
  intros self. destruct (_linkrev_cached self).
  { apply keeps_attrs_pure. now intros s r s' [= <- <-]. }
  apply keeps_attrs_bind.
  - unfold _linkrev. apply keeps_attrs_bind.
    { apply keeps_attrs_pure. now intros s r s' [= <- <-]. }
    intros self'. case_bool_decide.
    { apply keeps_attrs_pure. now intros s r s' [= <- <-]. }
    apply keeps_attrs_bind; [apply keeps_attrs_ancestormap|intros m].
    apply keeps_attrs_pure. intros s r s'. unfold bind, getitem.
    destruct (m !! _fileid self'); [|now intros [= <- <-]].
    unfold ret. destruct (cl_rev _ _); now intros [= <- <-].
  - intros r. intros s x s' [= <- <-]. repeat split.
Qed.

(** *** [introrev] *)

(** X13. A context with no changeset attached ([_changeid] and
    [_changectx] both missing) has [introrev()] equal to [linkrev()],
    failures included, whether or not a descendant revision is known:
    [_adjustlinknode] is not called. With a changeset attached whose
    revision is the linkrev, [introrev()] is that revision. Otherwise
    the linknode is adjusted from [rev()], the revision itself included
    in the traversal, and the result is the revision of the node found,
    or a [LookupError] when the node map does not resolve it. *)
Theorem introrev_cases s :
  let has_ctx := is_Some (_changeid (st_self s)) \/ is_Some (_changectx (st_self s)) in
  (~ has_ctx ->
   introrev filelog_ancestormap fileservice_prefetch call_conduit repo s
   = linkrev filelog_ancestormap repo s) /\
  (forall lkr s1 s2,
     has_ctx ->
     linkrev filelog_ancestormap repo s = (Ok lkr, s1) ->
     rev filelog_ancestormap fileservice_prefetch call_conduit repo s1 = (Ok lkr, s2) ->
     introrev filelog_ancestormap fileservice_prefetch call_conduit repo s
     = (Ok lkr, s2)) /\
  (forall lkr s1 r s2 n s3,
     has_ctx ->
     linkrev filelog_ancestormap repo s = (Ok lkr, s1) ->
     rev filelog_ancestormap fileservice_prefetch call_conduit repo s1 = (Ok r, s2) ->
     r <> lkr ->
     _adjustlinknode filelog_ancestormap fileservice_prefetch call_conduit repo
       (_path (st_self s2)) (_fileid (st_self s2)) r true s2 = (Ok n, s3) ->
     introrev filelog_ancestormap fileservice_prefetch call_conduit repo s
     = match cl_rev (changelog repo) n with
       | Some k => (Ok (Some k), s3)
       | None => (Raise LookupError, s3)
       end).
Proof.
  intros has_ctx.
  assert (Hattrs : forall lkr s1, linkrev filelog_ancestormap repo s = (Ok lkr, s1) ->
            _changeid (st_self s1) = _changeid (st_self s) /\
            _changectx (st_self s1) = _changectx (st_self s)).
  { intros lkr s1 E. destruct (keeps_attrs_linkrev _ _ _ E) as (_&_&?&?&_). auto. }
  assert (Hyes : forall c, is_Some (_changeid c) \/ is_Some (_changectx c) ->
            negb (bool_decide (is_Some (_changeid c)) || bool_decide (is_Some (_changectx c)))
            = false).
  { intros c [H|H].
    - now rewrite (bool_decide_eq_true_2 _ H).
    - rewrite (bool_decide_eq_true_2 (is_Some (_changectx c)) H).
      now rewrite orb_true_r. }
  split; [|split].
  - intros Hno. unfold introrev.
    destruct (linkrev filelog_ancestormap repo s) as [[lkr|x] s1] eqn:El.
    2:{ now rewrite (bind_raise _ _ _ _ _ El). }
    rewrite (bind_ok _ _ _ _ _ El). unfold bind at 1. unfold gets at 1.
    destruct (Hattrs _ _ eq_refl) as [H1 H2].
    rewrite bool_decide_eq_false_2
      by (rewrite H1; intros H; apply Hno; now left).
    rewrite bool_decide_eq_false_2
      by (rewrite H2; intros H; apply Hno; now right).
    reflexivity.
  - intros lkr s1 s2 Hctx El Er. unfold introrev.
    rewrite (bind_ok _ _ _ _ _ El). unfold bind at 1. unfold gets at 1.
    destruct (Hattrs _ _ El) as [H1 H2].
    rewrite Hyes by (rewrite H1, H2; exact Hctx).
    rewrite (bind_ok _ _ _ _ _ Er).
    now rewrite bool_decide_eq_true_2 by reflexivity.
  - intros lkr s1 r s2 n s3 Hctx El Er Hne Ea. unfold introrev.
    rewrite (bind_ok _ _ _ _ _ El). unfold bind at 1. unfold gets at 1.
    destruct (Hattrs _ _ El) as [H1 H2].
    rewrite Hyes by (rewrite H1, H2; exact Hctx).
    rewrite (bind_ok _ _ _ _ _ Er).
    rewrite bool_decide_eq_false_2 by exact Hne. cbn [orb].
    unfold bind at 1. unfold gets at 1.
    rewrite (bind_ok _ _ _ _ _ (rev_hit _ _ (rev_cached _ _ _ Er))).
    rewrite (bind_ok _ _ _ _ _ Ea).
    unfold bind, changelog_rev. destruct (cl_rev (changelog repo) n); reflexivity.
Qed.

(** *** [parents] *)

Lemma new_remotefilectx_node path (id : string) (m : ancmap) :
  String.length id <> 40%nat ->
  new_remotefilectx path None (FidStr id) None (Some m)
  = Ok {| _path := path; _fileid := FidStr id; _changeid := None; _changectx := None;
          _descendantrev := None; _linkrev_cached := None; _ancestormap := Some m;
          kind := Committed |}.
Proof.
  intros H. unfold new_remotefilectx, normalize_fileid.
  apply Nat.eqb_neq in H.
  destruct (fileid_truthy (FidStr id)); [rewrite H|]; reflexivity.
Qed.

Lemma parents_spec s (m : ancmap) s1 (p1 p2 ln cf : string) :
  ancestormap filelog_ancestormap s = (Ok m, s1) ->
  m !! _fileid (st_self s) = Some (p1, p2, ln, cf) ->
  String.length p1 <> 40%nat -> String.length p2 <> 40%nat ->
  (p1 = nullid -> p2 = nullid ->
   parents filelog_ancestormap fileservice_prefetch call_conduit repo s = (Ok [], s1)) /\
  (forall r s2,
     p1 <> nullid \/ p2 <> nullid ->
     rev filelog_ancestormap fileservice_prefetch call_conduit repo s1 = (Ok r, s2) ->
     parents filelog_ancestormap fileservice_prefetch call_conduit repo s
     = (Ok (parent_ctxs (_path (st_self s)) (p1, p2, ln, cf) m r), s2)).
Proof.
  intros Hm He H1 H2.
  destruct (keeps_file_ancestormap filelog_ancestormap _ _ _ Hm) as [Hp1 Hf1].
  assert (Hunf :
    parents filelog_ancestormap fileservice_prefetch call_conduit repo s
    = bind (if bool_decide (p1 <> nullid) then
              bind (lift (new_remotefilectx
                            (if String.eqb cf "" then _path (st_self s1) else cf)
                            None (FidStr p1) None (Some m)))
                (fun p1ctx =>
                   bind (rev filelog_ancestormap fileservice_prefetch call_conduit repo)
                     (fun r => ret [set_descendantrev p1ctx r]))
            else ret [])
        (fun r1 =>
           bind (if bool_decide (p2 <> nullid) then
                   bind (gets st_self)
                     (fun self =>
                        bind (lift (new_remotefilectx (_path self) None
                                      (FidStr p2) None (Some m)))
                          (fun p2ctx =>
                             bind (rev filelog_ancestormap fileservice_prefetch
                                     call_conduit repo)
                               (fun r => ret [set_descendantrev p2ctx r])))
                 else ret [])
             (fun r2 => ret (r1 ++ r2))) s1).
  { unfold parents. rewrite (bind_ok _ _ _ _ _ Hm).
    unfold bind at 1. unfold gets at 1. unfold bind at 1, getitem. cbv beta.
    rewrite Hf1.
    match goal with
    | |- context [@lookup ?K ?A ?T ?L ?k m] =>
        replace (@lookup K A T L k m) with (Some (p1, p2, ln, cf) : option ancentry)
          by (symmetry; exact He)
    end.
    reflexivity. }
  rewrite Hunf. clear Hunf. split.
  - intros -> ->. unfold bind.
    rewrite !bool_decide_eq_false_2 by (intros H; now apply H). reflexivity.
  - intros r s2 Hne Er.
    pose proof (rev_hit _ _ (rev_cached _ _ _ Er)) as Er2.
    destruct (keeps_file_rev filelog_ancestormap fileservice_prefetch call_conduit repo
                _ _ _ Er) as [Hp2 _].
    unfold parent_ctxs.
    destruct (decide (p1 = nullid)) as [E1|E1]; destruct (decide (p2 = nullid)) as [E2|E2].
    + destruct Hne; contradiction.
    + rewrite (bool_decide_eq_true_2 _ E1), (bool_decide_eq_false_2 _ E2).
      rewrite (bool_decide_eq_false_2 (p1 <> nullid)) by (intros H; now apply H).
      rewrite (bool_decide_eq_true_2 (p2 <> nullid)) by exact E2.
      unfold bind, lift, gets, ret. cbv beta iota.
      rewrite (new_remotefilectx_node _ _ _ H2), Er, Hp1. reflexivity.
    + rewrite (bool_decide_eq_false_2 _ E1), (bool_decide_eq_true_2 _ E2).
      rewrite (bool_decide_eq_true_2 (p1 <> nullid)) by exact E1.
      rewrite (bool_decide_eq_false_2 (p2 <> nullid)) by (intros H; now apply H).
      unfold bind, lift, gets, ret. cbv beta iota.
      rewrite (new_remotefilectx_node _ _ _ H1), Er, Hp1, app_nil_r. reflexivity.
    + rewrite (bool_decide_eq_false_2 _ E1), (bool_decide_eq_false_2 _ E2).
      rewrite (bool_decide_eq_true_2 (p1 <> nullid)) by exact E1.
      rewrite (bool_decide_eq_true_2 (p2 <> nullid)) by exact E2.
      unfold bind, lift, gets, ret. cbv beta iota.
      rewrite (new_remotefilectx_node _ _ _ H1), Er.
      rewrite (new_remotefilectx_node _ _ _ H2), Er2, Hp2, Hp1. reflexivity.
Qed.

(** X14. With the entry [(p1, p2, _, copyfrom)] of the context's file
    node (parent nodes not 40 characters long), [parents()] returns a
    context for [p1] and a context for [p2], in this order, leaving out
    a parent that is [nullid]. The first is at the copy source path
    when the entry names one, the second always at the context's own
    path; each shares the map this call read and has [rev()] as its
    descendant revision. With both parents [nullid] the list is empty
    and [rev()] is not even computed. *)
Theorem parents_of_entry s (m : ancmap) s1 (p1 p2 ln cf : string) :
  ancestormap filelog_ancestormap s = (Ok m, s1) ->
  m !! _fileid (st_self s) = Some (p1, p2, ln, cf) ->
  String.length p1 <> 40%nat -> String.length p2 <> 40%nat ->
  (p1 = nullid -> p2 = nullid ->
   parents filelog_ancestormap fileservice_prefetch call_conduit repo s = (Ok [], s1)) /\
  (forall r s2,
     p1 <> nullid \/ p2 <> nullid ->
     rev filelog_ancestormap fileservice_prefetch call_conduit repo s1 = (Ok r, s2) ->
     parents filelog_ancestormap fileservice_prefetch call_conduit repo s
     = (Ok (parent_ctxs (_path (st_self s)) (p1, p2, ln, cf) m r), s2)).
Proof. apply parents_spec. Qed.

Lemma working_ancestormap_entry path m0 pcl' renamed s (m : ancmap) s1 :
  kind (st_self s) = Working (m0 :: pcl') renamed ->
  _path (st_self s) = path ->
  ancestormap_truthy (_ancestormap (st_self s)) = false ->
  ancestormap filelog_ancestormap s = (Ok m, s1) ->
  m !! FidNone = Some (working_entry path m0 pcl' renamed).
Proof.
  intros Hk Hp Ht. unfold ancestormap. unfold bind at 1. unfold gets at 1.
  rewrite Ht, Hk, Hp. intros E.
  apply bind_inv in E as (m1 & s2 & Ew & E). inversion E; subst m1 s1. clear E.
  unfold working_ancestormap in Ew.
  apply bind_inv in Ew as (p1 & sa & Ea & Ew).
  apply bind_inv in Ew as (ma & sb & _ & Ew).
  apply bind_inv in Ew as (mb & sc & _ & Ew).
  inversion Ew; subst. rewrite lookup_insert_eq. unfold working_entry.
  destruct renamed as [r|]; [inversion Ea; subst|inversion Ea; subst];
    destruct pcl'; reflexivity.
Qed.

(** X15. The parents of a working-copy file context (one whose map is
    not built yet) are read off its synthetic entry: a context for the
    first parent node, at the copy source path when the file was
    renamed, and one for the second parent node at the file's own path,
    [nullid] parents left out; their descendant revision is [None], the
    working directory. Nothing is asked beyond what [ancestormap()]
    asks. *)
Theorem working_parents
    (path : string) (m0 : gmap string string) (pcl' : list (gmap string string))
    (renamed : option (string * string)) s (m : ancmap) s1 :
  let e := working_entry path m0 pcl' renamed in
  kind (st_self s) = Working (m0 :: pcl') renamed ->
  _path (st_self s) = path ->
  _fileid (st_self s) = FidNone ->
  _changeid (st_self s) = Some None ->
  ancestormap_truthy (_ancestormap (st_self s)) = false ->
  String.length e.1.1.1 <> 40%nat -> String.length e.1.1.2 <> 40%nat ->
  ancestormap filelog_ancestormap s = (Ok m, s1) ->
  parents filelog_ancestormap fileservice_prefetch call_conduit repo s
  = (Ok (parent_ctxs path e m None), s1).
Proof.
  intros e Hk Hp Hf Hc Ht H1 H2 Hm.
  pose proof (working_ancestormap_entry _ _ _ _ _ _ _ Hk Hp Ht Hm) as He.
  fold e in He. destruct e as [[[p1 p2] ln] cf] eqn:Ee. cbn [fst snd] in H1, H2.
  rewrite <- Hf in He.
  destruct (parents_spec s m s1 p1 p2 ln cf Hm He H1 H2) as [Hnone Hsome].
  assert (Er : rev filelog_ancestormap fileservice_prefetch call_conduit repo s1
               = (Ok None, s1)).
  { apply rev_hit. destruct (keeps_attrs_ancestormap _ _ _ Hm) as (_&_&Hc1&_).
    now rewrite Hc1. }
  destruct (decide (p1 = nullid)) as [E1|E1]; destruct (decide (p2 = nullid)) as [E2|E2].
  - rewrite (Hnone E1 E2). unfold parent_ctxs.
    now rewrite (bool_decide_eq_true_2 _ E1), (bool_decide_eq_true_2 _ E2).
  - rewrite (Hsome None s1 (or_intror E2) Er), Hp. reflexivity.
  - rewrite (Hsome None s1 (or_introl E1) Er), Hp. reflexivity.
  - rewrite (Hsome None s1 (or_introl E1) Er), Hp. reflexivity.
Qed.

(** *** [_linknodeviafastlog] *)

Lemma linknodeviafastlog_called path srcrev fnode cl s res st :
  have_conduit repo = true ->
  call_conduit (fbconduit_reponame repo) (hex (cl_node (changelog repo) srcrev)) path
    (w_store (st_world s)) = (res, st) ->
  _linknodeviafastlog call_conduit repo path srcrev fnode cl s
  = match res with
    | Ok (Some l) =>
        match fastlog_scan repo l cl path fnode (after_conduit path srcrev st s) with
        | (Ok hit, s') => (Ok hit, s')
        | (Raise _, s') =>
            (Ok None, add_trace s' [EvLog "linkrevfixup" "call to fastlog failed"])
        end
    | Ok None =>
        (Ok None, add_trace (after_conduit path srcrev st s)
                    [EvLog "linkrevfixup" "fastlog returned 0 results"])
    | Raise _ =>
        (Ok None, add_trace (after_conduit path srcrev st s)
                    [EvLog "linkrevfixup" "call to fastlog failed"])
    end.
Proof.
  intros Hc Ecall. unfold _linknodeviafastlog. unfold bind at 1. rewrite emit_eq, Hc.
  cbn [negb]. unfold try_except. unfold bind at 1. rewrite emit_eq.
  unfold bind at 1. unfold call, in_world, call_w. simpl. rewrite Ecall.
  assert (Hs : {| st_self := st_self s;
                  st_world :=
                    {| w_store := st;
                       w_trace := (w_trace (st_world s) ++ [EvFastlog path srcrev])
                                  ++ [EvConduit (fbconduit_reponame repo)
                                        (hex (cl_node (changelog repo) srcrev)) path] |} |}
               = after_conduit path srcrev st s).
  { unfold after_conduit. now rewrite <- app_assoc. }
  rewrite Hs. destruct res as [[l|]|x]; reflexivity.
Qed.

(** X16. [_linknodeviafastlog] never raises and never touches the
    context. Without a conduit it answers [None], and neither the store
    nor the conduit is reached. With one, an exception of the call or
    an answer of [None] gives [None], with a line in the log. *)
Theorem linknodeviafastlog_absorbs_failures
    (path : string) (srcrev : Z) (fnode : pyfileid) (cl : changelog_t) s :
  (exists hit s',
     _linknodeviafastlog call_conduit repo path srcrev fnode cl s = (Ok hit, s') /\
     st_self s' = st_self s) /\
  (have_conduit repo = false ->
   exists d,
     _linknodeviafastlog call_conduit repo path srcrev fnode cl s
     = (Ok None, add_trace s d) /\
     forall reponame srchex p, EvConduit reponame srchex p ∉ d) /\
  (forall res st,
     have_conduit repo = true ->
     call_conduit (fbconduit_reponame repo) (hex (cl_node (changelog repo) srcrev)) path
       (w_store (st_world s)) = (res, st) ->
     (forall l, res <> Ok (Some l)) ->
     _linknodeviafastlog call_conduit repo path srcrev fnode cl s
     = (Ok None,
        add_trace (after_conduit path srcrev st s)
          [EvLog "linkrevfixup"
             (match res with
              | Ok _ => "fastlog returned 0 results"
              | Raise _ => "call to fastlog failed"
              end)])).
Proof.
  split; [|split].
  - destruct (linknodeviafastlog_spec call_conduit repo path srcrev fnode cl s)
      as (hit & s' & d & E & Hs & _).
    eauto.
  - intros Hc. exists [EvFastlog path srcrev]. split.
    + unfold _linknodeviafastlog, bind. rewrite emit_eq, Hc. reflexivity.
    + intros reponame srchex p Hin. apply list_elem_of_singleton in Hin.
      discriminate.
  - intros res st Hc Ecall Hres.
    rewrite (linknodeviafastlog_called _ _ _ _ _ _ _ Hc Ecall).
    destruct res as [[l|]|x]; try reflexivity. now destruct (Hres l).
Qed.

Lemma fastlog_scan_skip pre rest cl path fnode s :
  Forall (no_hit cl path fnode) pre ->
  fastlog_scan repo (pre ++ rest) cl path fnode s
  = fastlog_scan repo rest cl path fnode s.
Proof.
  induction 1 as [|h pre (r & Hr & Hn) _ IH]; [reflexivity|].
  cbn [app fastlog_scan]. now rewrite Hr, Hn.
Qed.

(** X17. Fastlog's answer is read in order. The first listed hash that
    resolves to a commit with the file node for the path gives the
    result, the node of that commit. But a hash that does not resolve,
    met before any such commit, ends the call with [None] and a line in
    the log, whatever the hashes after it. *)
Theorem linknodeviafastlog_first_hit
    (path : string) (srcrev : Z) (fnode : pyfileid) (cl : changelog_t) s
    (pre : list string) (h : string) (post : list string) (st : Store) :
  have_conduit repo = true ->
  call_conduit (fbconduit_reponame repo) (hex (cl_node (changelog repo) srcrev)) path
    (w_store (st_world s)) = (Ok (Some (pre ++ h :: post)), st) ->
  Forall (no_hit cl path fnode) pre ->
  (forall r n,
     lookup_hash repo h = Some r ->
     _nodefromancrev r cl (manifestlog repo) path fnode = Some n ->
     _linknodeviafastlog call_conduit repo path srcrev fnode cl s
     = (Ok (Some n), after_conduit path srcrev st s)) /\
  (lookup_hash repo h = None ->
   _linknodeviafastlog call_conduit repo path srcrev fnode cl s
   = (Ok None,
      add_trace (after_conduit path srcrev st s)
        [EvLog "linkrevfixup" "call to fastlog failed"])).
Proof.
  intros Hc Ecall Fpre.
  rewrite (linknodeviafastlog_called _ _ _ _ _ _ _ Hc Ecall).
  rewrite (fastlog_scan_skip _ _ _ _ _ _ Fpre). cbn [fastlog_scan]. split.
  - intros r n Hr Hn. now rewrite Hr, Hn.
  - intros Hr. now rewrite Hr.
Qed.

End MoreFacts.


(** *** The constructor *)

Lemma bin_length_below (n : nat) (s b : string) :
  (String.length s <= n)%nat -> bin s = Ok b ->
  String.length s = (2 * String.length b)%nat.
Proof.
  revert s b. induction n as [|n IH]; intros s b Hl.
  - destruct s; [|cbn in Hl; lia]. intros [= <-]. reflexivity.
  - destruct s as [|a [|c r]]; cbn [bin].
    + intros [= <-]. reflexivity.
    + discriminate.
    + destruct (unhexdigit a); [|discriminate]. destruct (unhexdigit c); [|discriminate].
      destruct (bin r) as [t|e] eqn:Er; [|discriminate].
      intros [= <-]. cbn [String.length] in *.
      rewrite (IH r t); [lia|lia|exact Er].
Qed.

Lemma bin_length (s b : string) :
  bin s = Ok b -> String.length s = (2 * String.length b)%nat.
Proof. apply (bin_length_below (String.length s)). lia. Qed.

(** X18. What the constructor stores is stable: storing it again (as
    [filectx()] and [annotate] do when they build a context from
    [self._fileid]) stores the same value, without error. *)
Theorem normalize_fileid_idempotent (f g : pyfileid) :
  normalize_fileid f = Ok g -> normalize_fileid g = Ok g.
Proof.
  assert (Hstr : forall s, (String.length s =? 40)%nat = false ->
            normalize_fileid (FidStr s) = Ok (FidStr s)).
  { intros s Hs. unfold normalize_fileid.
    destruct (fileid_truthy (FidStr s)); [now rewrite Hs|reflexivity]. }
  assert (Hnull : normalize_fileid (FidStr nullid) = Ok (FidStr nullid))
    by reflexivity.
  unfold normalize_fileid at 1. destruct f as [|z|s].
  - intros [= <-]. reflexivity.
  - destruct (z =? nullrev) eqn:Ez.
    + cbn. intros [= <-]. exact Hnull.
    + cbn [fileid_truthy]. destruct (z =? 0) eqn:E0; cbn [negb]; [|discriminate].
      intros [= <-]. unfold normalize_fileid. rewrite Ez. cbn [fileid_truthy].
      now rewrite E0.
  - destruct (fileid_truthy (FidStr s)) eqn:Ht.
    + destruct (String.length s =? 40)%nat eqn:Hs.
      * destruct (bin s) as [b|e] eqn:Eb; [|discriminate].
        intros [= <-]. apply Hstr. apply bin_length in Eb.
        apply Nat.eqb_eq in Hs. apply Nat.eqb_neq. lia.
      * intros [= <-]. now apply Hstr.
    + intros [= <-]. destruct s; [reflexivity|discriminate Ht].
Qed.

(** X19. The constructor fails in two cases only: on an int other than
    0 and [nullrev] ([len] of an int), and on a string of 40 characters
    that [bin] refuses. *)
Theorem normalize_fileid_raises (f : pyfileid) (e : exn) :
  normalize_fileid f = Raise e <->
  (exists z, f = FidInt z /\ z <> 0 /\ z <> nullrev /\ e = TypeError) \/
  (exists s, f = FidStr s /\ String.length s = 40%nat /\ bin s = Raise e).
Proof.
  unfold normalize_fileid. destruct f as [|z|s].
  - split; [discriminate|]. intros [(z & [=] & _)|(s & [=] & _)].
  - destruct (Z.eqb_spec z nullrev) as [Ez|Ez].
    + cbn. split; [discriminate|].
      intros [(z' & [= <-] & _ & H & _)|(s & [=] & _)]. contradiction.
    + cbn [fileid_truthy]. destruct (Z.eqb_spec z 0) as [E0|E0]; cbn [negb].
      * split; [discriminate|].
        intros [(z' & [= <-] & H & _)|(s & [=] & _)]. contradiction.
      * split.
        -- intros [= <-]. left. exists z. auto.
        -- intros [(z' & _ & _ & _ & ->)|(s & [=] & _)]. reflexivity.
  - destruct (fileid_truthy (FidStr s)) eqn:Ht.
    + destruct (Nat.eqb_spec (String.length s) 40) as [Hs|Hs].
      * destruct (bin s) as [b|x] eqn:Eb.
        -- split; [discriminate|].
           intros [(z & [=] & _)|(s' & [= <-] & _ & H)]. congruence.
        -- split.
           ++ intros [= <-]. right. exists s. auto.
           ++ intros [(z & [=] & _)|(s' & [= <-] & _ & H)]. congruence.
      * split; [discriminate|].
        intros [(z & [=] & _)|(s' & [= <-] & H & _)]. contradiction.
    + split; [discriminate|].
      intros [(z & [=] & _)|(s' & [= <-] & H & _)].
      cbn in Ht. destruct s; [discriminate H|discriminate Ht].
Qed.

(** ** [ancestors] *)

Section WalkFacts.

Context {Store : Type}.
Variable filelog_ancestormap :
  string -> pyfileid -> Store -> result ancmap * Store.
Variable fileservice_prefetch :
  list (string * string) -> bool -> Store -> result unit * Store.
Variable call_conduit :
  string -> string -> string -> Store -> result (option (list string)) * Store.
Variable repo : repo_t.

#[local] Abbreviation ancestormap := (ancestormap filelog_ancestormap) (only parsing).
#[local] Abbreviation linkrev := (linkrev filelog_ancestormap repo) (only parsing).
#[local] Abbreviation rev :=
  (rev filelog_ancestormap fileservice_prefetch call_conduit repo) (only parsing).
#[local] Abbreviation parents :=
  (parents filelog_ancestormap fileservice_prefetch call_conduit repo) (only parsing).
#[local] Abbreviation ancestors_step :=
  (ancestors_step filelog_ancestormap fileservice_prefetch call_conduit repo)
  (only parsing).
#[local] Abbreviation ancestors_loop :=
  (ancestors_loop filelog_ancestormap fileservice_prefetch call_conduit repo)
  (only parsing).
#[local] Abbreviation ancestors_walk :=
  (ancestors_walk filelog_ancestormap fileservice_prefetch call_conduit repo)
  (only parsing).
#[local] Abbreviation with_linkrevs :=
  (with_linkrevs filelog_ancestormap repo) (only parsing).
#[local] Abbreviation ancestors :=
  (ancestors filelog_ancestormap fileservice_prefetch call_conduit repo)
  (only parsing).

Implicit Types (s : @state Store) (w : @world Store) (c : remotefilectx).

Lemma keeps_file_parents : keeps_file parents.
Proof.
  unfold parents.
  apply keeps_file_bind; [apply keeps_file_ancestormap|intros m].
  apply keeps_file_bind; [apply keeps_file_gets|intros self].
  apply keeps_file_bind; [apply keeps_file_getitem|intros [[[p1 p2] ln] cf]].
  apply keeps_file_bind.
  { case_bool_decide; [|apply keeps_file_ret].
    apply keeps_file_bind; [apply keeps_file_lift|intros c].
    apply keeps_file_bind; [apply keeps_file_rev|intros r; apply keeps_file_ret]. }
  intros r1. apply keeps_file_bind; [|intros r2; apply keeps_file_ret].
  case_bool_decide; [|apply keeps_file_ret].
  apply keeps_file_bind; [apply keeps_file_gets|intros self'].
  apply keeps_file_bind; [apply keeps_file_lift|intros c].
  apply keeps_file_bind; [apply keeps_file_rev|intros r; apply keeps_file_ret].
Qed.


Lemma on_inv {A} c (m : M (@state Store) A) w a c' w' :
  on c m w = (Ok (a, c'), w') ->
  m {| st_self := c; st_world := w |} = (Ok a, {| st_self := c'; st_world := w' |}).
Proof.
  unfold on. destruct (m _) as [[x|e] [c0 w0]]; [|discriminate].
  now intros [= <- <- <-].
Qed.

(** *** The sort *)

Lemma insert_desc_perm x l : insert_desc x l ≡ₚ x :: l.
Proof.
  induction l as [|y l IH]; cbn [insert_desc]; [reflexivity|].
  destruct (pyrev_ltb x.1 y.1); [|reflexivity].
  rewrite IH. apply Permutation_swap.
Qed.

Lemma sorted_desc_perm l : sorted_desc l ≡ₚ l.
Proof.
  induction l as [|x l IH]; [reflexivity|].
  cbn [sorted_desc foldr]. fold (sorted_desc l).
  now rewrite insert_desc_perm, IH.
Qed.

Lemma pyrev_ltb_asym (a b : pyrev) : pyrev_ltb a b = true -> pyrev_ltb b a = false.
Proof. destruct a, b; cbn; try congruence; lia. Qed.

Lemma pyrev_ltb_trans (a b k : pyrev) :
  pyrev_ltb a b = false -> pyrev_ltb b k = false -> pyrev_ltb a k = false.
Proof. destruct a, b, k; cbn; try congruence; lia. Qed.

Lemma insert_desc_sorted (x : pyrev * remotefilectx) l :
  StronglySorted (fun a b => pyrev_ltb a.1 b.1 = false) l ->
  StronglySorted (fun a b => pyrev_ltb a.1 b.1 = false) (insert_desc x l).
Proof.
  induction 1 as [|y l Hl IH Hy]; cbn [insert_desc].
  - repeat constructor.
  - destruct (pyrev_ltb x.1 y.1) eqn:E.
    + constructor; [exact IH|].
      rewrite insert_desc_perm. constructor; [now apply pyrev_ltb_asym|exact Hy].
    + constructor; [now constructor|]. constructor; [exact E|].
      eapply Forall_impl; [exact Hy|]. intros z Hz. cbn beta in *.
      eapply pyrev_ltb_trans; [exact E|exact Hz].
Qed.

Lemma sorted_desc_sorted l :
  StronglySorted (fun a b => pyrev_ltb a.1 b.1 = false) (sorted_desc l).
Proof.
  induction l as [|x l IH]; [constructor|].
  cbn [sorted_desc foldr]. now apply insert_desc_sorted.
Qed.

(** *** The keys *)

Lemma with_linkrevs_spec l w keyed w' :
  with_linkrevs l w = (Ok keyed, w') ->
  Forall2 (fun c kc => same_file c kc.2 /\ _linkrev_cached kc.2 = Some kc.1) l keyed.
Proof.
  revert w keyed. induction l as [|c l IH]; intros w keyed; cbn [with_linkrevs].
  - intros [= <- <-]. constructor.
  - intros E. apply bind_inv_w in E as ([k c'] & w1 & E1 & E).
    apply bind_inv_w in E as (keyed' & w2 & E2 & E). inversion E; subst.
    constructor; [|eapply IH, E2]. cbn [fst snd]. split.
    + eapply on_keeps_file; [|exact E1]. apply keeps_file_linkrev.
    + apply on_inv in E1. now apply linkrev_cached in E1.
Qed.


(** *** The loop *)

Lemma ancestors_step_seen followfirst current v w v' w' :
  NoDup (map _fileid (anc_list v)) ->
  (forall c, c ∈ anc_list v -> _fileid c ∈ anc_seen v) ->
  ancestors_step followfirst current v w = (Ok v', w') ->
  NoDup (map _fileid (anc_list v')) /\
  (forall c, c ∈ anc_list v' -> _fileid c ∈ anc_seen v') /\
  exists l', anc_list v' = anc_list v ++ l'.
Proof.
  intros Hnd Hseen. unfold ancestors_step. case_bool_decide as Hin.
  - intros [= <- <-]. split; [exact Hnd|]. split; [exact Hseen|].
    exists []. now rewrite app_nil_r.
  - intros E. apply bind_inv_w in E as ([ps current'] & w1 & Eon & E).
    inversion E; subst; clear E. cbn [anc_list anc_seen].
    assert (Hf : _fileid current' = _fileid current).
    { eapply on_keeps_file in Eon as [_ Hf]; [exact Hf|apply keeps_file_parents]. }
    split; [|split; [|eauto]].
    + rewrite map_app. apply NoDup_app. split; [exact Hnd|]. split.
      * intros f Hfl [->|[]%elem_of_nil]%elem_of_cons. apply Hin.
        rewrite Hf in Hfl.
        apply list_elem_of_In, in_map_iff in Hfl as (c & Hc & Hcl).
        rewrite <- Hc. now apply Hseen, list_elem_of_In.
      * cbn. apply NoDup_singleton.
    + intros c [Hc|Hc]%elem_of_app.
      * apply elem_of_union_r. now apply Hseen.
      * apply list_elem_of_singleton in Hc as ->. rewrite Hf.
        apply elem_of_union_l. now apply elem_of_singleton.
Qed.

Lemma ancestors_loop_seen n followfirst v w v' w' :
  NoDup (map _fileid (anc_list v)) ->
  (forall c, c ∈ anc_list v -> _fileid c ∈ anc_seen v) ->
  ancestors_loop n followfirst v w = (Ok v', w') ->
  NoDup (map _fileid (anc_list v')) /\
  exists l', anc_list v' = anc_list v ++ l'.
Proof.
  revert v w. induction n as [|n IH]; intros v w Hnd Hseen; cbn [ancestors_loop].
  - intros [= <- <-]. split; [exact Hnd|]. exists []. now rewrite app_nil_r.
  - destruct (anc_queue v) as [|current q].
    + intros [= <- <-]. split; [exact Hnd|]. exists []. now rewrite app_nil_r.
    + intros E. apply bind_inv_w in E as (v1 & w1 & Estep & E).
      apply ancestors_step_seen in Estep as (Hnd1 & Hseen1 & l1 & Hl1);
        [|exact Hnd|exact Hseen].
      apply IH in E as (Hnd' & l2 & Hl2); [|exact Hnd1|exact Hseen1].
      split; [exact Hnd'|]. exists (l1 ++ l2). rewrite Hl2, Hl1. cbn [anc_list].
      now rewrite app_assoc.
Qed.

Lemma ancestors_walk_head n self followfirst w v w' :
  ancestors_walk n self followfirst w = (Ok v, w') ->
  anc_queue v = [] ->
  exists c l, anc_list v = c :: l /\ _fileid c = _fileid self /\
              NoDup (map _fileid (c :: l)).
Proof.
  unfold ancestors_walk. destruct n as [|n]; cbn [ancestors_loop anc_queue].
  - intros [= <- <-]. discriminate.
  - intros E _. apply bind_inv_w in E as (v1 & w1 & Estep & E).
    revert Estep. unfold ancestors_step. cbn [anc_seen anc_list app].
    rewrite bool_decide_eq_false_2 by apply not_elem_of_empty.
    intros Estep. apply bind_inv_w in Estep as ([ps self'] & w2 & Eon & Estep).
    inversion Estep; subst; clear Estep.
    assert (Hf : _fileid self' = _fileid self).
    { eapply on_keeps_file in Eon as [_ Hf]; [exact Hf|apply keeps_file_parents]. }
    apply ancestors_loop_seen in E as (Hnd & l' & Hl).
    + cbn [anc_list app] in Hl. exists self', l'. rewrite <- Hl. auto.
    + cbn. apply NoDup_singleton.
    + cbn [anc_list anc_seen]. intros c Hc. apply list_elem_of_singleton in Hc as ->.
      rewrite Hf. apply elem_of_union_l. now apply elem_of_singleton.
Qed.

Lemma ancestors_inv n self followfirst w l w' :
  ancestors n self followfirst w = (Ok (Some l), w') ->
  exists v w1 c visited keyed,
    ancestors_walk n self followfirst w = (Ok v, w1) /\
    anc_list v = c :: visited /\
    _fileid c = _fileid self /\
    NoDup (map _fileid (c :: visited)) /\
    Forall2 (fun c kc => same_file c kc.2 /\ _linkrev_cached kc.2 = Some kc.1)
      visited keyed /\
    l = map snd (sorted_desc keyed).
Proof.
  unfold ancestors. intros E. apply bind_inv_w in E as (v & w1 & Ewalk & E).
  destruct (anc_queue v) as [|? ?] eqn:Eq; [|discriminate].
  destruct (ancestors_walk_head _ _ _ _ _ _ Ewalk Eq) as (c & visited & Hl & Hc & Hnd).
  rewrite Hl in E. apply bind_inv_w in E as (keyed & w2 & Ek & E).
  inversion E; subst. exists v, w1, c, visited, keyed.
  split; [exact Ewalk|]. split; [exact Hl|].
  split; [exact Hc|]. split; [exact Hnd|]. split; [|reflexivity].
  eapply with_linkrevs_spec, Ek.
Qed.

(** X20. [ancestors()] yields no file node twice, and never the file
    node of [self]. *)
Theorem ancestors_distinct
    (n : nat) (self : remotefilectx) (followfirst : bool) w
    (l : list remotefilectx) w' :
  ancestors n self followfirst w = (Ok (Some l), w') ->
  NoDup (_fileid self :: map _fileid l).
Proof.
  intros E.
  apply ancestors_inv in E as (v & w1 & c & visited & keyed & _ & _ & Hc & Hnd & Hk & ->).
  cbn [map] in Hnd. rewrite Hc in Hnd.
  assert (Hp : map _fileid (map snd (sorted_desc keyed)) ≡ₚ map _fileid visited).
  { rewrite (sorted_desc_perm keyed). clear -Hk.
    induction Hk as [|c0 kc l k [[_ Hf] _] _ IH]; [reflexivity|].
    cbn [map]. now rewrite Hf, IH. }
  now rewrite Hp.
Qed.

(** X21. The contexts come out by decreasing [linkrev()]: each
    yielded context has its linkrev cached, and no context has a
    linkrev below the linkrev of one yielded after it. *)
Theorem ancestors_sorted
    (n : nat) (self : remotefilectx) (followfirst : bool) w
    (l : list remotefilectx) w' :
  ancestors n self followfirst w = (Ok (Some l), w') ->
  exists keys,
    Forall2 (fun c k => _linkrev_cached c = Some k) l keys /\
    StronglySorted (fun a b => pyrev_ltb a b = false) keys.
Proof.
  intros E.
  apply ancestors_inv in E as (v & w1 & c & visited & keyed & _ & _ & _ & _ & Hk & ->).
  exists (map fst (sorted_desc keyed)). split.
  - assert (Hall : Forall (fun kc => _linkrev_cached kc.2 = Some kc.1) (sorted_desc keyed)).
    { rewrite (sorted_desc_perm keyed). clear -Hk.
      induction Hk as [|c0 kc l k [_ Hc] _ IH]; constructor; auto. }
    induction Hall as [|kc k Hkc _ IH]; cbn [map]; constructor; auto.
  - pose proof (sorted_desc_sorted keyed) as Hs.
    induction Hs as [|kc k _ IH Hkc]; cbn [map]; constructor; [exact IH|].
    clear -Hkc. induction Hkc; cbn [map]; constructor; auto.
Qed.


(** *** The loop ends *)

Lemma new_remotefilectx_map path changeid fid cctx (om : option ancmap) c :
  new_remotefilectx path changeid fid cctx om = Ok c -> _ancestormap c = om.
Proof.
  unfold new_remotefilectx. destruct (normalize_fileid fid); [|discriminate].
  now intros [= <-].
Qed.

Lemma parents_share s (m : ancmap) s1 ps s' :
  ancestormap s = (Ok m, s1) ->
  parents s = (Ok ps, s') ->
  Forall (fun p => _ancestormap p = Some m) ps /\ (List.length ps <= 2)%nat /\
  is_Some (m !! _fileid (st_self s)).
Proof.
  intros Em E. unfold parents in E. rewrite (bind_ok _ _ _ _ _ Em) in E.
  apply bind_inv in E as (self & s2 & Es & E).
  unfold gets in Es. inversion Es; subst self s2; clear Es.
  apply bind_inv in E as ([[[p1 p2] ln] cf] & s2 & Eg & E).
  assert (Hsome : is_Some (m !! _fileid (st_self s))).
  { destruct (keeps_file_ancestormap filelog_ancestormap _ _ _ Em) as [_ <-].
    revert Eg. unfold getitem. destruct (m !! _fileid (st_self s1)); [eauto|discriminate]. }
  apply bind_inv in E as (r1 & s3 & E1 & E).
  apply bind_inv in E as (r2 & s4 & E2 & E). inversion E; subst; clear E.
  assert (H1 : Forall (fun p => _ancestormap p = Some m) r1 /\ (List.length r1 <= 1)%nat).
  { clear E2. revert E1. case_bool_decide;
      [|intros E0; inversion E0; subst; split; [constructor|cbn; lia]].
    intros E1. apply bind_inv in E1 as (c & s5 & Ec & E1).
    apply bind_inv in E1 as (r & s6 & _ & E1). inversion E1; subst.
    split; [|cbn; lia]. constructor; [|constructor].
    unfold lift in Ec. inversion Ec as [[Ec' Hs]].
    now apply new_remotefilectx_map in Ec'. }
  assert (H2 : Forall (fun p => _ancestormap p = Some m) r2 /\ (List.length r2 <= 1)%nat).
  { clear E1. revert E2. case_bool_decide;
      [|intros E0; inversion E0; subst; split; [constructor|cbn; lia]].
    intros E2. apply bind_inv in E2 as (self' & s5 & _ & E2).
    apply bind_inv in E2 as (c & s6 & Ec & E2).
    apply bind_inv in E2 as (r & s7 & _ & E2). inversion E2; subst.
    split; [|cbn; lia]. constructor; [|constructor].
    unfold lift in Ec. inversion Ec as [[Ec' Hs]].
    now apply new_remotefilectx_map in Ec'. }
  destruct H1 as [H1 L1], H2 as [H2 L2].
  split; [now apply Forall_app|]. split; [rewrite length_app; lia|exact Hsome].
Qed.

Lemma ancestormap_nonempty_hit s (m : ancmap) :
  _ancestormap (st_self s) = Some m -> m <> ∅ ->
  ancestormap s = (Ok m, s).
Proof.
  intros Hm Hne. unfold ancestormap, bind, gets. rewrite Hm. cbn.
  now rewrite bool_decide_eq_false_2.
Qed.

Lemma size_difference_lt (D seen : gset pyfileid) (f : pyfileid) :
  f ∈ D -> f ∉ seen ->
  (size (D ∖ ({[f]} ∪ seen)) < size (D ∖ seen))%nat.
Proof.
  intros HD Hs. apply subset_size. split.
  - intros x [Hx1 Hx2]%elem_of_difference. apply elem_of_difference.
    split; [exact Hx1|]. intros Hx. apply Hx2. now apply elem_of_union_r.
  - intros Hsub.
    assert (Hf : f ∈ D ∖ ({[f]} ∪ seen)).
    { apply Hsub. apply elem_of_difference. now split. }
    apply elem_of_difference in Hf as [_ Hn]. apply Hn.
    apply elem_of_union_l. now apply elem_of_singleton.
Qed.

Lemma ancestors_step_measure followfirst (m : ancmap) current v w v' w' :
  _ancestormap current = Some m -> m <> ∅ ->
  Forall (fun p => _ancestormap p = Some m) (anc_queue v) ->
  ancestors_step followfirst current v w = (Ok v', w') ->
  Forall (fun p => _ancestormap p = Some m) (anc_queue v') /\
  (List.length (anc_queue v') + 2 * size (dom m ∖ anc_seen v')
   <= List.length (anc_queue v) + 2 * size (dom m ∖ anc_seen v))%nat.
Proof.
  intros Hm Hne Hq. unfold ancestors_step. case_bool_decide as Hin.
  - intros [= <- <-]. split; [exact Hq|lia].
  - intros E. apply bind_inv_w in E as ([ps current'] & w1 & Eon & E).
    inversion E; subst; clear E. cbn [anc_queue anc_seen].
    apply on_inv in Eon.
    destruct (parents_share _ m _ _ _
                (ancestormap_nonempty_hit {| st_self := current; st_world := w |} m Hm Hne) Eon)
      as (Hps & Hlen & Hsome).
    cbn [st_self] in Hsome.
    assert (Hqd : Forall (fun p => _ancestormap p = Some m)
                    (if followfirst then take 1 ps else ps) /\
                  (List.length (if followfirst then take 1 ps else ps) <= 2)%nat).
    { destruct followfirst; [|auto]. split; [now apply Forall_take|].
      rewrite length_take. lia. }
    destruct Hqd as [Hqd Hql]. split.
    + apply Forall_app. split; [now apply Forall_reverse|exact Hq].
    + rewrite length_app, length_reverse.
      assert (size (dom m ∖ ({[_fileid current]} ∪ anc_seen v))
              < size (dom m ∖ anc_seen v))%nat; [|lia].
      apply size_difference_lt; [now apply elem_of_dom|exact Hin].
Qed.

Lemma ancestors_loop_ends n followfirst (m : ancmap) v w v' w' :
  m <> ∅ ->
  Forall (fun p => _ancestormap p = Some m) (anc_queue v) ->
  (List.length (anc_queue v) + 2 * size (dom m ∖ anc_seen v) <= n)%nat ->
  ancestors_loop n followfirst v w = (Ok v', w') ->
  anc_queue v' = [].
Proof.
  intros Hne. revert v w. induction n as [|n IH]; intros v w Hq Hn;
    cbn [ancestors_loop].
  - intros [= <- <-]. destruct (anc_queue v); [reflexivity|cbn in Hn; lia].
  - destruct (anc_queue v) as [|current q] eqn:Eq.
    + now intros [= <- <-].
    + intros E. apply bind_inv_w in E as (v1 & w1 & Estep & E).
      apply Forall_cons in Hq as [Hc Hq].
      apply (ancestors_step_measure _ m) in Estep as [Hq1 Hn1];
        [|exact Hc|exact Hne|exact Hq].
      cbn [anc_queue anc_seen List.length] in Hn, Hn1.
      eapply IH; [exact Hq1| |exact E]. lia.
Qed.

(** X22. The loop of [ancestors()] ends, whatever the map holds,
    cycles included: with [m] the map of [self], [2 * len(m) + 1] turns
    are enough for the queue to run empty (or for an exception). *)
Theorem ancestors_terminates
    (n : nat) (self : remotefilectx) (followfirst : bool) w
    (m : ancmap) self1 w1 :
  on self ancestormap w = (Ok (m, self1), w1) ->
  (2 * size m + 1 <= n)%nat ->
  (ancestors n self followfirst w).1 <> Ok None.
Proof.
  intros Em Hn. apply on_inv in Em. unfold ancestors, bind.
  destruct (ancestors_walk n self followfirst w) as [[v|e] w2] eqn:Ewalk;
    [|discriminate].
  assert (Hq : anc_queue v = []).
  { destruct n as [|n]; [lia|]. revert Ewalk.
    unfold ancestors_walk. cbn [ancestors_loop anc_queue anc_list anc_seen].
    intros E. apply bind_inv_w in E as (v1 & w3 & Estep & E).
    revert Estep. unfold ancestors_step. cbn [anc_seen anc_list anc_queue app].
    rewrite bool_decide_eq_false_2 by apply not_elem_of_empty.
    intros Estep. apply bind_inv_w in Estep as ([ps self'] & w4 & Eon & Estep).
    inversion Estep; subst; clear Estep. apply on_inv in Eon.
    destruct (parents_share _ _ _ _ _ Em Eon) as (Hps & Hlen & Hsome).
    cbn [st_self] in Hsome.
    assert (Hne : m <> ∅).
    { intros ->. rewrite lookup_empty in Hsome. now destruct Hsome. }
    eapply (ancestors_loop_ends _ _ m); [exact Hne| | |exact E];
      cbn [anc_queue anc_seen]; rewrite app_nil_r.
    - apply Forall_reverse. destruct followfirst; [now apply Forall_take|exact Hps].
    - rewrite length_reverse.
      assert (List.length (if followfirst then take 1 ps else ps) <= 2)%nat.
      { destruct followfirst; [rewrite length_take|]; lia. }
      assert (size (dom m ∖ ({[_fileid self]} ∪ ∅)) < size (dom m ∖ ∅))%nat.
      { apply size_difference_lt; [now apply elem_of_dom|apply not_elem_of_empty]. }
      assert (size (dom m ∖ (∅ : gset pyfileid)) <= size (dom m))%nat.
      { apply subseteq_size. now intros x [Hx _]%elem_of_difference. }
      rewrite size_dom in *. lia. }
  rewrite Hq. destruct (anc_list v) as [|c l]; [discriminate|].
  cbn. unfold bind.
  destruct (with_linkrevs l w2) as [[keyed|e] w3]; discriminate.
Qed.


Lemma ancestors_step_within followfirst (m : ancmap) current v w v' w' :
  _ancestormap current = Some m -> m <> ∅ ->
  Forall (fun c => is_Some (m !! _fileid c)) (anc_list v) ->
  ancestors_step followfirst current v w = (Ok v', w') ->
  Forall (fun c => is_Some (m !! _fileid c)) (anc_list v').
Proof.
  intros Hm Hne Hl. unfold ancestors_step. case_bool_decide as Hin.
  - now intros [= <- <-].
  - intros E. apply bind_inv_w in E as ([ps current'] & w1 & Eon & E).
    inversion E; subst; clear E. cbn [anc_list].
    apply Forall_app. split; [exact Hl|]. constructor; [|constructor].
    destruct (on_keeps_file _ _ _ _ _ _ keeps_file_parents Eon) as [_ ->].
    apply on_inv in Eon.
    now destruct (parents_share _ m _ _ _
                    (ancestormap_nonempty_hit {| st_self := current; st_world := w |}
                       m Hm Hne) Eon) as (_ & _ & Hsome).
Qed.

Lemma ancestors_loop_within n followfirst (m : ancmap) v w v' w' :
  m <> ∅ ->
  Forall (fun p => _ancestormap p = Some m) (anc_queue v) ->
  Forall (fun c => is_Some (m !! _fileid c)) (anc_list v) ->
  ancestors_loop n followfirst v w = (Ok v', w') ->
  Forall (fun c => is_Some (m !! _fileid c)) (anc_list v').
Proof.
  intros Hne. revert v w. induction n as [|n IH]; intros v w Hq Hl;
    cbn [ancestors_loop].
  - now intros [= <- <-].
  - destruct (anc_queue v) as [|current q] eqn:Eq.
    + now intros [= <- <-].
    + intros E. apply bind_inv_w in E as (v1 & w1 & Estep & E).
      apply Forall_cons in Hq as [Hc Hq].
      eapply IH; [| |exact E].
      * now apply (ancestors_step_measure _ m) in Estep as [Hq1 _].
      * now apply (ancestors_step_within _ m) in Estep.
Qed.

(** X23. [ancestors()] stays within the map of [self]: every context
    it yields has a file node that is a key of the ancestor map
    [self.ancestormap()] gave (a parent node the map does not know
    raises [KeyError] when its turn comes). *)
Theorem ancestors_within_map
    (n : nat) (self : remotefilectx) (followfirst : bool) w
    (m : ancmap) self1 w1 (l : list remotefilectx) w' :
  on self ancestormap w = (Ok (m, self1), w1) ->
  ancestors n self followfirst w = (Ok (Some l), w') ->
  Forall (fun c => is_Some (m !! _fileid c)) l.
Proof.
  intros Em E. apply on_inv in Em.
  apply ancestors_inv in E as (v & w2 & c & visited & keyed & Ewalk & Hl & _ & _ & Hk & ->).
  assert (Hv : Forall (fun c => is_Some (m !! _fileid c)) (anc_list v)).
  { revert Ewalk. unfold ancestors_walk. destruct n as [|n];
      cbn [ancestors_loop anc_queue anc_list anc_seen].
    { intros [= <- <-]. constructor. }
    intros E. apply bind_inv_w in E as (v1 & w3 & Estep & E).
    revert Estep. unfold ancestors_step. cbn [anc_seen anc_list anc_queue app].
    rewrite bool_decide_eq_false_2 by apply not_elem_of_empty.
    intros Estep. apply bind_inv_w in Estep as ([ps self'] & w4 & Eon & Estep).
    inversion Estep; subst; clear Estep.
    destruct (on_keeps_file _ _ _ _ _ _ keeps_file_parents Eon) as [_ Hf].
    apply on_inv in Eon.
    destruct (parents_share _ _ _ _ _ Em Eon) as (Hps & _ & Hsome).
    cbn [st_self] in Hsome.
    assert (Hne : m <> ∅).
    { intros ->. rewrite lookup_empty in Hsome. now destruct Hsome. }
    eapply (ancestors_loop_within _ _ m); [exact Hne| | |exact E];
      cbn [anc_queue anc_list].
    - rewrite app_nil_r. apply Forall_reverse.
      destruct followfirst; [now apply Forall_take|exact Hps].
    - constructor; [|constructor]. now rewrite Hf. }
  rewrite Hl in Hv. apply Forall_cons in Hv as [_ Hv].
  assert (Hkeyed : Forall (fun kc => is_Some (m !! _fileid kc.2)) keyed).
  { clear -Hk Hv. induction Hk as [|c0 kc l k [[_ Hf] _] _ IH]; [constructor|].
    apply Forall_cons in Hv as [Hc Hv]. constructor; [now rewrite Hf|auto]. }
  rewrite <- (sorted_desc_perm keyed) in Hkeyed.
  induction Hkeyed; cbn [map]; constructor; auto.
Qed.

Lemma ancestors_step_chain current v w v' w' :
  anc_queue v = [] ->
  ancestors_step true current v w = (Ok v', w') ->
  (List.length (anc_queue v') <= 1)%nat.
Proof.
  intros Hq. unfold ancestors_step. case_bool_decide.
  - intros [= <- <-]. rewrite Hq. cbn. lia.
  - intros E. apply bind_inv_w in E as ([ps current'] & w1 & _ & E).
    inversion E; subst; clear E. cbn [anc_queue].
    rewrite Hq, app_nil_r, length_reverse, length_take. lia.
Qed.

Lemma ancestors_loop_chain n v w v' w' :
  (List.length (anc_queue v) <= 1)%nat ->
  ancestors_loop n true v w = (Ok v', w') ->
  (List.length (anc_queue v') <= 1)%nat.
Proof.
  revert v w. induction n as [|n IH]; intros v w Hq; cbn [ancestors_loop].
  - now intros [= <- <-].
  - destruct (anc_queue v) as [|current q] eqn:Eq.
    + intros [= <- <-]. rewrite Eq. cbn. lia.
    + intros E. apply bind_inv_w in E as (v1 & w1 & Estep & E).
      apply ancestors_step_chain in Estep.
      * eapply IH; [exact Estep|exact E].
      * cbn [anc_queue]. destruct q; [reflexivity|cbn in Hq; lia].
Qed.

(** X24. With [followfirst] the deque never holds more than one
    context: of the parents of a context only the first is ever queued,
    so the loop follows a single chain of first parents. *)
Theorem ancestors_followfirst_chain
    (n : nat) (self : remotefilectx) w (v : ancestors_vars) w' :
  ancestors_walk n self true w = (Ok v, w') ->
  (List.length (anc_queue v) <= 1)%nat.
Proof.
  unfold ancestors_walk. apply ancestors_loop_chain. cbn. lia.
Qed.

(** *** The prefetch of [annotate] *)

(** X25. What [annotate] asks the file service for, once its walk is
    over: nothing when no joint point was met, and otherwise one
    prefetch, not forced, of the joint points, in the order the walk met
    them and after the debug line. None of them is the file node of
    [self]. A prefetch that fails makes [annotate] fail. *)
Theorem annotate_prefetch_request
    (n : nat) (self : remotefilectx) (prefetchskip : list remotefilectx) w
    (v : annotate_vars) w1 :
  annotate_walk filelog_ancestormap fileservice_prefetch call_conduit repo
    n self prefetchskip w = (Ok v, w1) ->
  queue v = [] ->
  let debug := EvLog "debug" "remotefilelog: prefetching files for annotate" in
  joint_points (_fileid self) (fetch v) /\
  (fetch v = [] ->
   annotate_prefetch filelog_ancestormap fileservice_prefetch call_conduit repo
     n self prefetchskip w
   = (Ok (Some []),
      {| w_store := w_store w1; w_trace := w_trace w1 ++ [debug] |})) /\
  (forall r st,
     fetch v <> [] ->
     fileservice_prefetch (fetch v) false (w_store w1) = (r, st) ->
     annotate_prefetch filelog_ancestormap fileservice_prefetch call_conduit repo
       n self prefetchskip w
     = (match r with
        | Ok _ => Ok (Some (fetch v))
        | Raise e => Raise e
        end,
        {| w_store := st;
           w_trace := w_trace w1 ++ [debug; EvPrefetch (fetch v) false] |})).
Proof.
  intros Ewalk Hq debug. split; [|split].
  - unfold annotate_walk in Ewalk.
    apply bind_inv_w in Ewalk as ([v0 self'] & w0 & Ei & E).
    apply (annotate_init_spec filelog_ancestormap fileservice_prefetch call_conduit repo)
      in Ei as [Hf Hid].
    rewrite <- Hid.
    apply (annotate_loop_joint_points filelog_ancestormap fileservice_prefetch
             call_conduit repo _ _ _ _ _ _ _ E).
    rewrite Hf. intros p h Hin. now apply elem_of_nil in Hin.
  - intros Hf. unfold annotate_prefetch, bind. rewrite Ewalk, Hq, Hf.
    rewrite bool_decide_eq_true_2 by reflexivity. reflexivity.
  - intros r st Hf Ep. unfold annotate_prefetch, bind. rewrite Ewalk, Hq.
    rewrite bool_decide_eq_false_2 by exact Hf.
    unfold emit_w, call_w, modify. cbn [w_store w_trace].
    rewrite Ep, <- app_assoc. destruct r as [[]|e]; reflexivity.
Qed.

(** *** [renamed] *)

Variable changectx_parents : pyrev -> result (list (gmap string string)).

#[local] Abbreviation changectx :=
  (changectx filelog_ancestormap fileservice_prefetch call_conduit repo)
  (only parsing).
#[local] Abbreviation renamed :=
  (renamed filelog_ancestormap fileservice_prefetch call_conduit repo changectx_parents)
  (only parsing).

Lemma changectx_spec s cr s' :
  changectx s = (Ok cr, s') ->
  _changectx (st_self s') = Some cr /\
  _changeid (st_self s') = _changeid (st_self s) /\
  _linkrev_cached (st_self s') = _linkrev_cached (st_self s) \/
  _changeid (st_self s) = None.
Proof.
  unfold changectx. unfold bind at 1. unfold gets at 1.
  destruct (_changectx (st_self s)) as [r0|] eqn:Hc.
  - intros [= <- <-]. left. auto.
  - destruct (_changeid (st_self s)) as [r|] eqn:Hid; [|now right].
    rewrite (bind_ok _ _ _ _ _
               (rev_hit filelog_ancestormap fileservice_prefetch call_conduit repo
                  s r Hid)).
    intros [= <- <-]. left. auto.
Qed.

(** X26. [renamed()] of a committed context reports a copy only when
    the entry of the file node names a copy source, and either the
    linkrev is the revision of the context or no parent of its
    changeset has this file node for the path; the copy reported is the
    source path with the first parent node of the entry. When the entry
    names no copy source the answer is [None], and nothing beyond the
    map is computed. *)
Theorem renamed_reported s (m : ancmap) s1 (p1 p2 ln cf : string) :
  kind (st_self s) = Committed ->
  ancestormap s = (Ok m, s1) ->
  m !! _fileid (st_self s) = Some (p1, p2, ln, cf) ->
  (cf = "" -> renamed s = (Ok None, s1)) /\
  (forall (src pn : string) s',
     renamed s = (Ok (Some (src, pn)), s') ->
     src = cf /\ pn = p1 /\ cf <> "" /\
     exists r l,
       _changeid (st_self s') = Some r /\
       _linkrev_cached (st_self s') = Some l /\
       (r = l \/
        exists cr pms,
          _changectx (st_self s') = Some cr /\
          changectx_parents cr = Ok pms /\
          forall pm n, pm ∈ pms -> pm !! _path (st_self s) = Some n ->
                       _fileid (st_self s) <> FidStr n)).
Proof.
  intros Hk Em He.
  destruct (keeps_file_ancestormap filelog_ancestormap _ _ _ Em) as [Hp1 Hf1].
  assert (Hunf : renamed s
          = (if String.eqb cf "" then ret None
             else
               r <- rev;;
               l <- linkrev;;
               if bool_decide (r = l) then ret (Some (cf, p1))
               else
                 self <- gets st_self;;
                 cr <- changectx;;
                 pms <- lift (changectx_parents cr);;
                 if existsb (parent_has (_path self) (_fileid self)) pms then ret None
                 else ret (Some (cf, p1))) s1).
  { unfold renamed. unfold bind at 1. unfold gets at 1. rewrite Hk.
    rewrite (bind_ok _ _ _ _ _ Em). unfold bind at 1. unfold gets at 1.
    unfold bind at 1. unfold getitem. rewrite Hf1.
    match goal with
    | |- context [@lookup ?K ?A ?T ?L ?k m] =>
        replace (@lookup K A T L k m) with (Some (p1, p2, ln, cf) : option ancentry)
          by (symmetry; exact He)
    end.
    reflexivity. }
  rewrite Hunf. clear Hunf. split.
  - intros ->. reflexivity.
  - intros src pn s'. destruct (String.eqb_spec cf "") as [->|Hcf]; [discriminate|].
    intros E. apply bind_inv in E as (r & s2 & Er & E).
    apply bind_inv in E as (l & s3 & El & E).
    pose proof (rev_cached filelog_ancestormap fileservice_prefetch call_conduit repo
                  _ _ _ Er) as Hr.
    pose proof (linkrev_cached filelog_ancestormap repo _ _ _ El) as Hl.
    destruct (keeps_attrs_linkrev filelog_ancestormap repo _ _ _ El)
      as (_ & _ & Hid & _).
    rewrite Hr in Hid.
    destruct (keeps_file_rev filelog_ancestormap fileservice_prefetch call_conduit repo
                _ _ _ Er) as [Hp2 Hf2].
    destruct (keeps_file_linkrev filelog_ancestormap repo _ _ _ El) as [Hp3 Hf3].
    revert E. case_bool_decide as Hrl.
    + intros [= <- <- <-]. repeat (split; [reflexivity || exact Hcf|]).
      exists r, l. auto.
    + intros E. apply bind_inv in E as (self & s4 & Es & E).
      unfold gets in Es. inversion Es; subst self s4; clear Es.
      apply bind_inv in E as (cr & s4 & Ec & E).
      apply bind_inv in E as (pms & s5 & Epm & E).
      unfold lift in Epm. inversion Epm as [[Epm' Hs]]; subst s5; clear Epm.
      destruct (existsb _ pms) eqn:Hex; [discriminate|].
      inversion E; subst; clear E.
      repeat (split; [reflexivity || exact Hcf|]).
      exists r, l.
      destruct (changectx_spec _ _ _ Ec) as [(Hc & Hid' & Hl')|Hnone];
        [|congruence].
      split; [congruence|]. split; [congruence|]. right.
      exists cr, pms. split; [exact Hc|]. split; [exact Epm'|].
      intros pm n Hpm Hn Hfid.
      assert (Hfalse : existsb (parent_has (_path (st_self s3)) (_fileid (st_self s3))) pms
                       = true); [|congruence].
      apply existsb_exists. exists pm. split; [now apply list_elem_of_In|].
      unfold parent_has. rewrite Hp3, Hp2, Hp1, Hn.
      apply bool_decide_eq_true_2. congruence.
Qed.

End WalkFacts.

(** ** The conduit module *)

(** X27. The conduit is probed once per process. Whatever the global
    [conduit] holds, an access of [_conduit] returns, leaves the global
    set, and every later access, from any context, gives the same
    answer and does nothing. A first access writes one line to the log
    when the probe fails and none when it succeeds; an access with the
    global set writes nothing. *)
Theorem conduit_probed_once (env : conduit_env) (st : conduit_state) :
  exists r st1,
    _conduit env st = (Ok r, st1) /\
    cs_global st1 <> ConduitUnset /\
    (forall env', _conduit env' st1 = (Ok r, st1)) /\
    exists d,
      cs_log st1 = cs_log st ++ d /\
      (cs_global st <> ConduitUnset -> d = [] /\ cs_global st1 = cs_global st) /\
      (cs_global st = ConduitUnset ->
       match r with
       | Some c => d = [] /\ has_conduit_config c = true /\ conduit_config_ok c = true
       | None => exists msg, d = [EvLog "linkrevfixup" msg]
       end).
Proof.
  destruct st as [g lg]. destruct g as [| |c].
  - destruct env as [[[hc ok]|] [[hc' ok']|]].
    all: repeat match goal with b : bool |- _ => destruct b end.
    all: cbv [_conduit createconduit bind ret gets modify ui_log negb cs_global cs_log
              has_conduit_config conduit_config_ok ext_find ext_import].
    all: eexists _, _; (split; [reflexivity|]); (split; [discriminate|]);
      (split; [reflexivity|]).
    all: first [ exists []; cbn [cs_log]; rewrite app_nil_r; split; [reflexivity|];
                 split; [congruence|]; intros _; auto
               | eexists [_]; split; [reflexivity|]; split; [congruence|];
                 intros _; eauto ].
  - exists None, {| cs_global := ConduitFalse; cs_log := lg |}.
    split; [reflexivity|]. split; [discriminate|]. split; [reflexivity|].
    exists []. cbn. rewrite app_nil_r. split; [reflexivity|]. split; [auto|discriminate].
  - exists (Some c), {| cs_global := ConduitModule c; cs_log := lg |}.
    split; [reflexivity|]. split; [discriminate|]. split; [reflexivity|].
    exists []. cbn. rewrite app_nil_r. split; [reflexivity|]. split; [auto|discriminate].
Qed.

(** ** The methods on the repositories of [Cases] *)

Import Cases.

Lemma verifylinknode_accepts_ancestors_only_witness :
  exists s', _verifylinknode ex_repo [2] cA (ex_state f_h1) = (Ok true, s').
Proof.
  apply (proj2 (verifylinknode_accepts_ancestors_only ex_repo [2] cA (ex_state f_h1))).
  - constructor; [|constructor]. vm_compute; eauto.
  - constructor. reflexivity.
Defined.

Lemma adjustlinknode_result_witness :
  let s := ex_state f_h1_linked in
  let s' := add_trace s [EvIsAncestor cA cC] in
  cA = linknode_of (nullid, nullid, cA, "") \/
  (exists m' e', _ancestormap (st_self s') = Some m' /\
                 m' !! FidStr h1 = Some e' /\ cA = linknode_of e') \/
  (exists r, (r ∈ cl_ancestors ex_changelog [2] false \/ from_fastlog ex_repo r) /\
             _nodefromancrev r ex_changelog ex_manifestlog "f" (FidStr h1) = Some cA).
Proof.
  intros s s'.
  apply (adjustlinknode_result (ex_ancestormap cA) ex_prefetch ex_conduit ex_repo
           "f" (FidStr h1) (Some 2) false s (ex_map cA) s
           (nullid, nullid, cA, "") cA s').
  - reflexivity.
  - reflexivity.
  - reflexivity.
Defined.

Lemma adjustlinknode_first_match_witness :
  let s := ex_state f_h1 in
  let s1 := (ancestormap (ex_ancestormap cY) s).2 in
  let s2 := (_verifylinknode ex_repo_draft [2] cX s1).2 in
  _adjustlinknode (ex_ancestormap cY) ex_prefetch ex_conduit ex_repo_draft
    "f" (FidStr h1) (Some 2) true s
  = (Ok cA, add_trace s2 [EvAncestors [2] true; EvVisit 2; EvVisit 1; EvVisit 0]).
Proof.
  intros s s1 s2.
  apply (adjustlinknode_first_match (ex_ancestormap cY) ex_prefetch ex_conduit
           ex_repo_draft "f" (FidStr h1) (Some 2) true s (ex_map cX) s1
           (nullid, nullid, cX, "") s2 [2; 1] 0 [] cA).
  - reflexivity.
  - reflexivity.
  - reflexivity.
  - reflexivity.
  - repeat constructor; discriminate.
  - reflexivity.
Defined.

Lemma walk_refresh_resolves_witness :
  let s := ex_state f_h3 in
  let sf := add_trace s [EvVisit 1] in
  let sm := (ancestormap (ex_ancestormap cA) (after_prefetch "f" (hex h3) 1%nat sf)).2 in
  walk (ex_ancestormap cA) ex_prefetch ex_conduit ex_repo
    "f" (FidStr h3) [2] ex_changelog [1; 0] false cX s
  = (Ok (Returned cA), add_trace sm [EvIsAncestor cA cC]).
Proof.
  intros s sf sm.
  apply (walk_refresh_resolves (ex_ancestormap cA) ex_prefetch ex_conduit ex_repo
           "f" h3 [2] ex_changelog [] 1 [0] cX s None sf 1%nat (ex_map cA) sm
           (nullid, nullid, cA, "") (add_trace sm [EvIsAncestor cA cC])).
  - constructor.
  - reflexivity.
  - reflexivity.
  - reflexivity.
  - reflexivity.
  - reflexivity.
  - reflexivity.
  - reflexivity.
  - reflexivity.
Defined.

Lemma ancestormap_failure_not_cached_witness :
  let s' := add_trace (ex_state f_h1) [EvFetchAncestormap "f" (FidStr h1)] in
  st_self s' = f_h1 /\ ancestormap_truthy (_ancestormap (st_self s')) = false.
Proof.
  intros s'.
  apply (ancestormap_failure_not_cached ex_store_fails (ex_state f_h1)
           (StoreError "no such blob") s').
  reflexivity.
Defined.

Lemma refresh_rebuild_failure_witness :
  let s := ex_state f_h3 in
  let sm := add_trace (after_prefetch "f" (hex h3) 1%nat s)
              [EvFetchAncestormap "f" (FidStr h3)] in
  refresh_linknode ex_store_once ex_prefetch ex_repo "f" (FidStr h3) [2] cX s
  = (Ok (cX, false), add_trace sm [EvWarn "f" (hex cX) (StoreError "no such blob")]) /\
  _ancestormap (st_self sm) = None.
Proof.
  intros s sm.
  apply (refresh_rebuild_failure ex_store_once ex_prefetch ex_repo "f" h3 [2] cX s
           1%nat (StoreError "no such blob") sm).
  - reflexivity.
  - reflexivity.
Defined.

Lemma adjustlinknode_raises_only_at_start_witness :
  _adjustlinknode ex_store_fails ex_prefetch ex_conduit ex_repo
    "f" (FidStr h1) (Some 2) false (ex_state f_h1)
  = (Raise (StoreError "no such blob"),
     add_trace (ex_state f_h1) [EvFetchAncestormap "f" (FidStr h1)]).
Proof.
  apply (proj2 (adjustlinknode_raises_only_at_start ex_store_fails ex_prefetch ex_conduit
                  ex_repo "f" (FidStr h1) (Some 2) false (ex_state f_h1)
                  (StoreError "no such blob")
                  (add_trace (ex_state f_h1) [EvFetchAncestormap "f" (FidStr h1)]))).
  left. reflexivity.
Defined.

Lemma adjustlinknode_no_target_witness :
  _adjustlinknode (ex_ancestormap cA) ex_prefetch ex_conduit ex_repo_bare
    "f" (FidStr h1) None false (ex_state f_h1_linked)
  = (Ok cA, add_trace (ex_state f_h1_linked) [EvAncestors [] true]).
Proof.
  apply (adjustlinknode_no_target (ex_ancestormap cA) ex_prefetch ex_conduit ex_repo_bare
           "f" (FidStr h1) false (ex_state f_h1_linked) (ex_map cA)
           (ex_state f_h1_linked) (nullid, nullid, cA, "")).
  - reflexivity.
  - reflexivity.
  - reflexivity.
  - reflexivity.
Defined.

Lemma linkrev_scan_newest_match_witness :
  let s1 := (ancestormap (ex_ancestormap cY) (ex_state f_h1)).2 in
  exists res,
    _linkrev (ex_ancestormap cY) ex_repo (ex_state f_h1) = (Ok res, s1) /\
    forall r, res = Some r <->
      0 < r < 3 /\ introduces ex_repo ex_changelog "f" (FidStr h1) r /\
      forall q, r < q < 3 -> ~ introduces ex_repo ex_changelog "f" (FidStr h1) q.
Proof.
  intros s1.
  apply (linkrev_scan_newest_match (ex_ancestormap cY) ex_repo (ex_state f_h1)
           (ex_map cX) s1 (nullid, nullid, cX, "")).
  - discriminate.
  - reflexivity.
  - reflexivity.
  - reflexivity.
Defined.

Lemma linkrev_without_scan_witness :
  let s := ex_state (ex_ctx "f" nullid None None) in
  _linkrev (ex_ancestormap cA) ex_repo s = (Ok (Some nullrev), s).
Proof.
  intros s.
  apply (proj1 (linkrev_without_scan (ex_ancestormap cA) ex_repo s)).
  reflexivity.
Defined.

Lemma linkrev_memoized_witness :
  let s1 := {| st_self := set_linkrev_cached f_h1_linked (Some 0);
               st_world := ex_world |} in
  linkrev (ex_ancestormap cA) ex_repo s1 = (Ok (Some 0), s1).
Proof.
  intros s1.
  apply (linkrev_memoized (ex_ancestormap cA) ex_repo (ex_state f_h1_linked) (Some 0) s1).
  reflexivity.
Defined.

Lemma rev_memoized_witness :
  rev (ex_ancestormap cA) ex_prefetch ex_conduit ex_repo (ex_state f_h2)
  = (Ok (Some 2), ex_state f_h2).
Proof.
  apply (proj1 (rev_memoized (ex_ancestormap cA) ex_prefetch ex_conduit ex_repo
                  (ex_state f_h2)) (Some 2)).
  reflexivity.
Defined.

Lemma introrev_cases_witness :
  introrev (ex_ancestormap cA) ex_prefetch ex_conduit ex_repo (ex_state f_h1_linked)
  = linkrev (ex_ancestormap cA) ex_repo (ex_state f_h1_linked).
Proof.
  apply (proj1 (introrev_cases (ex_ancestormap cA) ex_prefetch ex_conduit ex_repo
                  (ex_state f_h1_linked))).
  intros [[r Hr]|[r Hr]]; discriminate Hr.
Defined.

Lemma parents_of_entry_witness :
  let s1 := (ancestormap (ex_ancestormap cA) (ex_state f_h2)).2 in
  parents (ex_ancestormap cA) ex_prefetch ex_conduit ex_repo (ex_state f_h2)
  = (Ok (parent_ctxs "f" (h1, nullid, cC, "") (ex_map cX) (Some 2)), s1).
Proof.
  intros s1.
  apply (proj2 (parents_of_entry (ex_ancestormap cA) ex_prefetch ex_conduit ex_repo
                  (ex_state f_h2) (ex_map cX) s1 h1 nullid cC ""
                  eq_refl eq_refl ltac:(discriminate) ltac:(discriminate))
           (Some 2) s1).
  - left. discriminate.
  - reflexivity.
Defined.

Lemma working_parents_witness :
  let m : ancmap := <[FidNone := (h2, nullid, nullid, "")]> (ex_map cX ∪ ∅) in
  let s1 := (ancestormap (ex_ancestormap cA) (ex_state f_wdir)).2 in
  parents (ex_ancestormap cA) ex_prefetch ex_conduit ex_repo (ex_state f_wdir)
  = (Ok (parent_ctxs "f" (h2, nullid, nullid, "") m None), s1).
Proof.
  intros m s1.
  apply (working_parents (ex_ancestormap cA) ex_prefetch ex_conduit ex_repo
           "f" (ex_manifestlog mC) [] None (ex_state f_wdir) m s1).
  - reflexivity.
  - reflexivity.
  - reflexivity.
  - reflexivity.
  - reflexivity.
  - discriminate.
  - discriminate.
  - reflexivity.
Defined.

Lemma linknodeviafastlog_absorbs_failures_witness :
  exists d,
    _linknodeviafastlog ex_conduit ex_repo "f" 1 (FidStr h1) ex_changelog (ex_state f_h1)
    = (Ok None, add_trace (ex_state f_h1) d) /\
    forall reponame srchex p, EvConduit reponame srchex p ∉ d.
Proof.
  apply (proj1 (proj2 (linknodeviafastlog_absorbs_failures ex_conduit ex_repo
                         "f" 1 (FidStr h1) ex_changelog (ex_state f_h1)))).
  reflexivity.
Defined.

Lemma linknodeviafastlog_first_hit_witness :
  _linknodeviafastlog ex_conduit_lists ex_repo_conduit "f" 1 (FidStr h1) ex_changelog
    (ex_state f_h1)
  = (Ok (Some cA), after_conduit ex_repo_conduit "f" 1 0%nat (ex_state f_h1)).
Proof.
  apply (proj1 (linknodeviafastlog_first_hit ex_conduit_lists ex_repo_conduit
                  "f" 1 (FidStr h1) ex_changelog (ex_state f_h1)
                  ["hashB"] "hashA" ["unknown"] 0%nat eq_refl eq_refl
                  ltac:(constructor; [exists 1; split; reflexivity|constructor]))
           0 cA).
  - reflexivity.
  - reflexivity.
Defined.

Lemma normalize_fileid_idempotent_witness :
  normalize_fileid (FidStr h1) = Ok (FidStr h1).
Proof.
  apply (normalize_fileid_idempotent (FidStr (hex h1)) (FidStr h1)).
  reflexivity.
Defined.

Lemma normalize_fileid_raises_witness :
  normalize_fileid (FidInt 5) = Raise TypeError.
Proof.
  apply (proj2 (normalize_fileid_raises (FidInt 5) TypeError)).
  left. exists 5. repeat split; discriminate.
Defined.

Lemma ancestors_distinct_witness :
  NoDup [FidStr h2; FidStr h1; FidStr h3].
Proof.
  apply (ancestors_distinct merge_store ex_prefetch ex_conduit ex_repo
           7 f_h2 false ex_world
           [f_below h1 merge_map (Some (Some 1)); f_below h3 merge_map (Some (Some 0))]
           {| w_store := 0%nat; w_trace := [EvFetchAncestormap "f" (FidStr h2)] |}).
  reflexivity.
Defined.

Lemma ancestors_sorted_witness :
  exists keys,
    Forall2 (fun c k => _linkrev_cached c = Some k)
      [f_below h1 merge_map (Some (Some 1)); f_below h3 merge_map (Some (Some 0))] keys /\
    StronglySorted (fun a b => pyrev_ltb a b = false) keys.
Proof.
  apply (ancestors_sorted merge_store ex_prefetch ex_conduit ex_repo
           7 f_h2 false ex_world
           [f_below h1 merge_map (Some (Some 1)); f_below h3 merge_map (Some (Some 0))]
           {| w_store := 0%nat; w_trace := [EvFetchAncestormap "f" (FidStr h2)] |}).
  reflexivity.
Defined.

Lemma ancestors_terminates_witness :
  (ancestors cycle_store ex_prefetch ex_conduit ex_repo 5 f_h1 false ex_world).1
  <> Ok None.
Proof.
  apply (ancestors_terminates cycle_store ex_prefetch ex_conduit ex_repo
           5 f_h1 false ex_world cycle_map (set_ancestormap f_h1 (Some cycle_map))
           {| w_store := 0%nat; w_trace := [EvFetchAncestormap "f" (FidStr h1)] |}).
  - reflexivity.
  - assert (E : size cycle_map = 2%nat) by reflexivity. rewrite E. lia.
Defined.

Lemma ancestors_within_map_witness :
  Forall (fun c => is_Some (merge_map !! _fileid c))
    [f_below h1 merge_map (Some (Some 1)); f_below h3 merge_map (Some (Some 0))].
Proof.
  apply (ancestors_within_map merge_store ex_prefetch ex_conduit ex_repo
           7 f_h2 false ex_world merge_map (set_ancestormap f_h2 (Some merge_map))
           {| w_store := 0%nat; w_trace := [EvFetchAncestormap "f" (FidStr h2)] |}
           [f_below h1 merge_map (Some (Some 1)); f_below h3 merge_map (Some (Some 0))]
           {| w_store := 0%nat; w_trace := [EvFetchAncestormap "f" (FidStr h2)] |}).
  - reflexivity.
  - reflexivity.
Defined.

Lemma ancestors_followfirst_chain_witness :
  (List.length [f_below h1 merge_map None] <= 1)%nat.
Proof.
  apply (ancestors_followfirst_chain merge_store ex_prefetch ex_conduit ex_repo
           1 f_h2 ex_world
           {| anc_list := [set_ancestormap f_h2 (Some merge_map)];
              anc_seen := {[FidStr h2]} ∪ ∅;
              anc_queue := [f_below h1 merge_map None] |}
           {| w_store := 0%nat; w_trace := [EvFetchAncestormap "f" (FidStr h2)] |}).
  reflexivity.
Defined.

Lemma annotate_prefetch_request_witness :
  let d := [EvFetchAncestormap "f" (FidStr h2); EvIsAncestor cB cC; EvIsAncestor cA cC] in
  let l := [("f", hex h3); ("f", hex h1)] in
  annotate_prefetch merge_store ex_prefetch ex_conduit ex_repo 5 f_h2 [] ex_world
  = (Ok (Some l),
     {| w_store := 0%nat;
        w_trace := d ++ [EvLog "debug" "remotefilelog: prefetching files for annotate";
                         EvPrefetch l false] |}).
Proof.
  intros d l.
  apply (proj2 (proj2 (annotate_prefetch_request merge_store ex_prefetch
                         ex_conduit ex_repo 5 f_h2 [] ex_world
                         {| fetch := l;
                            seen := {[Some cA]} ∪ ({[Some cB]} ∪ {[Some cC]});
                            queue := [] |}
                         {| w_store := 0%nat; w_trace := d |} eq_refl eq_refl))
           (Ok tt) 0%nat).
  - discriminate.
  - reflexivity.
Defined.

Lemma renamed_reported_witness :
  let s' := {| st_self := set_changectx
                            (set_linkrev_cached
                               (set_ancestormap f_h2 (Some copy_map)) (Some 0))
                            (Some 2);
               st_world := {| w_store := 0%nat;
                              w_trace := [EvFetchAncestormap "f" (FidStr h2)] |} |} in
  renamed copy_store ex_prefetch ex_conduit ex_repo ex_parents (ex_state f_h2)
  = (Ok (Some ("g", g1)), s') /\
  exists r l,
    _changeid (st_self s') = Some r /\ _linkrev_cached (st_self s') = Some l /\
    (r = l \/
     exists cr pms,
       _changectx (st_self s') = Some cr /\ ex_parents cr = Ok pms /\
       forall pm n, pm ∈ pms -> pm !! "f" = Some n -> FidStr h2 <> FidStr n).
Proof.
  intros s'.
  assert (E : renamed copy_store ex_prefetch ex_conduit ex_repo ex_parents (ex_state f_h2)
              = (Ok (Some ("g", g1)), s')) by reflexivity.
  split; [exact E|].
  apply (proj2 (renamed_reported copy_store ex_prefetch ex_conduit ex_repo ex_parents
                  (ex_state f_h2) copy_map
                  (ancestormap copy_store (ex_state f_h2)).2 g1 nullid cA "g"
                  eq_refl eq_refl eq_refl) "g" g1 s' E).
Defined.
